(** * DeepFocus: the semantic relevance engine

    A shallow embedding of the decision core of the DeepFocus extension:

    - [src/ml/tokenizer.ts]: [tokenize], [createSlidingWindows],
      [calculate75thPercentile];
    - [src/ml/embeddings.ts]: the [EmbeddingModelSingleton] life cycle
      ([initialize], [computeEmbedding], [getStatus], [getError]) and
      [cosineSimilarity];
    - [src/background.ts]: [initializeMLModel],
      [precomputeKeywordEmbeddings] and [computePageSimilarity];

    and of what surrounds it:

    - [src/ml/tokenizer.ts]: [extractVisibleText];
    - [src/background.ts]: [shouldBlockSite], the interval callback of
      [updateTimer] with the callback that ends a focus session, and the
      listener of [chrome.runtime.onMessage];
    - [src/content.ts]: [checkAndApplyBlocking], [createBlockingOverlay],
      [shouldStopChecking], [checkAndApplyBlocking_helper] and the
      TIMER_UPDATE branch of the message listeners.

    Notifications, broadcasts, storage writes and the scheduling of
    intervals are effects outside the state embedded here.

    Strings are sequences of code units in the ASCII range.
    JavaScript numbers are IEEE 754 binary64 values, so they are embedded
    as Rocq's primitive [float]s: every arithmetic operation and every
    comparison below is the one the engine executes.  Array lengths and
    indices are integers ([Z] or [nat]); where the source multiplies a
    length by [0.25] or [0.5] the product is exact in binary64, and the
    embedding performs the same computation on integers.

    Asynchronous functions are embedded run-to-completion: a call is a
    function from the state it finds to its completion and the state it
    leaves.  The embedding backend is an oracle whose promises settle.
    The two polling loops ([while (...) await sleep(100)]) observe a
    state that other tasks change; the observations they make are an
    explicit argument, and a loop that runs out of observations while
    still waiting is [Pending]. *)

From Stdlib Require Import ZArith List String Ascii Bool Lia Floats.
From Stdlib Require Import Sorted Permutation.
From stdpp Require Import gmap strings.
Import ListNotations.

Set Warnings "-inexact-float".

(* ================================================================== *)
(** ** JavaScript values and built-ins the engine relies on *)
(* ================================================================== *)

Module Js.

(** What a [throw] carries: an [Error] object with its message, or any
    other value ([error instanceof Error] is false for it). *)
Inductive thrown : Type :=
| JsError (message : string)
| NonError.

(** How a call ends: it returns, it throws, or it is still waiting (a
    loop that has not reached its exit within the steps it was given). *)
Inductive run (A : Type) : Type :=
| Returned (a : A)
| Thrown (e : thrown)
| Pending.
Arguments Returned {A} a.
Arguments Thrown {A} e.
Arguments Pending {A}.

(** How a promise of the backend settles. *)
Inductive settled (A : Type) : Type :=
| Fulfilled (a : A)
| Rejected (e : thrown).
Arguments Fulfilled {A} a.
Arguments Rejected {A} e.

(** [await p]. *)
Definition await {A} (p : settled A) : run A :=
  match p with
  | Fulfilled a => Returned a
  | Rejected e => Thrown e
  end.

(** [try { body } catch (error) { handler(error) }]. *)
Definition try_catch {A} (body : run A) (handler : thrown -> run A) : run A :=
  match body with
  | Thrown e => handler e
  | other => other
  end.

Definition bind {A B} (r : run A) (k : A -> run B) : run B :=
  match r with
  | Returned a => k a
  | Thrown e => Thrown e
  | Pending => Pending
  end.

(** [error instanceof Error ? error.message : 'Unknown error']. *)
Definition messageOf (e : thrown) : string :=
  match e with
  | JsError message => message
  | NonError => "Unknown error"
  end.

(** *** Numbers *)

Definition isNaN (x : float) : bool := PrimFloat.is_nan x.

(** [Math.max(x, y)]: NaN if either argument is NaN; [+0] is larger
    than [-0]. *)
Definition Math_max (x y : float) : float :=
  if isNaN x || isNaN y then nan
  else if PrimFloat.ltb x y then y
  else if PrimFloat.ltb y x then x
  else match PrimFloat.classify x with
       | NZero => y
       | _ => x
       end.

(** [Math.min(x, y)]: NaN if either argument is NaN; [-0] is smaller
    than [+0]. *)
Definition Math_min (x y : float) : float :=
  if isNaN x || isNaN y then nan
  else if PrimFloat.ltb x y then x
  else if PrimFloat.ltb y x then y
  else match PrimFloat.classify x with
       | PZero => y
       | _ => x
       end.

(** *** Arrays *)

(** [array.slice(start, end)] for integer arguments: a negative index
    counts from the end, both are clamped to the array. *)
Definition slice {A} (array : list A) (start stop : Z) : list A :=
  let len := Z.of_nat (length array) in
  let k := if (start <? 0)%Z then Z.max (len + start) 0 else Z.min start len in
  let final := if (stop <? 0)%Z then Z.max (len + stop) 0 else Z.min stop len in
  firstn (Z.to_nat (final - k)) (skipn (Z.to_nat k) array).

(** The comparator protocol of [Array.prototype.sort]: [comparefn a b]
    positive means [a] goes after [b]; a NaN result counts as [+0].
    The sort is stable; it is embedded as the insertion sort that keeps
    the elements the comparator does not separate in their order.  For
    a comparator that is consistent on the values sorted, every
    conforming [sort] returns this list. *)
Definition goesAfter (comparefn : float -> float -> float) (a b : float) : bool :=
  PrimFloat.ltb 0 (comparefn a b).

Fixpoint sortInsert (comparefn : float -> float -> float) (a : float)
    (sorted : list float) : list float :=
  match sorted with
  | [] => [a]
  | b :: rest =>
      if goesAfter comparefn a b then b :: sortInsert comparefn a rest
      else a :: sorted
  end.

Fixpoint sort (comparefn : float -> float -> float) (array : list float) : list float :=
  match array with
  | [] => []
  | a :: rest => sortInsert comparefn a (sort comparefn rest)
  end.

(** *** Strings (code units in the ASCII range) *)

(** The ASCII members of the class [\s]: TAB, LF, VT, FF, CR, SPACE. *)
Definition isWhiteSpace (c : ascii) : bool :=
  let n := nat_of_ascii c in
  ((9 <=? n)%nat && (n <=? 13)%nat) || (n =? 32)%nat.

Definition toLowerCaseChar (c : ascii) : ascii :=
  let n := nat_of_ascii c in
  if (65 <=? n)%nat && (n <=? 90)%nat then ascii_of_nat (n + 32) else c.

Fixpoint toLowerCase (s : string) : string :=
  match s with
  | EmptyString => EmptyString
  | String c rest => String (toLowerCaseChar c) (toLowerCase rest)
  end.

(** [s.split(/\s+/)]: the pieces between maximal runs of white space; a
    leading or trailing run leaves an empty piece, and the empty string
    splits into one empty piece.  [piece] is the piece being read and
    [inSeparator] tells whether the previous code unit was white space. *)
Fixpoint splitWhiteSpace (s : string) (piece : string) (inSeparator : bool)
    : list string :=
  match s with
  | EmptyString => [piece]
  | String c rest =>
      if isWhiteSpace c then
        if inSeparator then splitWhiteSpace rest EmptyString true
        else piece :: splitWhiteSpace rest EmptyString true
      else splitWhiteSpace rest (piece ++ String c EmptyString) false
  end.

(** [s.repeat(count)]. *)
Definition repeatString (s : string) (count : nat) : string :=
  String.concat "" (List.repeat s count).

(** [tokens.join(' ')]. *)
Definition join (tokens : list string) : string := String.concat " " tokens.

(** [!text || text.trim().length === 0]. *)
Definition isBlank (text : string) : bool :=
  forallb isWhiteSpace (list_ascii_of_string text).

(** *** Plain objects used as maps *)

(** What [object[key]] finds on a plain object: the value of an own
    property, or a property that every object inherits from
    [Object.prototype], or nothing ([undefined]).  The inherited
    properties are the functions of the ECMAScript standard (Annex B
    included) and the accessor [__proto__], which yields the prototype
    itself.  Of a function the engine reads the [length] only; it has no
    indexed elements.  All of these values are truthy. *)
Inductive Property (A : Type) : Type :=
| OwnValue (value : A)
| InheritedFunction (arity : nat)
| ThePrototype.
Arguments OwnValue {A} value.
Arguments InheritedFunction {A} arity.
Arguments ThePrototype {A}.

(** The functions of [Object.prototype] with their [length]. *)
Definition prototypeFunctions : list (string * nat) :=
  [ ("constructor", 1); ("hasOwnProperty", 1); ("isPrototypeOf", 1);
    ("propertyIsEnumerable", 1); ("toLocaleString", 0); ("toString", 0);
    ("valueOf", 0); ("__defineGetter__", 2); ("__defineSetter__", 2);
    ("__lookupGetter__", 1); ("__lookupSetter__", 1) ]%nat.

Definition inheritedProperty {A} (key : string) : option (Property A) :=
  if String.eqb key "__proto__" then Some ThePrototype
  else
    match List.find (fun entry => String.eqb key (fst entry)) prototypeFunctions with
    | Some entry => Some (InheritedFunction (snd entry))
    | None => None
    end.

(** [object[key]], the own properties of [object] being the entries of
    the map. *)
Definition getProperty {A} (object : gmap string A) (key : string)
    : option (Property A) :=
  match object !! key with
  | Some value => Some (OwnValue value)
  | None => inheritedProperty key
  end.

End Js.
Import Js.

(* ================================================================== *)
(** ** src/ml/tokenizer.ts *)
(* ================================================================== *)

Module Tokenizer.

(** [interface SlidingWindow] of src/ml/types.ts. *)
Record SlidingWindow : Type := mkWindow {
  text : string;
  startIndex : Z;
  endIndex : Z
}.

(** [tokenize(text)]: lower-case, split on white space, drop the empty
    pieces. *)
Definition tokenize (text : string) : list string :=
  filter (fun token => (0 <? String.length token)%nat)
         (splitWhiteSpace (toLowerCase text) EmptyString false).

(** The [for (let i = 0; i < tokens.length; i += stride)] loop of
    [createSlidingWindows]; [windows] is the array built so far.  Each
    unit of [fuel] pays for one test of the loop condition. *)
Fixpoint windowLoop (fuel : nat) (tokens : list string)
    (windowSize stride i : Z) (windows : list SlidingWindow)
    : run (list SlidingWindow) :=
  match fuel with
  | O => Pending
  | S fuel' =>
      if (i <? Z.of_nat (length tokens))%Z then
        let windowTokens := slice tokens i (i + windowSize) in
        (* windowTokens.length < windowSize * 0.25 *)
        if (4 * Z.of_nat (length windowTokens) <? windowSize)%Z then
          Returned windows
        else
          let windows' :=
            windows ++ [ {| text := join windowTokens;
                            startIndex := i;
                            endIndex := i + Z.of_nat (length windowTokens) |} ] in
          if (Z.of_nat (length tokens) <=? i + windowSize)%Z then
            Returned windows'
          else
            windowLoop fuel' tokens windowSize stride (i + stride) windows'
      else Returned windows
  end.

(** [createSlidingWindows(text, windowSize, overlap)]. *)
Definition createSlidingWindows (fuel : nat) (text : string)
    (windowSize overlap : Z) : run (list SlidingWindow) :=
  let tokens := tokenize text in
  if (Z.of_nat (length tokens) <=? windowSize)%Z then
    Returned [ {| text := join tokens;
                  startIndex := 0;
                  endIndex := Z.of_nat (length tokens) |} ]
  else
    let stride := (windowSize - overlap)%Z in
    windowLoop fuel tokens windowSize stride 0 [].

(** [calculate75thPercentile(values)].  [sorted.length * 0.25] is exact,
    so its floor is the integer quotient by 4; the index is always
    inside [sorted], and [nan] stands for the [undefined] that an index
    outside it would read. *)
Definition calculate75thPercentile (values : list float) : float :=
  match values with
  | [] => 0%float
  | [value] => value
  | _ =>
      let sorted := sort (fun a b => (b - a)%float) values in
      let index := (length sorted / 4)%nat in
      nth index sorted nan
  end.

End Tokenizer.
Import Tokenizer.

(* ================================================================== *)
(** ** src/ml/embeddings.ts *)
(* ================================================================== *)

Module Embeddings.

(** The feature-extraction pipeline that [pipeline(...)] resolves to:
    called on a text (with mean pooling and normalisation) it settles
    with the data of the output tensor, or rejects. *)
Definition Pipeline : Type := string -> settled (list float).

(** The private fields of [class EmbeddingModelSingleton]. *)
Record EmbeddingModelSingleton : Type := mkSingleton {
  model : option Pipeline;
  isLoading : bool;
  loadError : option string
}.

(** The instance [getInstance()] creates: the field initialisers. *)
Definition newInstance : EmbeddingModelSingleton :=
  {| model := None; isLoading := false; loadError := None |}.

(** The return type of [getStatus]: ['loading' | 'ready' | 'error']. *)
Inductive Status : Type := loading | ready | error.

(** Truthiness of a [string | null]: [null] and the empty string are
    falsy. *)
Definition truthy (s : option string) : bool :=
  match s with
  | Some message => (0 <? String.length message)%nat
  | None => false
  end.

(** The loop [while (this.isLoading) await sleep(100)] of [initialize]:
    [polls] are the states of the instance that the successive wake-ups
    find. *)
Fixpoint waitWhileLoading (polls : list EmbeddingModelSingleton)
    (this : EmbeddingModelSingleton) : run unit * EmbeddingModelSingleton :=
  if isLoading this then
    match polls with
    | [] => (Pending, this)
    | seen :: later => waitWhileLoading later seen
    end
  else (Returned tt, this).

(** [initialize(progressCallback)]; [load] is how the promise of
    [pipeline('feature-extraction', ...)] settles. *)
Definition initialize (load : settled Pipeline)
    (polls : list EmbeddingModelSingleton) (this : EmbeddingModelSingleton)
    : run unit * EmbeddingModelSingleton :=
  match model this with
  | Some _ => (Returned tt, this)
  | None =>
      if isLoading this then waitWhileLoading polls this
      else
        match load with
        | Fulfilled loaded =>
            (* this.model is assigned before the warm-up inference *)
            match loaded "warmup text" with
            | Fulfilled _ =>
                (Returned tt,
                 {| model := Some loaded; isLoading := false; loadError := None |})
            | Rejected e =>
                (Thrown e,
                 {| model := Some loaded; isLoading := false;
                    loadError := Some (messageOf e) |})
            end
        | Rejected e =>
            (Thrown e,
             {| model := model this; isLoading := false;
                loadError := Some (messageOf e) |})
        end
  end.

(** [computeEmbedding(text)]. *)
Definition computeEmbedding (this : EmbeddingModelSingleton) (text : string)
    : run (list float) :=
  match model this with
  | None => Thrown (JsError "Model not initialized. Call initialize() first.")
  | Some loaded =>
      if isBlank text then
        Thrown (JsError "Cannot compute embedding for empty text")
      else
        try_catch (await (loaded text)) (fun e => Thrown e)
  end.

(** [getStatus()]. *)
Definition getStatus (this : EmbeddingModelSingleton) : Status :=
  if truthy (loadError this) then error
  else if isLoading this then loading
  else match model this with
       | Some _ => ready
       | None => loading
       end.

(** [getError()]. *)
Definition getError (this : EmbeddingModelSingleton) : option string :=
  loadError this.

(** The [for] loop of [cosineSimilarity], run over two arrays of the
    same length. *)
Fixpoint cosineSums (a b : list float) (dotProduct normA normB : float)
    : float * float * float :=
  match a, b with
  | ai :: a', bi :: b' =>
      cosineSums a' b' (dotProduct + ai * bi) (normA + ai * ai) (normB + bi * bi)
  | _, _ => (dotProduct, normA, normB)
  end.

(** [cosineSimilarity(a, b)] on two [Float32Array]s, read as the
    binary64 values of their elements. *)
Definition cosineSimilarity (a b : list float) : run float :=
  if negb (length a =? length b)%nat then
    Thrown (JsError "Embeddings must have the same dimension")
  else
    let '(dotProduct, normA, normB) := cosineSums a b 0 0 0 in
    let denominator := (PrimFloat.sqrt normA * PrimFloat.sqrt normB)%float in
    if PrimFloat.eqb denominator 0 then Returned 0%float
    else Returned (Math_max 0 (Math_min 1 (dotProduct / denominator))).

End Embeddings.
Import Embeddings.

(* ================================================================== *)
(** ** src/background.ts: the ML part *)
(* ================================================================== *)

Module Background.

(** [type MLModelStatus = null | 'loading' | 'ready' | 'error']. *)
Inductive MLModelStatus : Type :=
| StatusNull | StatusLoading | StatusReady | StatusError.

Definition isReady (status : MLModelStatus) : bool :=
  match status with StatusReady => true | _ => false end.

(** [interface SimilarityResult]. *)
Record SimilarityResult : Type := mkResult {
  blockedSimilarity : float;
  allowedSimilarity : float;
  shouldBlock : bool
}.

(** The module-level variables of the ML part, with the singleton
    imported from src/ml/embeddings.ts.  The own properties of the plain
    object [keywordEmbeddingCache] are the entries of the map; the code
    reads it with [keywordEmbeddingCache[keyword]], which also finds the
    properties every object inherits ([getProperty]). *)
Record State : Type := mkState {
  keywordEmbeddingCache : gmap string (list float);
  mlModelStatus : MLModelStatus;
  mlModelError : option string;
  embeddingModel : EmbeddingModelSingleton
}.

(** What a call meets outside the module: how the model load settles,
    what the polling loops observe, and whether the call of
    [chrome.storage.sync.get] throws ([None] when it registers its
    callback and returns). *)
Record Environment : Type := mkEnvironment {
  pipelineLoad : settled Pipeline;
  providerPolls : list EmbeddingModelSingleton;
  statusPolls : list State;
  storageFailure : option thrown
}.

(** [initializeMLModel()].  The status is ['loading'] while the call
    waits for [embeddingModel.initialize]; the [catch] turns a failure
    of any statement of the [try] into the ['error'] status.  The
    callback given to [chrome.storage.sync.get] precomputes the default
    keywords in a task of its own, after this call has completed. *)
Definition initializeMLModel (env : Environment) (s : State) : run unit * State :=
  let '(outcome, provider) :=
    initialize (pipelineLoad env) (providerPolls env) (embeddingModel s) in
  let failed (e : thrown) :=
    {| keywordEmbeddingCache := keywordEmbeddingCache s;
       mlModelStatus := StatusError;
       mlModelError := Some (messageOf e);
       embeddingModel := provider |} in
  match outcome with
  | Returned _ =>
      match storageFailure env with
      | None =>
          (Returned tt,
           {| keywordEmbeddingCache := keywordEmbeddingCache s;
              mlModelStatus := StatusReady;
              mlModelError := None;
              embeddingModel := provider |})
      | Some e => (Returned tt, failed e)
      end
  | Thrown e => (Returned tt, failed e)
  | Pending =>
      (Pending,
       {| keywordEmbeddingCache := keywordEmbeddingCache s;
          mlModelStatus := StatusLoading;
          mlModelError := mlModelError s;
          embeddingModel := provider |})
  end.

(** The body of the [try] in the loop of [precomputeKeywordEmbeddings]:
    [if (!keywordEmbeddingCache[keyword]) { ... }].  Whatever the read
    finds is truthy, an inherited property included. *)
Definition cacheKeyword (provider : EmbeddingModelSingleton)
    (cache : gmap string (list float)) (keyword : string)
    : run (gmap string (list float)) :=
  match getProperty cache keyword with
  | Some _ => Returned cache
  | None =>
      bind (computeEmbedding provider keyword)
           (fun embedding => Returned (<[keyword := embedding]> cache))
  end.

(** [for (const keyword of keywords) { try { ... } catch { log } }]. *)
Fixpoint precomputeLoop (provider : EmbeddingModelSingleton)
    (keywords : list string) (cache : gmap string (list float))
    : run (gmap string (list float)) :=
  match keywords with
  | [] => Returned cache
  | keyword :: rest =>
      bind (try_catch (cacheKeyword provider cache keyword)
                      (fun _ => Returned cache))
           (precomputeLoop provider rest)
  end.

(** [precomputeKeywordEmbeddings(keywords)]. *)
Definition precomputeKeywordEmbeddings (keywords : list string) (s : State)
    : run unit * State :=
  if negb (isReady (mlModelStatus s)) then (Returned tt, s)
  else
    match precomputeLoop (embeddingModel s) keywords (keywordEmbeddingCache s) with
    | Returned cache =>
        (Returned tt,
         {| keywordEmbeddingCache := cache;
            mlModelStatus := mlModelStatus s;
            mlModelError := mlModelError s;
            embeddingModel := embeddingModel s |})
    | Thrown e => (Thrown e, s)
    | Pending => (Pending, s)
    end.

(** The loop [while (mlModelStatus === 'loading') await sleep(100)] of
    [computePageSimilarity]. *)
Fixpoint waitForModel (polls : list State) (s : State) : run unit * State :=
  match mlModelStatus s with
  | StatusLoading =>
      match polls with
      | [] => (Pending, s)
      | seen :: later => waitForModel later seen
      end
  | _ => (Returned tt, s)
  end.

(** [cosineSimilarity(pageEmbedding, keywordEmbedding)] on what the read
    of the cache found.  A function has a [length] and no elements: each
    [b[i]] is [undefined], which the arithmetic of the loop reads as
    NaN, so the call is the one on an array of [length] NaNs.  The
    prototype has no [length], so [a.length !== b.length] holds and the
    call throws. *)
Definition similarityTo (pageEmbedding : list float)
    (keywordEmbedding : Property (list float)) : run float :=
  match keywordEmbedding with
  | OwnValue embedding => cosineSimilarity pageEmbedding embedding
  | InheritedFunction arity =>
      cosineSimilarity pageEmbedding (List.repeat nan arity)
  | ThePrototype => Thrown (JsError "Embeddings must have the same dimension")
  end.

(** The two inner loops of [computePageSimilarity]: the largest
    similarity of the page embedding to what
    [keywordEmbeddingCache[keyword]] finds for the keywords, starting
    from [maxSim]. *)
Fixpoint maxSimilarity (cache : gmap string (list float))
    (pageEmbedding : list float) (keywords : list string) (maxSim : float)
    : run float :=
  match keywords with
  | [] => Returned maxSim
  | keyword :: rest =>
      match getProperty cache keyword with
      | Some keywordEmbedding =>
          bind (similarityTo pageEmbedding keywordEmbedding)
               (fun similarity =>
                  maxSimilarity cache pageEmbedding rest (Math_max maxSim similarity))
      | None => maxSimilarity cache pageEmbedding rest maxSim
      end
  end.

(** What one turn of the window loop computes before its exit test: the
    embedding of the window, then its blocked score, then its allowed
    score.  (The source pushes the blocked score before it computes the
    allowed one; the arrays are local to the call and are dropped when a
    step throws, so the two pushes are made together in [processWindows].) *)
Definition windowScores (provider : EmbeddingModelSingleton)
    (cache : gmap string (list float))
    (blockedKeywords allowedKeywords : list string) (window : SlidingWindow)
    : run (float * float) :=
  bind (computeEmbedding provider (text window)) (fun pageEmbedding =>
  bind (maxSimilarity cache pageEmbedding blockedKeywords 0) (fun maxBlockedSim =>
  bind (maxSimilarity cache pageEmbedding allowedKeywords 0) (fun maxAllowedSim =>
  Returned (maxBlockedSim, maxAllowedSim)))).

(** [maxBlockedSim > 0.85 &&
     blockedSimilarities.length >= Math.ceil(windows.length * 0.5)];
    [processed] is the length of [blockedSimilarities] after the push
    and [total] is [windows.length].  The product by [0.5] is exact, so
    its ceiling is the integer quotient of [total + 1] by 2. *)
Definition earlyExit (maxBlockedSim : float) (processed total : nat) : bool :=
  PrimFloat.ltb 0.85 maxBlockedSim && ((total + 1) / 2 <=? processed)%nat.

(** [for (const window of windows) { ... }].  Besides the two score
    arrays the embedding returns the texts for which
    [embeddingModel.computeEmbedding] was called, in order. *)
Fixpoint processWindows (provider : EmbeddingModelSingleton)
    (cache : gmap string (list float))
    (blockedKeywords allowedKeywords : list string) (total : nat)
    (windows : list SlidingWindow)
    (blockedSimilarities allowedSimilarities : list float)
    (embedded : list string)
    : run (list float * list float) * list string :=
  match windows with
  | [] => (Returned (blockedSimilarities, allowedSimilarities), embedded)
  | window :: rest =>
      let embedded' := embedded ++ [text window] in
      match windowScores provider cache blockedKeywords allowedKeywords window with
      | Returned (maxBlockedSim, maxAllowedSim) =>
          let blockedSimilarities' := blockedSimilarities ++ [maxBlockedSim] in
          let allowedSimilarities' := allowedSimilarities ++ [maxAllowedSim] in
          if earlyExit maxBlockedSim (length blockedSimilarities') total then
            (Returned (blockedSimilarities', allowedSimilarities'), embedded')
          else
            processWindows provider cache blockedKeywords allowedKeywords total
              rest blockedSimilarities' allowedSimilarities' embedded'
      | Thrown e => (Thrown e, embedded')
      | Pending => (Pending, embedded')
      end
  end.

Definition BLOCK_THRESHOLD : float := 0.30%float.
Definition ALLOW_THRESHOLD : float := 0.55%float.

(** [blockedSimilarity > BLOCK_THRESHOLD &&
     allowedSimilarity < ALLOW_THRESHOLD]. *)
Definition decideShouldBlock (blocked allowed : float) : bool :=
  PrimFloat.ltb BLOCK_THRESHOLD blocked && PrimFloat.ltb allowed ALLOW_THRESHOLD.

(** The result both fall-backs of [computePageSimilarity] return. *)
Definition neutral : SimilarityResult :=
  {| blockedSimilarity := 0; allowedSimilarity := 0; shouldBlock := false |}.

(** The body of the [try] block of [computePageSimilarity].  With a
    window of 512 and an overlap of 128 the loop of
    [createSlidingWindows] tests its condition at most once per token,
    which is the fuel it is given here. *)
Definition aggregate (provider : EmbeddingModelSingleton)
    (cache : gmap string (list float)) (text : string)
    (blockedKeywords allowedKeywords : list string) : run SimilarityResult :=
  bind (createSlidingWindows (S (length (tokenize text))) text 512 128)
       (fun windows =>
  bind (fst (processWindows provider cache blockedKeywords allowedKeywords
               (length windows) windows [] [] []))
       (fun '(blockedSimilarities, allowedSimilarities) =>
          let blocked := calculate75thPercentile blockedSimilarities in
          let allowed := calculate75thPercentile allowedSimilarities in
          Returned {| blockedSimilarity := blocked;
                      allowedSimilarity := allowed;
                      shouldBlock := decideShouldBlock blocked allowed |})).

(** The first statement of [computePageSimilarity]: initialise when the
    status is [null] or ['error'], wait when it is ['loading']. *)
Definition ensureModel (env : Environment) (s : State) : run unit * State :=
  match mlModelStatus s with
  | StatusNull | StatusError => initializeMLModel env s
  | StatusLoading => waitForModel (statusPolls env) s
  | StatusReady => (Returned tt, s)
  end.

(** [computePageSimilarity(text, blockedKeywords, allowedKeywords)]. *)
Definition computePageSimilarity (env : Environment)
    (text : string) (blockedKeywords allowedKeywords : list string)
    (s : State) : run SimilarityResult * State :=
  let '(outcome, s') := ensureModel env s in
  match outcome with
  | Returned _ =>
      if negb (isReady (mlModelStatus s')) then (Returned neutral, s')
      else
        (try_catch
           (aggregate (embeddingModel s') (keywordEmbeddingCache s')
              text blockedKeywords allowedKeywords)
           (fun _ => Returned neutral),
         s')
  | Thrown e => (Thrown e, s')
  | Pending => (Pending, s')
  end.

End Background.
Import Background.

(* ================================================================== *)
(** ** String built-ins of the page text and of the site lists *)
(* ================================================================== *)

Module JsString.

(** [s.startsWith(searchString)]. *)
Fixpoint startsWith (s searchString : string) : bool :=
  match searchString, s with
  | EmptyString, _ => true
  | String c searchRest, String d rest =>
      if Ascii.eqb c d then startsWith rest searchRest else false
  | String _ _, EmptyString => false
  end.

(** [s.includes(searchString)]: [searchString] occurs in [s], at the
    start of [s] or further on. *)
Fixpoint includes (s searchString : string) : bool :=
  if startsWith s searchString then true
  else
    match s with
    | EmptyString => false
    | String _ rest => includes rest searchString
    end.

(** [s.slice(start, end)] for integer arguments: the code units that
    [Array.prototype.slice] would keep. *)
Definition sliceString (s : string) (start stop : Z) : string :=
  string_of_list_ascii (slice (list_ascii_of_string s) start stop).

(** [array.includes(x)] on an array of strings. *)
Definition arrayIncludes (array : list string) (x : string) : bool :=
  existsb (String.eqb x) array.

(** Truthiness of [message.site]: [undefined] and the empty string are
    falsy. *)
Definition truthySite (site : option string) : bool :=
  match site with
  | Some name => (0 <? String.length name)%nat
  | None => false
  end.

End JsString.
Import JsString.

(* ================================================================== *)
(** ** src/ml/tokenizer.ts: the page text *)
(* ================================================================== *)

Module Dom.

(** What [extractVisibleText] reads of the global [document]: the
    [innerText] of its body, [None] when the document has no body. *)
Record Document : Type := mkDocument {
  bodyInnerText : option string
}.

(** [extractVisibleText(maxLength)]; [document] is [None] where the
    global does not exist ([typeof document === 'undefined']). *)
Definition extractVisibleText (document : option Document) (maxLength : Z)
    : string :=
  match document with
  | None => ""
  | Some page =>
      (* document.body?.innerText || '' *)
      let bodyText :=
        match bodyInnerText page with
        | Some innerText => innerText
        | None => ""
        end in
      sliceString bodyText 0 maxLength
  end.

End Dom.
Import Dom.

(* ================================================================== *)
(** ** src/background.ts: the focus timer, the site lists, the messages *)
(* ================================================================== *)

(** The timer counts whole seconds and [Date.now()] is a whole number of
    milliseconds, so the fields of the timer are integers; on them
    [Math.floor(x / 1000)] is the quotient [x / 1000] of [Z]. *)

Module Focus.

(** [interface TimerState]. *)
Record TimerState : Type := mkTimerState {
  isActive : bool;
  timeLeft : Z;
  initialTime : Z;
  breakMode : bool;
  breakTimeLeft : Z;
  breakInitialTime : Z;
  lastUpdateTime : Z
}.

Inductive BlockMode : Type := whitelist | blacklist.

(** [interface BlockingState]. *)
Record BlockingState : Type := mkBlockingState {
  isBlocked : bool;
  blockedSites : list string;
  blockMode : BlockMode;
  whitelistSites : list string
}.

(** [site => hostname.includes(site) || site.includes(hostname)]. *)
Definition matchesSite (hostname site : string) : bool :=
  includes hostname site || includes site hostname.

(** [shouldBlockSite(url)]; [hostnameOf url] is [new URL(url).hostname],
    which throws for a string that is not a URL. *)
Definition shouldBlockSite (hostnameOf : string -> run string)
    (currentState : TimerState) (blockingState : BlockingState)
    (url : string) : run bool :=
  if negb (isActive currentState) || breakMode currentState then
    Returned false
  else
    bind (hostnameOf url) (fun hostname =>
      match blockMode blockingState with
      | whitelist =>
          Returned (negb (existsb (matchesSite hostname)
                                  (whitelistSites blockingState)))
      | blacklist =>
          Returned (existsb (matchesSite hostname)
                            (blockedSites blockingState))
      end).

(** How a firing of the interval of [updateTimer] ends: it returns
    before a full second has passed, it saves and broadcasts the state,
    it also clears the interval, or it leaves the end of the focus
    session to the callback of [chrome.storage.sync.get]. *)
Inductive TickOutcome : Type :=
| TooEarly | Saved | Stopped | AskSettings.

(** The callback that [updateTimer] gives to [setInterval], fired at
    time [now]. *)
Definition tick (now : Z) (s : TimerState) : TimerState * TickOutcome :=
  let elapsedSeconds := ((now - lastUpdateTime s) / 1000)%Z in
  if (elapsedSeconds <=? 0)%Z then (s, TooEarly)
  else if breakMode s then
    let s1 :=
      if (0 <? breakTimeLeft s)%Z then
        {| isActive := isActive s;
           timeLeft := timeLeft s;
           initialTime := initialTime s;
           breakMode := breakMode s;
           breakTimeLeft := Z.max 0 (breakTimeLeft s - elapsedSeconds);
           breakInitialTime := breakInitialTime s;
           lastUpdateTime := now |}
      else s in
    if (breakTimeLeft s1 <=? 0)%Z then
      ({| isActive := false;
          timeLeft := initialTime s1;
          initialTime := initialTime s1;
          breakMode := false;
          breakTimeLeft := breakInitialTime s1;
          breakInitialTime := breakInitialTime s1;
          lastUpdateTime := now |}, Stopped)
    else (s1, Saved)
  else
    let s1 :=
      if (0 <? timeLeft s)%Z then
        {| isActive := isActive s;
           timeLeft := Z.max 0 (timeLeft s - elapsedSeconds);
           initialTime := initialTime s;
           breakMode := breakMode s;
           breakTimeLeft := breakTimeLeft s;
           breakInitialTime := breakInitialTime s;
           lastUpdateTime := now |}
      else s in
    if (timeLeft s1 <=? 0)%Z then (s1, AskSettings)
    else (s1, Saved).

(** The settings object of [chrome.storage.sync]; a missing
    [autoStartBreaks] is falsy. *)
Record Settings : Type := mkSettings {
  autoStartBreaks : bool
}.

(** The callback that ends a focus session, run at time [now] with the
    stored settings ([None] when there are none: the source then takes
    [{ autoStartBreaks: true }]).  The boolean tells whether the
    interval is cleared. *)
Definition focusFinished (stored : option Settings) (now : Z)
    (s : TimerState) : TimerState * bool :=
  let settings :=
    match stored with
    | Some settings => settings
    | None => {| autoStartBreaks := true |}
    end in
  if autoStartBreaks settings && (0 <? breakInitialTime s)%Z then
    ({| isActive := isActive s;
        timeLeft := timeLeft s;
        initialTime := initialTime s;
        breakMode := true;
        breakTimeLeft := breakInitialTime s;
        breakInitialTime := breakInitialTime s;
        lastUpdateTime := now |}, false)
  else
    ({| isActive := false;
        timeLeft := initialTime s;
        initialTime := initialTime s;
        breakMode := breakMode s;
        breakTimeLeft := breakTimeLeft s;
        breakInitialTime := breakInitialTime s;
        lastUpdateTime := now |}, true).

(** The interval fired at each of the times [nows], in order. *)
Fixpoint ticks (nows : list Z) (s : TimerState) : TimerState :=
  match nows with
  | [] => s
  | now :: later => ticks later (fst (tick now s))
  end.

(** The module-level variables of the background script. *)
Record Extension : Type := mkExtension {
  ml : State;
  currentState : TimerState;
  blockingState : BlockingState
}.

(** The messages the listener of [chrome.runtime.onMessage] handles
    without leaving the module.  [UPDATE_TIMER_STATE],
    [UPDATE_BLOCKING_STATE] (which merge an arbitrary object into the
    state) and [OPEN_OPTIONS_PAGE] are not embedded.  [site] is
    [message.site], [None] when the message has none. *)
Inductive Message : Type :=
| GET_TIMER_STATE
| RESET_TIMER
| GET_BLOCKING_STATE
| TOGGLE_BLOCKING
| ADD_BLOCKED_SITE (site : option string)
| REMOVE_BLOCKED_SITE (site : option string)
| ADD_WHITELIST_SITE (site : option string)
| REMOVE_WHITELIST_SITE (site : option string)
| CHECK_SITE_BLOCKED (url : string)
| GET_ML_STATUS
| COMPUTE_PAGE_SIMILARITY (text : string)
    (blockedKeywords allowedKeywords : list string)
| PRECOMPUTE_KEYWORD_EMBEDDINGS (keywords : list string).

(** What [sendResponse] is called with. *)
Inductive Response : Type :=
| TimerStateResponse (state : TimerState)
| BlockingStateResponse (state : BlockingState)
| Success                                   (* { success: true } *)
| Toggled (isBlocked : bool)                (* { success: true, isBlocked } *)
| ShouldBlock (shouldBlock : bool)          (* { shouldBlock } *)
| MLStatus (status : MLModelStatus) (error : option string)
| Similarity (result : SimilarityResult)
| Failure (error : thrown).                 (* { success: false, error: String(error) } *)

(** [array.push(site)] guarded by [site && !array.includes(site)]. *)
Definition addSite (site : option string) (sites : list string) : list string :=
  match site with
  | Some name =>
      if truthySite site && negb (arrayIncludes sites name) then sites ++ [name]
      else sites
  | None => sites
  end.

(** [array.filter(s => s !== site)] guarded by [site]. *)
Definition removeSite (site : option string) (sites : list string) : list string :=
  match site with
  | Some name =>
      if truthySite site then filter (fun s => negb (String.eqb s name)) sites
      else sites
  | None => sites
  end.

(** The listener of [chrome.runtime.onMessage], with the response it
    sends; the two asynchronous cases are run to their response.  [now]
    is [Date.now()].  A case that throws sends no response. *)
Definition onMessage (env : Environment) (hostnameOf : string -> run string)
    (now : Z) (message : Message) (x : Extension) : run Response * Extension :=
  match message with
  | GET_TIMER_STATE => (Returned (TimerStateResponse (currentState x)), x)
  | RESET_TIMER =>
      (Returned Success,
       {| ml := ml x;
          currentState :=
            {| isActive := false;
               timeLeft := initialTime (currentState x);
               initialTime := initialTime (currentState x);
               breakMode := false;
               breakTimeLeft := breakInitialTime (currentState x);
               breakInitialTime := breakInitialTime (currentState x);
               lastUpdateTime := now |};
          blockingState := blockingState x |})
  | GET_BLOCKING_STATE => (Returned (BlockingStateResponse (blockingState x)), x)
  | TOGGLE_BLOCKING =>
      let toggled := negb (isBlocked (blockingState x)) in
      (Returned (Toggled toggled),
       {| ml := ml x;
          currentState := currentState x;
          blockingState :=
            {| isBlocked := toggled;
               blockedSites := blockedSites (blockingState x);
               blockMode := blockMode (blockingState x);
               whitelistSites := whitelistSites (blockingState x) |} |})
  | ADD_BLOCKED_SITE site =>
      (Returned Success,
       {| ml := ml x;
          currentState := currentState x;
          blockingState :=
            {| isBlocked := isBlocked (blockingState x);
               blockedSites := addSite site (blockedSites (blockingState x));
               blockMode := blockMode (blockingState x);
               whitelistSites := whitelistSites (blockingState x) |} |})
  | REMOVE_BLOCKED_SITE site =>
      (Returned Success,
       {| ml := ml x;
          currentState := currentState x;
          blockingState :=
            {| isBlocked := isBlocked (blockingState x);
               blockedSites := removeSite site (blockedSites (blockingState x));
               blockMode := blockMode (blockingState x);
               whitelistSites := whitelistSites (blockingState x) |} |})
  | ADD_WHITELIST_SITE site =>
      (Returned Success,
       {| ml := ml x;
          currentState := currentState x;
          blockingState :=
            {| isBlocked := isBlocked (blockingState x);
               blockedSites := blockedSites (blockingState x);
               blockMode := blockMode (blockingState x);
               whitelistSites := addSite site (whitelistSites (blockingState x)) |} |})
  | REMOVE_WHITELIST_SITE site =>
      (Returned Success,
       {| ml := ml x;
          currentState := currentState x;
          blockingState :=
            {| isBlocked := isBlocked (blockingState x);
               blockedSites := blockedSites (blockingState x);
               blockMode := blockMode (blockingState x);
               whitelistSites := removeSite site (whitelistSites (blockingState x)) |} |})
  | CHECK_SITE_BLOCKED url =>
      (bind (shouldBlockSite hostnameOf (currentState x) (blockingState x) url)
            (fun shouldBlock => Returned (ShouldBlock shouldBlock)),
       x)
  | GET_ML_STATUS =>
      (Returned (MLStatus (mlModelStatus (ml x)) (mlModelError (ml x))), x)
  | COMPUTE_PAGE_SIMILARITY text blockedKeywords allowedKeywords =>
      let '(outcome, s') :=
        computePageSimilarity env text blockedKeywords allowedKeywords (ml x) in
      (try_catch (bind outcome (fun result => Returned (Similarity result)))
                 (fun _ => Returned (Similarity neutral)),
       {| ml := s';
          currentState := currentState x;
          blockingState := blockingState x |})
  | PRECOMPUTE_KEYWORD_EMBEDDINGS keywords =>
      let '(outcome, s') := precomputeKeywordEmbeddings keywords (ml x) in
      (try_catch (bind outcome (fun _ => Returned Success))
                 (fun e => Returned (Failure e)),
       {| ml := s';
          currentState := currentState x;
          blockingState := blockingState x |})
  end.

End Focus.
Import Focus.

(* ================================================================== *)
(** ** src/content.ts: the blocking overlay *)
(* ================================================================== *)

Module Content.

(** The variables of the content script that decide about the overlay,
    with the two facts it reads of the page: the host name of
    [window.location] and [document.hidden].  [blockingOverlay] tells
    whether the overlay element exists. *)
Record Page : Type := mkPage {
  timerState : TimerState;
  filterList : list string;
  hostname : string;
  hidden : bool;
  blockingOverlay : bool
}.

Definition withOverlay (overlay : bool) (page : Page) : Page :=
  {| timerState := timerState page;
     filterList := filterList page;
     hostname := hostname page;
     hidden := hidden page;
     blockingOverlay := overlay |}.

(** [createBlockingOverlay()]: nothing to do when the overlay exists. *)
Definition createBlockingOverlay (page : Page) : Page :=
  if blockingOverlay page then page else withOverlay true page.

(** [if (blockingOverlay) { blockingOverlay.remove(); blockingOverlay = null; }]. *)
Definition dropOverlay (page : Page) : Page :=
  if blockingOverlay page then withOverlay false page else page.

(** [checkAndApplyBlocking()], run to the end of its callbacks.
    [siteResponse] is the answer to [CHECK_SITE_BLOCKED] and
    [similarityResponse] the answer to [COMPUTE_PAGE_SIMILARITY];
    [None] is a callback called without a response. *)
Definition checkAndApplyBlocking (siteResponse : option bool)
    (similarityResponse : option SimilarityResult) (page : Page) : Page :=
  if negb (isActive (timerState page)) || breakMode (timerState page) then
    dropOverlay page
  else
    match siteResponse with
    | Some true => createBlockingOverlay page
    | _ =>
        let matchesFilterList :=
          existsb (matchesSite (hostname page)) (filterList page) in
        if matchesFilterList then
          match similarityResponse with
          | None => dropOverlay page
          | Some response =>
              if shouldBlock response then createBlockingOverlay page
              else dropOverlay page
          end
        else dropOverlay page
    end.

(** [shouldStopChecking()]. *)
Definition shouldStopChecking (page : Page) : bool :=
  blockingOverlay page
  || negb (isActive (timerState page))
  || breakMode (timerState page)
  || hidden page.

(** [checkAndApplyBlocking_helper()], the body of the periodic check. *)
Definition checkAndApplyBlocking_helper (siteResponse : option bool)
    (similarityResponse : option SimilarityResult) (page : Page) : Page :=
  if shouldStopChecking page then page
  else checkAndApplyBlocking siteResponse similarityResponse page.

(** The [TIMER_UPDATE] branch of the two message listeners: the new
    state replaces the old one, and the overlay goes when the timer has
    just stopped. *)
Definition onTimerUpdate (state : TimerState) (page : Page) : Page :=
  let previousTimerState := timerState page in
  let page' :=
    {| timerState := state;
       filterList := filterList page;
       hostname := hostname page;
       hidden := hidden page;
       blockingOverlay := blockingOverlay page |} in
  if isActive previousTimerState && negb (isActive state) && blockingOverlay page
  then dropOverlay page'
  else page'.

End Content.
Import Content.

(* ================================================================== *)
(** ** Vocabulary of the specification *)
(* ================================================================== *)

(** The invariant of a text window: it spans at least one token. *)
Definition validWindow (w : SlidingWindow) : Prop :=
  (startIndex w < endIndex w)%Z.

(** A window is the span of the tokens from its start to its end. *)
Definition spansTokens (tokens : list string) (w : SlidingWindow) : Prop :=
  (0 <= startIndex w)%Z /\
  (endIndex w <= Z.of_nat (length tokens))%Z /\
  text w = join (slice tokens (startIndex w) (endIndex w)).

(** Two consecutive windows share exactly [overlap] tokens: the second
    starts after the first, [overlap] tokens before the end of the first,
    and it ends after it. *)
Definition overlapBy (overlap : Z) (w1 w2 : SlidingWindow) : Prop :=
  (startIndex w1 < startIndex w2)%Z /\
  (endIndex w1 - startIndex w2)%Z = overlap /\
  (endIndex w1 < endIndex w2)%Z.

(** [tiled overlap total i ws]: the windows [ws] start at token [i], each
    window but the last is followed by one that starts [overlap] tokens
    before its end and reaches further, and the last one ends at token
    [total]. *)
Inductive tiled (overlap total : Z) : Z -> list SlidingWindow -> Prop :=
| tiled_last i w :
    startIndex w = i -> endIndex w = total -> tiled overlap total i [w]
| tiled_more i w ws :
    startIndex w = i ->
    (startIndex w < endIndex w - overlap)%Z ->
    (forall w', head ws = Some w' -> (endIndex w < endIndex w')%Z) ->
    tiled overlap total (endIndex w - overlap) ws ->
    tiled overlap total i (w :: ws).

(** The embedding the provider yields for a keyword, if it yields one. *)
Definition embeddingOf (provider : EmbeddingModelSingleton) (keyword : string)
    : option (list float) :=
  match computeEmbedding provider keyword with
  | Returned embedding => Some embedding
  | _ => None
  end.

(** A call that is not left waiting, and a call that does not throw. *)
Definition settles {A} (r : run A) : Prop :=
  match r with Pending => False | _ => True end.

Definition neverThrows {A} (r : run A) : Prop :=
  match r with Thrown _ => False | _ => True end.

(** A provider and a cache to run the aggregator on: the backend embeds
    the text "game" as (1, 0) and any other text as (0, 1); the keyword
    "gaming" is cached as (1, 0). *)
Definition demoProvider : EmbeddingModelSingleton :=
  {| model := Some (fun page =>
                Fulfilled (if String.eqb page "game" then [1; 0] else [0; 1])%float);
     isLoading := false;
     loadError := None |}.

Definition demoCache : gmap string (list float) := <["gaming" := [1; 0]%float]> ∅.

(** The rank of a binary64 value in the order of the comparisons: the
    sign class first, then the exponent, then the mantissa (both negated
    for a negative value).  The two zeros share a rank. *)
Definition rank (x : spec_float) : Z * Z * Z :=
  match x with
  | S754_infinity true => (-2, 0, 0)
  | S754_finite true m e => (-1, - e, - Zpos m)
  | S754_zero _ => (0, 0, 0)
  | S754_finite false m e => (1, e, Zpos m)
  | S754_infinity false => (2, 0, 0)
  | S754_nan => (3, 0, 0)
  end%Z.

Definition rank_lt (a b : Z * Z * Z) : Prop :=
  (a.1.1 < b.1.1 \/
   (a.1.1 = b.1.1 /\ (a.1.2 < b.1.2 \/ (a.1.2 = b.1.2 /\ a.2 < b.2))))%Z.

(** A value that is not NaN. *)
Definition is_number (x : float) : Prop := Prim2SF x <> S754_nan.

(** What [SFcompare] answers, read on the ranks. *)
Inductive compare_view (x y : spec_float) : option comparison -> Prop :=
| compare_nan : x = S754_nan \/ y = S754_nan -> compare_view x y None
| compare_lt : x <> S754_nan -> y <> S754_nan ->
    rank_lt (rank x) (rank y) -> compare_view x y (Some Lt)
| compare_eq : x <> S754_nan -> y <> S754_nan ->
    rank x = rank y -> compare_view x y (Some Eq)
| compare_gt : x <> S754_nan -> y <> S754_nan ->
    rank_lt (rank y) (rank x) -> compare_view x y (Some Gt).

Abbreviation rankOf x := (rank (Prim2SF x)).

(** [Math.max(0, Math.min(1, q))], the last expression of
    [cosineSimilarity]. *)
Definition clamp (q : float) : float := Math_max 0 (Math_min 1 q).

(** Sorted from the largest to the smallest. *)
Definition descending (values : list float) : Prop :=
  StronglySorted (fun x y => PrimFloat.leb y x = true) values.

(** The comparator [(a, b) => b - a] of [calculate75thPercentile]. *)
Definition byDescending : float -> float -> float := fun a b => (b - a)%float.

(** A key that names a property every object inherits: a read of the
    cache finds something under it although no embedding is stored. *)
Definition inheritedName (key : string) : bool :=
  match @inheritedProperty (list float) key with
  | Some _ => true
  | None => false
  end.

(** *** Vocabulary of the further properties *)

(** A token: not empty, free of white space, and in lower case. *)
Definition tokenChar (c : ascii) : Prop :=
  isWhiteSpace c = false /\ toLowerCaseChar c = c.

Definition isToken (token : string) : Prop :=
  token <> EmptyString /\ Forall tokenChar (list_ascii_of_string token).

(** A score in the unit range, or NaN. *)
Definition unitScore (x : float) : Prop :=
  isNaN x = true \/ (PrimFloat.leb 0 x = true /\ PrimFloat.leb x 1 = true).

(** [sub] occurs in [s]. *)
Definition occursIn (sub s : string) : Prop :=
  exists before after, s = (before ++ sub ++ after)%string.

(** A host name and a list entry match when one occurs in the other. *)
Definition related (hostname site : string) : Prop :=
  occursIn site hostname \/ occursIn hostname site.

(** The site lists hold no entry twice and no empty entry. *)
Definition tidy (state : BlockingState) : Prop :=
  NoDup (blockedSites state) /\ NoDup (whitelistSites state) /\
  ~ In EmptyString (blockedSites state) /\
  ~ In EmptyString (whitelistSites state).


(** What the callbacks of the content script receive from the
    background script: a response, or nothing when the listener threw
    or has not answered. *)
Definition answer {A} (reply : run Response) (read : Response -> option A)
    : option A :=
  match reply with
  | Returned response => read response
  | _ => None
  end.

Definition readShouldBlock (response : Response) : option bool :=
  match response with
  | ShouldBlock shouldBlock => Some shouldBlock
  | _ => None
  end.

Definition readSimilarity (response : Response) : option SimilarityResult :=
  match response with
  | Similarity result => Some result
  | _ => None
  end.

(** The content script and the background script put together: one
    run of [checkAndApplyBlocking] on a page, the two messages it sends
    being answered by the listener [onMessage] of the background script
    in state [x].  [url] is [window.location.href] and [bodyText] the
    text of the page. *)
Definition checkPage (env : Environment) (hostnameOf : string -> run string)
    (now : Z) (url bodyText : string) (blockedKeywords allowedKeywords : list string)
    (x : Extension) (page : Page) : Page :=
  let site := fst (onMessage env hostnameOf now (CHECK_SITE_BLOCKED url) x) in
  let similarity :=
    fst (onMessage env hostnameOf now
           (COMPUTE_PAGE_SIMILARITY bodyText blockedKeywords allowedKeywords) x) in
  checkAndApplyBlocking (answer site readShouldBlock)
                        (answer similarity readSimilarity) page.

(* ================================================================== *)
(** ** Binary64 arithmetic: order, rounding and the sign of a difference *)
(* ================================================================== *)

Section Binary64.
Local Open Scope Z_scope.

Lemma digits2_pos_size p : digits2_pos p = Pos.size p.
Proof. induction p; simpl; congruence. Qed.

Lemma digits2_pos_bounds p :
  2 ^ (Zpos (digits2_pos p) - 1) <= Zpos p < 2 ^ Zpos (digits2_pos p).
Proof.
  rewrite digits2_pos_size.
  pose proof (Pos.size_gt p) as Hgt. pose proof (Pos.size_le p) as Hle.
  apply Pos2Z.pos_lt_pos in Hgt. apply Pos2Z.pos_le_pos in Hle.
  rewrite Pos2Z.inj_pow in Hgt, Hle.
  change (Z.pos p~0) with (2 * Z.pos p) in Hle.
  assert (Hpow : 2 ^ Z.pos (Pos.size p) = 2 * 2 ^ (Z.pos (Pos.size p) - 1)).
  { rewrite <- Z.pow_succ_r by lia. f_equal. lia. }
  lia.
Qed.

Lemma shr_1_m mrs : 0 <= shr_m mrs -> shr_m (shr_1 mrs) = shr_m mrs / 2.
Proof.
  destruct mrs as [m r s]. simpl. intros Hm.
  destruct m as [|p|p]; [reflexivity| |lia].
  destruct p as [p|p|]; simpl.
  - rewrite Pos2Z.inj_xI. apply Z.div_unique with (r := 1); lia.
  - change (Z.pos p~0) with (2 * Z.pos p). apply Z.div_unique with (r := 0); lia.
  - reflexivity.
Qed.

Lemma iter_shr_1_m k mrs :
  0 <= shr_m mrs -> shr_m (SpecFloat.iter_pos shr_1 k mrs) = shr_m mrs / 2 ^ Zpos k.
Proof.
  revert mrs. induction k as [k IH|k IH|]; intros mrs Hm; cbn [SpecFloat.iter_pos].
  - assert (H1 : 0 <= shr_m (shr_1 mrs))
      by (rewrite shr_1_m by assumption; apply Z.div_pos; lia).
    assert (H2 : 0 <= shr_m (SpecFloat.iter_pos shr_1 k (shr_1 mrs)))
      by (rewrite IH by assumption; apply Z.div_pos; lia).
    rewrite IH, IH, shr_1_m by assumption.
    rewrite !Z.div_div by lia.
    f_equal. rewrite Pos2Z.inj_xI.
    replace (2 * Zpos k + 1) with (1 + Zpos k + Zpos k) by lia.
    rewrite !Z.pow_add_r by lia. change (2 ^ 1) with 2. ring.
  - assert (H2 : 0 <= shr_m (SpecFloat.iter_pos shr_1 k mrs))
      by (rewrite IH by assumption; apply Z.div_pos; lia).
    rewrite IH, IH by assumption.
    rewrite !Z.div_div by lia.
    f_equal. change (Z.pos k~0) with (2 * Z.pos k).
    replace (2 * Zpos k) with (Zpos k + Zpos k) by lia.
    rewrite !Z.pow_add_r by lia. ring.
  - rewrite shr_1_m by assumption. reflexivity.
Qed.

Lemma shr_record_of_loc_m m l : shr_m (shr_record_of_loc m l) = m.
Proof. destruct l as [|[]]; reflexivity. Qed.

(** Above the smallest exponent, shifting a positive mantissa to its
    canonical exponent keeps it positive. *)
Lemma shr_fexp_positive p e l :
  SpecFloat.emin prec emax <= e ->
  0 < shr_m (fst (shr_fexp prec emax (Zpos p) e l)) /\
  SpecFloat.emin prec emax <= snd (shr_fexp prec emax (Zpos p) e l).
Proof.
  intros He. unfold shr_fexp, shr. simpl Zdigits2.
  pose proof (digits2_pos_bounds p) as Hd.
  set (d := Zpos (digits2_pos p)) in *.
  destruct (fexp prec emax (d + e) - e) as [|n|n] eqn:Hn; simpl fst; simpl snd.
  - rewrite shr_record_of_loc_m. lia.
  - rewrite iter_shr_1_m by (rewrite shr_record_of_loc_m; lia).
    rewrite shr_record_of_loc_m.
    unfold fexp, SpecFloat.emin, prec, emax in *.
    assert (Hnd : Zpos n = d - 53) by lia.
    split; [|lia].
    apply Z.div_str_pos. split; [apply Z.pow_pos_nonneg; lia|].
    transitivity (2 ^ (d - 1)); [|lia].
    apply Z.pow_le_mono_r; lia.
  - rewrite shr_record_of_loc_m. lia.
Qed.

Lemma round_nearest_even_ge m l : m <= round_nearest_even m l.
Proof.
  destruct l as [|[]]; simpl; try lia. destruct (Z.even m); lia.
Qed.

Lemma binary_round_aux_positive p e l :
  SpecFloat.emin prec emax <= e ->
  SFltb (S754_zero false) (binary_round_aux prec emax false (Zpos p) e l) = true.
Proof.
  intros He. unfold binary_round_aux.
  destruct (shr_fexp_positive p e l He) as [Hm He'].
  destruct (shr_fexp prec emax (Zpos p) e l) as [mrs' e'] eqn:H1. simpl in Hm, He'.
  pose proof (round_nearest_even_ge (shr_m mrs') (loc_of_shr_record mrs')) as Hr.
  destruct (round_nearest_even (shr_m mrs') (loc_of_shr_record mrs')) as [|q|q] eqn:Hq;
    try lia.
  destruct (shr_fexp_positive q e' loc_Exact He') as [Hm' _].
  destruct (shr_fexp prec emax (Zpos q) e' loc_Exact) as [mrs'' e''] eqn:H2. simpl in Hm'.
  destruct (shr_m mrs'') as [|m|m]; try lia.
  destruct (Z.leb e'' (emax - prec)); reflexivity.
Qed.

Lemma binary_round_aux_negative m e l :
  SFltb (S754_zero false) (binary_round_aux prec emax true m e l) = false.
Proof.
  unfold binary_round_aux.
  destruct (shr_fexp prec emax m e l) as [mrs' e'].
  destruct (shr_fexp prec emax _ e' loc_Exact) as [mrs'' e''].
  destruct (shr_m mrs'') as [|q|q]; try reflexivity.
  destruct (Z.leb e'' (emax - prec)); reflexivity.
Qed.

Lemma shl_align_exponent m e e' :
  snd (shl_align m e e') = Z.min e e'.
Proof.
  unfold shl_align. destruct (e' - e) eqn:H; simpl; lia.
Qed.

Lemma iter_xO m d : Zpos (Pos.iter xO m d) = Zpos m * 2 ^ Zpos d.
Proof.
  induction d as [|d IH] using Pos.peano_ind.
  - simpl. lia.
  - rewrite Pos.iter_succ, Pos2Z.inj_xO, IH, Pos2Z.inj_succ, Z.pow_succ_r by lia. lia.
Qed.

Lemma shl_align_mantissa m e e' :
  e' <= e -> Zpos (fst (shl_align m e e')) = Zpos m * 2 ^ (e - e').
Proof.
  intros Hle. unfold shl_align. destruct (e' - e) as [|d|d] eqn:H; simpl fst.
  - replace (e - e') with 0 by lia. lia.
  - lia.
  - rewrite iter_xO. f_equal. f_equal. lia.
Qed.

(** The sign of a rounded difference: the rounding of a positive integer
    multiple of a power of two above the smallest exponent is positive,
    that of a negative one is not. *)
Lemma binary_normalize_sign d e :
  SpecFloat.emin prec emax <= e ->
  SFltb (S754_zero false) (binary_normalize prec emax d e false) = (0 <? d).
Proof.
  intros He. destruct d as [|p|p]; simpl.
  - reflexivity.
  - unfold binary_round.
    pose proof (shl_align_exponent p e (fexp prec emax (Zpos (digits2_pos p) + e))) as Hexp.
    destruct (shl_align p e _) as [mz ez]. simpl in Hexp.
    apply binary_round_aux_positive.
    unfold fexp, SpecFloat.emin, prec, emax in *. lia.
  - unfold binary_round.
    destruct (shl_align p e _) as [mz ez].
    apply binary_round_aux_negative.
Qed.

Lemma bounded_mantissa m e :
  bounded prec emax m e = true ->
  SpecFloat.emin prec emax <= e /\ Zpos m < 2 ^ 53 /\
  (SpecFloat.emin prec emax < e -> 2 ^ 52 <= Zpos m).
Proof.
  unfold bounded, canonical_mantissa. intros H.
  apply andb_prop in H. destruct H as [H _]. apply Z.eqb_eq in H.
  pose proof (digits2_pos_bounds m) as Hd.
  set (d := Zpos (digits2_pos m)) in *.
  unfold fexp, SpecFloat.emin, prec, emax in *.
  assert (Hd53 : d <= 53) by lia.
  split; [lia|]. split.
  - apply Z.lt_le_trans with (2 ^ d); [lia|]. apply Z.pow_le_mono_r; lia.
  - intros He. assert (d = 53) by lia. subst d. replace (52) with (53 - 1) by lia.
    rewrite <- H0. lia.
Qed.

Lemma scaled_mantissa_lt mx my k :
  Zpos mx < 2 ^ 53 -> 2 ^ 52 <= Zpos my -> 1 <= k ->
  Zpos mx * 2 ^ 0 < Zpos my * 2 ^ k.
Proof.
  intros Hx Hy Hk.
  assert (H2 : 2 ^ 1 <= 2 ^ k) by (apply Z.pow_le_mono_r; lia).
  change (2 ^ 1) with 2 in H2. change (2 ^ 0) with 1.
  change (2 ^ 53) with (2 * 2 ^ 52) in Hx.
  nia.
Qed.

(** The difference of two canonical finite values, computed on their
    aligned mantissas, is positive exactly when the first is smaller. *)
Lemma aligned_difference_sign sx mx ex sy my ey :
  bounded prec emax mx ex = true -> bounded prec emax my ey = true ->
  let ez := Z.min ey ex in
  (0 <? cond_Zopp sy (Zpos (fst (shl_align my ey ez))) -
        cond_Zopp sx (Zpos (fst (shl_align mx ex ez)))) =
  SFltb (S754_finite sx mx ex) (S754_finite sy my ey).
Proof.
  intros Hx Hy ez.
  destruct (bounded_mantissa _ _ Hx) as (Hex & Hmx & Hnx).
  destruct (bounded_mantissa _ _ Hy) as (Hey & Hmy & Hny).
  rewrite !shl_align_mantissa by (subst ez; lia).
  assert (Hlow : ex < ey -> Zpos mx * 2 ^ (ex - ez) < Zpos my * 2 ^ (ey - ez)).
  { intros Hlt. replace (ex - ez) with 0 by (subst ez; lia).
    apply scaled_mantissa_lt; [assumption|apply Hny; lia|subst ez; lia]. }
  assert (Hhigh : ey < ex -> Zpos my * 2 ^ (ey - ez) < Zpos mx * 2 ^ (ex - ez)).
  { intros Hlt. replace (ey - ez) with 0 by (subst ez; lia).
    apply scaled_mantissa_lt; [assumption|apply Hnx; lia|subst ez; lia]. }
  assert (Hsame : ex = ey ->
            Zpos mx * 2 ^ (ex - ez) = Zpos mx /\ Zpos my * 2 ^ (ey - ez) = Zpos my).
  { intros ->. replace (ey - ez) with 0 by (subst ez; lia). simpl. lia. }
  assert (Hpx : 0 < Zpos mx * 2 ^ (ex - ez))
    by (apply Z.mul_pos_pos; [lia|apply Z.pow_pos_nonneg; subst ez; lia]).
  assert (Hpy : 0 < Zpos my * 2 ^ (ey - ez))
    by (apply Z.mul_pos_pos; [lia|apply Z.pow_pos_nonneg; subst ez; lia]).
  set (MX := Zpos mx * 2 ^ (ex - ez)) in *.
  set (MY := Zpos my * 2 ^ (ey - ez)) in *.
  unfold SFltb, SFcompare, cond_Zopp.
  change (Pos.compare_cont Eq mx my) with (Pos.compare mx my).
  destruct sx, sy;
    match goal with |- (0 <? ?D) = _ => destruct (Z.ltb_spec 0 D) end;
    try (reflexivity || (exfalso; lia));
    (destruct (Z.compare_spec ex ey) as [Heq|Hlt|Hgt];
     [destruct (Hsame Heq) as [H1 H2];
      destruct (Pos.compare_spec mx my); subst
     |specialize (Hlow Hlt)|specialize (Hhigh Hgt)];
     try reflexivity; exfalso; lia).
Qed.

(** In binary64 the sign of a difference tells the order of its
    operands: [y - x] is positive exactly when [x < y]. *)
Lemma SFsub_positive x y :
  valid_binary x = true -> valid_binary y = true ->
  SFltb (S754_zero false) (SFsub prec emax y x) = SFltb x y.
Proof.
  intros Hx Hy.
  destruct x as [sx|sx| |sx mx ex], y as [sy|sy| |sy my ey]; simpl;
    try reflexivity; try (destruct sx; reflexivity); try (destruct sy; reflexivity);
    try (destruct sx, sy; reflexivity).
  simpl in Hx, Hy.
  rewrite binary_normalize_sign.
  - apply aligned_difference_sign; assumption.
  - destruct (bounded_mantissa _ _ Hx) as (Hex & _).
    destruct (bounded_mantissa _ _ Hy) as (Hey & _). lia.
Qed.

End Binary64.

(** For all binary64 values, NaN included: [y - x > 0] exactly when
    [x < y].  The comparator [(a, b) => b - a] is therefore consistent on
    numbers and orders them from the largest to the smallest. *)
Lemma sub_positive (x y : float) :
  PrimFloat.ltb 0 (y - x) = PrimFloat.ltb x y.
Proof.
  rewrite !FloatAxioms.ltb_spec, sub_spec.
  change (Prim2SF 0) with (S754_zero false).
  apply SFsub_positive; apply Prim2SF_valid.
Qed.

(** The comparisons of binary64 values are those of their ranks. *)
Lemma SFcompare_view x y : compare_view x y (SFcompare x y).
Proof.
  destruct x as [sx|sx| |sx mx ex], y as [sy|sy| |sy my ey]; simpl;
    try (apply compare_nan; auto; fail);
    try destruct sx; try destruct sy;
    try (apply compare_lt; [discriminate|discriminate|unfold rank_lt; simpl; lia]);
    try (apply compare_gt; [discriminate|discriminate|unfold rank_lt; simpl; lia]);
    try (apply compare_eq; [discriminate|discriminate|reflexivity]).
  all: change (Pos.compare_cont Eq mx my) with (Pos.compare mx my);
    destruct (Z.compare_spec ex ey); simpl;
    try (apply compare_lt; [discriminate|discriminate|unfold rank_lt; simpl; lia]);
    try (apply compare_gt; [discriminate|discriminate|unfold rank_lt; simpl; lia]);
    destruct (Pos.compare_spec mx my); simpl; subst;
    try (apply compare_lt; [discriminate|discriminate|unfold rank_lt; simpl; lia]);
    try (apply compare_gt; [discriminate|discriminate|unfold rank_lt; simpl; lia]);
    try (apply compare_eq; [discriminate|discriminate|reflexivity]).
Qed.

Lemma isNaN_spec x : isNaN x = true <-> Prim2SF x = S754_nan.
Proof.
  unfold isNaN, is_nan. rewrite FloatAxioms.eqb_spec. unfold SFeqb.
  destruct (SFcompare_view (Prim2SF x) (Prim2SF x)) as [H|Hx _ H|Hx _ H|Hx _ H]; simpl.
  - tauto.
  - unfold rank_lt in H. lia.
  - split; [discriminate|contradiction].
  - unfold rank_lt in H. lia.
Qed.

Lemma isNaN_false x : isNaN x = false <-> is_number x.
Proof.
  unfold is_number. rewrite <- isNaN_spec. destruct (isNaN x); split; congruence.
Qed.

Lemma ltb_rank x y :
  PrimFloat.ltb x y = true <-> is_number x /\ is_number y /\ rank_lt (rankOf x) (rankOf y).
Proof.
  rewrite FloatAxioms.ltb_spec. unfold SFltb, is_number.
  destruct (SFcompare_view (Prim2SF x) (Prim2SF y)) as [H|Hx Hy H|Hx Hy H|Hx Hy H].
  - split; [discriminate|tauto].
  - tauto.
  - split; [discriminate|]. intros (_ & _ & Hlt). rewrite H in Hlt. unfold rank_lt in Hlt. lia.
  - split; [discriminate|]. intros (_ & _ & Hlt). unfold rank_lt in *. lia.
Qed.

Lemma leb_rank x y :
  PrimFloat.leb x y = true <->
  is_number x /\ is_number y /\ (rank_lt (rankOf x) (rankOf y) \/ rankOf x = rankOf y).
Proof.
  rewrite FloatAxioms.leb_spec. unfold SFleb, is_number.
  destruct (SFcompare_view (Prim2SF x) (Prim2SF y)) as [H|Hx Hy H|Hx Hy H|Hx Hy H].
  - split; [discriminate|tauto].
  - tauto.
  - tauto.
  - split; [discriminate|]. intros (_ & _ & [Hlt|Heq]).
    + unfold rank_lt in *. lia.
    + rewrite Heq in H. unfold rank_lt in *. lia.
Qed.

Lemma eqb_rank x y :
  PrimFloat.eqb x y = true <-> is_number x /\ is_number y /\ rankOf x = rankOf y.
Proof.
  rewrite FloatAxioms.eqb_spec. unfold SFeqb, is_number.
  destruct (SFcompare_view (Prim2SF x) (Prim2SF y)) as [H|Hx Hy H|Hx Hy H|Hx Hy H].
  - split; [discriminate|tauto].
  - split; [discriminate|]. intros (_ & _ & Heq). rewrite Heq in H. unfold rank_lt in *. lia.
  - tauto.
  - split; [discriminate|]. intros (_ & _ & Heq). rewrite Heq in H. unfold rank_lt in *. lia.
Qed.

Lemma ltb_false_rank x y :
  is_number x -> is_number y ->
  PrimFloat.ltb x y = false -> rank_lt (rankOf y) (rankOf x) \/ rankOf x = rankOf y.
Proof.
  intros Hx Hy. rewrite FloatAxioms.ltb_spec. unfold SFltb.
  destruct (SFcompare_view (Prim2SF x) (Prim2SF y)) as [H|_ _ H|_ _ H|_ _ H];
    try discriminate; unfold is_number in *; tauto.
Qed.

Lemma goesAfter_descending a b : goesAfter byDescending a b = PrimFloat.ltb a b.
Proof. apply sub_positive. Qed.

Lemma ltb_leb x y : PrimFloat.ltb x y = true -> PrimFloat.leb x y = true.
Proof. rewrite ltb_rank, leb_rank. tauto. Qed.

Lemma not_ltb_leb x y :
  isNaN x = false -> isNaN y = false ->
  PrimFloat.ltb x y = false -> PrimFloat.leb y x = true.
Proof.
  intros Hx Hy H. apply isNaN_false in Hx, Hy.
  apply (ltb_false_rank _ _ Hx Hy) in H. apply leb_rank. intuition congruence.
Qed.

Lemma leb_trans x y z :
  PrimFloat.leb x y = true -> PrimFloat.leb y z = true -> PrimFloat.leb x z = true.
Proof.
  rewrite !leb_rank. intros (Hx & Hy & Hxy) (_ & Hz & Hyz).
  repeat split; try assumption.
  destruct Hxy as [Hxy|Hxy], Hyz as [Hyz|Hyz].
  - left. unfold rank_lt in *. lia.
  - left. rewrite <- Hyz. exact Hxy.
  - left. rewrite Hxy. exact Hyz.
  - right. congruence.
Qed.

(** The clamp of [cosineSimilarity]: NaN stays NaN; a number below 0
    becomes 0, a number above 1 becomes 1, a number in between is
    returned (up to the sign of zero). *)
Lemma clamp_nan q : isNaN q = true -> clamp q = nan.
Proof.
  intros H. unfold clamp, Math_min. rewrite H, orb_true_r. reflexivity.
Qed.

Lemma number_zero : is_number 0. Proof. discriminate. Qed.
Lemma number_one : is_number 1. Proof. discriminate. Qed.

Lemma clamp_cases q :
  isNaN q = false ->
  (PrimFloat.ltb q 0 = true /\ clamp q = 0%float) \/
  (PrimFloat.ltb 1 q = true /\ clamp q = 1%float) \/
  (PrimFloat.leb 0 q = true /\ PrimFloat.leb q 1 = true /\
   PrimFloat.eqb (clamp q) q = true).
Proof.
  intros Hq. pose proof Hq as Hnum. apply isNaN_false in Hnum.
  pose proof number_zero as H0. pose proof number_one as H1.
  unfold clamp, Math_max, Math_min.
  change (isNaN 1) with false. change (isNaN 0) with false. rewrite Hq.
  change (classify 1) with PNormal. change (classify 0) with PZero.
  cbn [orb].
  assert (Hrank0 : rankOf 0 = (0, 0, 0)%Z) by reflexivity.
  assert (Hrank1 : rankOf 1 = (1, -52, 4503599627370496)%Z) by reflexivity.
  destruct (PrimFloat.ltb 1 q) eqn:H1q.
  - right; left. split; [reflexivity|]. reflexivity.
  - apply (ltb_false_rank _ _ H1 Hnum) in H1q.
    destruct (PrimFloat.ltb q 1) eqn:Hq1.
    + rewrite Hq.
      apply ltb_rank in Hq1. destruct Hq1 as (_ & _ & Hq1).
      destruct (PrimFloat.ltb 0 q) eqn:H0q.
      * right; right. apply ltb_rank in H0q. destruct H0q as (_ & _ & H0q).
        repeat split.
        -- apply leb_rank. tauto.
        -- apply leb_rank. tauto.
        -- apply eqb_rank. tauto.
      * apply (ltb_false_rank _ _ H0 Hnum) in H0q.
        destruct (PrimFloat.ltb q 0) eqn:Hq0.
        -- left. split; reflexivity.
        -- apply (ltb_false_rank _ _ Hnum H0) in Hq0.
           assert (Heq : rankOf q = rankOf 0).
           { destruct H0q as [Ha|Ha]; [|congruence].
             destruct Hq0 as [Hb|Hb]; [|congruence].
             unfold rank_lt in *. lia. }
           right; right. repeat split.
           ++ apply leb_rank. repeat split; auto.
           ++ apply leb_rank. tauto.
           ++ apply eqb_rank. repeat split; auto.
    + apply (ltb_false_rank _ _ Hnum H1) in Hq1.
      assert (Heq : rankOf q = rankOf 1).
      { destruct H1q as [Ha|Ha]; [|congruence].
        destruct Hq1 as [Hb|Hb]; [|congruence].
        unfold rank_lt in *. lia. }
      change (isNaN 1) with false. cbn [orb].
      change (PrimFloat.ltb 0 1) with true. cbn iota.
      right; right. repeat split.
      * apply leb_rank. repeat split; auto. left. rewrite Heq, Hrank0, Hrank1. unfold rank_lt; simpl; lia.
      * apply leb_rank. repeat split; auto.
      * apply eqb_rank. repeat split; auto.
Qed.

(** The product of a zero and a finite value is a zero. *)
Lemma rank_zero_inv x : rank x = (0, 0, 0)%Z -> exists s, x = S754_zero s.
Proof.
  destruct x as [s|s| |s m e]; simpl; try destruct s; try discriminate; eauto.
Qed.

Lemma is_finite_spec y :
  PrimFloat.is_finite y = true ->
  (exists s, Prim2SF y = S754_zero s) \/ (exists s m e, Prim2SF y = S754_finite s m e).
Proof.
  unfold PrimFloat.is_finite, PrimFloat.is_infinity.
  rewrite negb_true_iff, orb_false_iff. intros [Hnan Hinf].
  change (is_nan y) with (isNaN y) in Hnan. apply isNaN_false in Hnan.
  rewrite FloatAxioms.eqb_spec, abs_spec in Hinf. unfold is_number in Hnan.
  destruct (Prim2SF y) as [s|s| |s m e]; eauto; [|congruence].
  discriminate Hinf.
Qed.

Lemma mul_zero_l x y :
  PrimFloat.eqb x 0 = true -> PrimFloat.is_finite y = true ->
  PrimFloat.eqb (x * y) 0 = true.
Proof.
  intros Hx Hy. apply eqb_rank in Hx. destruct Hx as (_ & _ & Hx).
  apply rank_zero_inv in Hx. destruct Hx as [sx Hx].
  rewrite FloatAxioms.eqb_spec, mul_spec, Hx. unfold SF64mul.
  destruct (is_finite_spec y Hy) as [[sy ->]|(sy & my & ey & ->)]; reflexivity.
Qed.

Lemma mul_zero_r x y :
  PrimFloat.is_finite x = true -> PrimFloat.eqb y 0 = true ->
  PrimFloat.eqb (x * y) 0 = true.
Proof.
  intros Hx Hy. apply eqb_rank in Hy. destruct Hy as (_ & _ & Hy).
  apply rank_zero_inv in Hy. destruct Hy as [sy Hy].
  rewrite FloatAxioms.eqb_spec, mul_spec, Hy. unfold SF64mul.
  destruct (is_finite_spec x Hx) as [[sx ->]|(sx & mx & ex & ->)]; reflexivity.
Qed.

(* ================================================================== *)
(** ** Properties of the tokenizer *)
(* ================================================================== *)

Lemma slice_length_forward {A} (array : list A) (i w : Z) :
  (0 <= i)%Z -> (0 <= w)%Z ->
  Z.of_nat (length (slice array i (i + w))) =
  Z.max 0 (Z.min w (Z.of_nat (length array) - i)).
Proof.
  intros Hi Hw. unfold slice.
  destruct (Z.ltb_spec i 0); [lia|].
  destruct (Z.ltb_spec (i + w) 0); [lia|].
  rewrite length_firstn, length_skipn. lia.
Qed.

Lemma slice_to_length {A} (array : list A) (i w : Z) :
  (0 <= i)%Z -> (0 <= w)%Z ->
  slice array i (i + Z.of_nat (length (slice array i (i + w)))) = slice array i (i + w).
Proof.
  intros Hi Hw. rewrite (slice_length_forward array i w Hi Hw).
  unfold slice.
  destruct (Z.ltb_spec i 0); [lia|].
  destruct (Z.ltb_spec (i + w) 0); [lia|].
  destruct (Z.ltb_spec (i + Z.max 0 (Z.min w (Z.of_nat (length array) - i))) 0); [lia|].
  destruct (Z.le_gt_cases i (Z.of_nat (length array))) as [Hin|Hout].
  - f_equal. lia.
  - rewrite !skipn_all2 by lia. rewrite !firstn_nil. reflexivity.
Qed.

Section WindowLoop.
Variables (tokens : list string) (windowSize stride : Z).
Let n := Z.of_nat (length tokens).

(** The loop has no [throw]: whatever the configuration, it returns or
    keeps running. *)
Lemma windowLoop_never_throws fuel i windows e :
  windowLoop fuel tokens windowSize stride i windows <> Thrown e.
Proof.
  revert i windows.
  induction fuel as [|fuel IH]; intros i windows; simpl; [discriminate|].
  repeat (case_match; try discriminate). apply IH.
Qed.

(** A result does not depend on the fuel left over. *)
Lemma windowLoop_fuel_mono fuel fuel' i windows result :
  windowLoop fuel tokens windowSize stride i windows = Returned result ->
  (fuel <= fuel')%nat ->
  windowLoop fuel' tokens windowSize stride i windows = Returned result.
Proof.
  revert fuel' i windows.
  induction fuel as [|fuel IH]; intros fuel' i windows H Hle; [discriminate|].
  destruct fuel' as [|fuel']; [lia|]. simpl in *.
  repeat (case_match; try assumption). apply IH; [assumption|lia].
Qed.

(** With a stride of zero the loop index stays at 0 and no [break] is
    ever reached. *)
Lemma windowLoop_zero_stride fuel windows :
  stride = 0%Z -> (0 < windowSize)%Z -> (windowSize < n)%Z ->
  windowLoop fuel tokens windowSize stride 0 windows = Pending.
Proof.
  intros -> HW Hn. revert windows.
  induction fuel as [|fuel IH]; intros windows; simpl; [reflexivity|].
  fold n.
  destruct (Z.ltb_spec 0 n); [|lia].
  pose proof (slice_length_forward tokens 0 windowSize ltac:(lia) ltac:(lia)) as Hlen.
  fold n in Hlen.
  destruct (Z.ltb_spec (4 * Z.of_nat (length (slice tokens 0 (0 + windowSize))))
              windowSize); [lia|].
  destruct (Z.leb_spec n (0 + windowSize)); [lia|].
  apply IH.
Qed.

Hypothesis window_positive : (0 < windowSize)%Z.
Hypothesis stride_positive : (0 < stride)%Z.

(** With a positive stride the loop returns after at most one test per
    token, and every window it pushes spans at least one token. *)
Lemma windowLoop_returns fuel i windows :
  (0 <= i)%Z -> (Z.to_nat (n - i) < fuel)%nat ->
  exists more,
    windowLoop fuel tokens windowSize stride i windows = Returned (windows ++ more) /\
    Forall (fun w => validWindow w /\ spansTokens tokens w) more /\
    (i = 0%Z -> (windowSize < n)%Z -> more <> []).
Proof.
  revert i windows.
  induction fuel as [|fuel IH]; intros i windows Hi Hfuel; [lia|].
  simpl. fold n.
  destruct (Z.ltb_spec i n) as [Hin|Hin].
  - pose proof (slice_length_forward tokens i windowSize Hi ltac:(lia)) as Hlen.
    pose proof (slice_to_length tokens i windowSize Hi ltac:(lia)) as Hspan.
    fold n in Hlen.
    set (windowTokens := slice tokens i (i + windowSize)) in *.
    destruct (Z.ltb_spec (4 * Z.of_nat (length windowTokens)) windowSize)
      as [Hsmall|Hbig].
    + exists []. rewrite app_nil_r. repeat split; [constructor|lia].
    + set (w := {| text := join windowTokens; startIndex := i;
                   endIndex := (i + Z.of_nat (length windowTokens))%Z |}).
      assert (Hw : validWindow w /\ spansTokens tokens w).
      { unfold validWindow, spansTokens; simpl. fold n.
        rewrite Hspan. repeat split; try lia. }
      destruct (Z.leb_spec n (i + windowSize)) as [Hend|Hmore].
      * exists [w]. repeat split; [repeat constructor; apply Hw|discriminate].
      * destruct (IH (i + stride)%Z (windows ++ [w])) as (more & Heq & Hvalid & _);
          [lia|lia|].
        exists (w :: more). rewrite Heq, <- app_assoc. simpl.
        repeat split; [constructor; assumption|discriminate].
  - exists []. rewrite app_nil_r. repeat split; [constructor|lia].
Qed.

Variable overlap : Z.
Hypothesis stride_def : stride = (windowSize - overlap)%Z.
Hypothesis overlap_positive : (0 < overlap)%Z.
Hypothesis overlap_quarter : (windowSize <= 4 * (overlap + 1))%Z.

(** When a slice of [overlap + 1] tokens is never "too small", no slice
    is dropped: the windows tile the token sequence to its end. *)
Lemma windowLoop_tiled fuel i windows :
  (0 <= i)%Z -> (i + overlap < n)%Z -> (Z.to_nat (n - i) < fuel)%nat ->
  exists more,
    windowLoop fuel tokens windowSize stride i windows = Returned (windows ++ more) /\
    tiled overlap n i more /\
    (forall w, head more = Some w -> (i + overlap < endIndex w)%Z) /\
    ((i + windowSize < n)%Z -> (1 < length more)%nat).
Proof.
  revert i windows.
  induction fuel as [|fuel IH]; intros i windows Hi Hrem Hfuel; [lia|].
  simpl. fold n.
  destruct (Z.ltb_spec i n) as [Hin|Hin]; [|lia].
  pose proof (slice_length_forward tokens i windowSize Hi ltac:(lia)) as Hlen.
  fold n in Hlen.
  set (windowTokens := slice tokens i (i + windowSize)) in *.
  destruct (Z.ltb_spec (4 * Z.of_nat (length windowTokens)) windowSize)
    as [Hsmall|Hbig]; [lia|].
  set (w := {| text := join windowTokens; startIndex := i;
               endIndex := (i + Z.of_nat (length windowTokens))%Z |}).
  assert (Hhead : forall w', head (w :: @nil SlidingWindow) = Some w' ->
                             (i + overlap < endIndex w')%Z).
  { intros w' Hw'. injection Hw' as <-. simpl. lia. }
  destruct (Z.leb_spec n (i + windowSize)) as [Hend|Hmore].
  - exists [w]. repeat split; [|exact Hhead|lia].
    apply tiled_last; simpl; lia.
  - destruct (IH (i + stride)%Z (windows ++ [w])) as (more & Heq & Htiled & Hnext & _);
      [lia|lia|lia|].
    exists (w :: more). rewrite Heq, <- app_assoc. simpl.
    repeat split.
    + apply tiled_more; [reflexivity|simpl; lia| |].
      * intros w' Hw'. apply Hnext in Hw'. simpl. lia.
      * replace (endIndex w - overlap)%Z with (i + stride)%Z by (simpl; lia).
        exact Htiled.
    + intros w' Hw'. injection Hw' as <-. simpl. lia.
    + intros _. inversion Htiled; simpl; lia.
Qed.
End WindowLoop.

Lemma tiled_head overlap total i ws :
  tiled overlap total i ws -> exists w rest, ws = w :: rest /\ startIndex w = i.
Proof. intros H; inversion H; subst; eauto. Qed.

Lemma tiled_consecutive overlap total i ws :
  tiled overlap total i ws ->
  forall (j : nat) w1 w2, ws !! j = Some w1 -> ws !! S j = Some w2 ->
    overlapBy overlap w1 w2.
Proof.
  induction 1 as [i w Hs He|i w ws Hs Hstep Hnext Htiled IH]; intros j w1 w2 H1 H2.
  - destruct j; simpl in *; discriminate.
  - destruct j as [|j]; simpl in *.
    + injection H1 as <-.
      destruct (tiled_head _ _ _ _ Htiled) as (w' & rest & -> & Hw').
      simpl in H2. injection H2 as <-.
      specialize (Hnext w' eq_refl). unfold overlapBy. lia.
    + eapply IH; eassumption.
Qed.

Lemma tiled_last_end overlap total i ws :
  tiled overlap total i ws -> exists w, last ws = Some w /\ endIndex w = total.
Proof.
  induction 1 as [i w Hs He|i w ws Hs Hstep Hnext Htiled IH].
  - exists w. split; [reflexivity|assumption].
  - destruct IH as (w' & Hlast & Hend). exists w'. split; [|assumption].
    destruct (tiled_head _ _ _ _ Htiled) as (w0 & rest & -> & _).
    exact Hlast.
Qed.

(** The windows of the configuration used by [computePageSimilarity]
    are always produced: the fuel [aggregate] passes never runs out. *)
Lemma createSlidingWindows_returns fuel text windowSize overlap :
  (0 < windowSize)%Z -> (overlap < windowSize)%Z ->
  (length (tokenize text) < fuel)%nat ->
  exists windows,
    createSlidingWindows fuel text windowSize overlap = Returned windows /\
    windows <> [] /\
    Forall (spansTokens (tokenize text)) windows /\
    (tokenize text <> [] -> Forall validWindow windows).
Proof.
  intros HW HO Hfuel. unfold createSlidingWindows.
  destruct (Z.leb_spec (Z.of_nat (length (tokenize text))) windowSize) as [Hshort|Hlong].
  - eexists. split; [reflexivity|]. split; [discriminate|]. split.
    + repeat constructor; simpl; try lia.
      unfold slice.
      destruct (Z.ltb_spec 0 0); [lia|].
      destruct (Z.ltb_spec (Z.of_nat (length (tokenize text))) 0); [lia|].
      replace (Z.to_nat (Z.min 0 (Z.of_nat (length (tokenize text))))) with 0%nat by lia.
      rewrite Z.min_id.
      replace (Z.to_nat (Z.of_nat (length (tokenize text)) - Z.min 0 _))
        with (length (tokenize text)) by lia.
      simpl. rewrite firstn_all. reflexivity.
    + intros Hne. repeat constructor. unfold validWindow; simpl.
      destruct (tokenize text); [congruence|simpl; lia].
  - destruct (windowLoop_returns (tokenize text) windowSize (windowSize - overlap)
                HW ltac:(lia) fuel 0 []) as (more & Heq & Hvalid & Hne); [lia|lia|].
    exists more. split; [exact Heq|]. split; [apply Hne; [reflexivity|lia]|].
    split; [|intros _].
    + eapply Forall_impl; [exact Hvalid|]. simpl. tauto.
    + eapply Forall_impl; [exact Hvalid|]. simpl. tauto.
Qed.

(** The cases of the test suite (src/test.ts). *)
Example tokenize_simple_text :
  tokenize "Hello World Test" = ["hello"; "world"; "test"].
Proof. vm_compute. reflexivity. Qed.

Example createSlidingWindows_short_text :
  (fun w => (startIndex w, endIndex w)) <$>
    match createSlidingWindows 101 (repeatString "word " 100) 512 128 with
    | Returned windows => windows
    | _ => []
    end = [(0, 100)%Z].
Proof. vm_compute. reflexivity. Qed.

Example createSlidingWindows_long_text :
  (fun w => (startIndex w, endIndex w)) <$>
    match createSlidingWindows 601 (repeatString "word " 600) 512 128 with
    | Returned windows => windows
    | _ => []
    end = [(0, 512)%Z; (384, 600)%Z].
Proof. vm_compute. reflexivity. Qed.

(** C4 (as amended).  With 0 < overlap < windowSize and
    windowSize <= 4 * (overlap + 1), which holds for the 512/128
    configuration, a text of more than windowSize tokens yields more than
    one window; each window is the span of the tokens from its startIndex
    to its endIndex; every two consecutive windows share exactly
    [overlap] tokens; and the last window ends at the token count. *)
Theorem createSlidingWindows_tiles_long_text (text : string) (windowSize overlap : Z) :
  (windowSize < Z.of_nat (length (tokenize text)))%Z ->
  (0 < overlap < windowSize)%Z ->
  (windowSize <= 4 * (overlap + 1))%Z ->
  exists windows,
    (forall fuel, (length (tokenize text) < fuel)%nat ->
       createSlidingWindows fuel text windowSize overlap = Returned windows) /\
    (1 < length windows)%nat /\
    Forall (spansTokens (tokenize text)) windows /\
    (forall (j : nat) w1 w2,
       windows !! j = Some w1 -> windows !! S j = Some w2 ->
       overlapBy overlap w1 w2) /\
    (exists w, last windows = Some w /\
               endIndex w = Z.of_nat (length (tokenize text))).
Proof.
  intros Hlong HO Hquarter.
  set (tokens := tokenize text) in *.
  destruct (windowLoop_tiled tokens windowSize (windowSize - overlap)
              ltac:(lia) ltac:(lia) overlap eq_refl ltac:(lia) Hquarter
              (S (length tokens)) 0 [])
    as (windows & Heq & Htiled & _ & Hmany); [lia|lia|lia|].
  assert (Hcall : forall fuel, (length tokens < fuel)%nat ->
            createSlidingWindows fuel text windowSize overlap = Returned windows).
  { intros fuel Hfuel. unfold createSlidingWindows. fold tokens.
    destruct (Z.leb_spec (Z.of_nat (length tokens)) windowSize); [lia|].
    apply (windowLoop_fuel_mono _ _ _ _ _ _ _ _ Heq). lia. }
  exists windows. split; [exact Hcall|]. split; [apply Hmany; lia|]. split; [|split].
  - destruct (createSlidingWindows_returns (S (length tokens)) text windowSize overlap
                ltac:(lia) ltac:(lia) ltac:(subst tokens; lia))
      as (windows' & Heq' & _ & Hspans & _).
    rewrite Hcall in Heq' by lia. injection Heq' as <-. exact Hspans.
  - apply (tiled_consecutive _ _ _ _ Htiled).
  - apply (tiled_last_end _ _ _ _ Htiled).
Qed.

Lemma createSlidingWindows_tiles_long_text_witness :
  exists windows,
    (forall fuel, (length (tokenize "a b c d e f g h i j k l m") < fuel)%nat ->
       createSlidingWindows fuel "a b c d e f g h i j k l m" 4 2 = Returned windows) /\
    (1 < length windows)%nat /\
    Forall (spansTokens (tokenize "a b c d e f g h i j k l m")) windows /\
    (forall (j : nat) w1 w2,
       windows !! j = Some w1 -> windows !! S j = Some w2 ->
       overlapBy 2 w1 w2) /\
    (exists w, last windows = Some w /\
               endIndex w = Z.of_nat (length (tokenize "a b c d e f g h i j k l m"))).
Proof.
  apply (createSlidingWindows_tiles_long_text "a b c d e f g h i j k l m" 4 2).
  - vm_compute. reflexivity.
  - lia.
  - lia.
Defined.

(** C4, the claim as stated fails: thirteen tokens, a window of 12 and an
    overlap of 1.  The second slice holds 2 tokens, fewer than a quarter
    of the window, and is dropped: one window is returned and it ends at
    token 12, not 13. *)
Lemma createSlidingWindows_drops_trailing_slice :
  length (tokenize "a b c d e f g h i j k l m") = 13%nat /\
  createSlidingWindows 14 "a b c d e f g h i j k l m" 12 1 =
    Returned [ {| text := "a b c d e f g h i j k l";
                  startIndex := 0; endIndex := 12 |} ].
Proof. split; vm_compute; reflexivity. Qed.

Lemma createSlidingWindows_fuel_mono fuel fuel' text windowSize overlap windows :
  createSlidingWindows fuel text windowSize overlap = Returned windows ->
  (fuel <= fuel')%nat ->
  createSlidingWindows fuel' text windowSize overlap = Returned windows.
Proof.
  unfold createSlidingWindows. case_match; [trivial|].
  apply windowLoop_fuel_mono.
Qed.

(** C8 (as amended).  For a text with at least one token (and a window
    configuration with 0 < windowSize and overlap < windowSize), every
    window returned is the span of the tokens from its startIndex to its
    endIndex and satisfies startIndex < endIndex; when the token count is
    at most windowSize the result is the single window from 0 to the
    token count. *)
Theorem createSlidingWindows_windows_valid (text : string) (windowSize overlap : Z) :
  tokenize text <> [] ->
  (0 < windowSize)%Z ->
  (overlap < windowSize)%Z ->
  exists windows,
    (forall fuel, (length (tokenize text) < fuel)%nat ->
       createSlidingWindows fuel text windowSize overlap = Returned windows) /\
    windows <> [] /\
    Forall validWindow windows /\
    Forall (spansTokens (tokenize text)) windows /\
    ((Z.of_nat (length (tokenize text)) <= windowSize)%Z ->
     windows = [ {| text := join (tokenize text);
                    startIndex := 0;
                    endIndex := Z.of_nat (length (tokenize text)) |} ]).
Proof.
  intros Hne HW HO.
  destruct (createSlidingWindows_returns (S (length (tokenize text))) text
              windowSize overlap HW HO ltac:(lia))
    as (windows & Heq & Hnil & Hspans & Hvalid).
  exists windows. repeat split.
  - intros fuel Hfuel.
    apply (createSlidingWindows_fuel_mono _ _ _ _ _ _ Heq). lia.
  - exact Hnil.
  - apply Hvalid, Hne.
  - exact Hspans.
  - intros Hshort. unfold createSlidingWindows in Heq.
    destruct (Z.leb_spec (Z.of_nat (length (tokenize text))) windowSize); [|lia].
    congruence.
Qed.

Lemma createSlidingWindows_windows_valid_witness :
  exists windows,
    (forall fuel, (length (tokenize "Hello World Test") < fuel)%nat ->
       createSlidingWindows fuel "Hello World Test" 2 1 = Returned windows) /\
    windows <> [] /\
    Forall validWindow windows /\
    Forall (spansTokens (tokenize "Hello World Test")) windows /\
    ((Z.of_nat (length (tokenize "Hello World Test")) <= 2)%Z ->
     windows = [ {| text := join (tokenize "Hello World Test");
                    startIndex := 0;
                    endIndex := Z.of_nat (length (tokenize "Hello World Test")) |} ]).
Proof.
  apply (createSlidingWindows_windows_valid "Hello World Test" 2 1).
  - vm_compute. discriminate.
  - lia.
  - lia.
Defined.

(** C8, the claim as stated fails: the empty text has no token, and the
    single window returned for it starts and ends at 0. *)
Lemma createSlidingWindows_empty_text :
  tokenize "" = [] /\
  createSlidingWindows 1 "" 512 128 =
    Returned [ {| text := ""; startIndex := 0; endIndex := 0 |} ].
Proof. split; vm_compute; reflexivity. Qed.

(** C5 (as amended).  [createSlidingWindows] does not validate its
    configuration and raises no error: for every text and every
    windowSize and overlap with overlap >= windowSize the call does not
    throw, and when the token count is at most windowSize it returns the
    single window over the whole text. *)
Theorem createSlidingWindows_does_not_validate (fuel : nat) (text : string)
    (windowSize overlap : Z) :
  (windowSize <= overlap)%Z ->
  (createSlidingWindows fuel text windowSize overlap = Pending \/
   exists windows, createSlidingWindows fuel text windowSize overlap = Returned windows) /\
  ((Z.of_nat (length (tokenize text)) <= windowSize)%Z ->
   createSlidingWindows fuel text windowSize overlap =
     Returned [ {| text := join (tokenize text);
                   startIndex := 0;
                   endIndex := Z.of_nat (length (tokenize text)) |} ]).
Proof.
  intros _. split.
  - destruct (createSlidingWindows fuel text windowSize overlap) as [windows|e|] eqn:H.
    + right. eauto.
    + exfalso. unfold createSlidingWindows in H.
      case_match; [discriminate|].
      exact (windowLoop_never_throws _ _ _ _ _ _ _ H).
    + left. reflexivity.
  - intros Hshort. unfold createSlidingWindows.
    destruct (Z.leb_spec (Z.of_nat (length (tokenize text))) windowSize); [reflexivity|lia].
Qed.

Lemma createSlidingWindows_does_not_validate_witness :
  (createSlidingWindows 5 "a b" 1 1 = Pending \/
   exists windows, createSlidingWindows 5 "a b" 1 1 = Returned windows) /\
  ((Z.of_nat (length (tokenize "a b")) <= 1)%Z ->
   createSlidingWindows 5 "a b" 1 1 =
     Returned [ {| text := join (tokenize "a b");
                   startIndex := 0;
                   endIndex := Z.of_nat (length (tokenize "a b")) |} ]).
Proof.
  apply (createSlidingWindows_does_not_validate 5 "a b" 1 1). lia.
Defined.

(** C5, the claim as stated fails: with windowSize = overlap = 1 the
    one-token text is returned as a window, no error is raised. *)
Lemma createSlidingWindows_accepts_zero_stride :
  createSlidingWindows 1 "a" 1 1 =
    Returned [ {| text := "a"; startIndex := 0; endIndex := 1 |} ].
Proof. vm_compute. reflexivity. Qed.

(** With a stride of zero and more tokens than a window holds, the loop
    never leaves: whatever the fuel, the call is still running. *)
Lemma createSlidingWindows_zero_stride_runs_on fuel text windowSize :
  (0 < windowSize)%Z ->
  (windowSize < Z.of_nat (length (tokenize text)))%Z ->
  createSlidingWindows fuel text windowSize windowSize = Pending.
Proof.
  intros HW Hlong. unfold createSlidingWindows.
  destruct (Z.leb_spec (Z.of_nat (length (tokenize text))) windowSize); [lia|].
  apply windowLoop_zero_stride; [lia|assumption|assumption].
Qed.

(* ================================================================== *)
(** ** Percentile pooling *)
(* ================================================================== *)

Section Sort.
Variable comparefn : float -> float -> float.

Lemma sortInsert_permutation a sorted :
  Permutation (sortInsert comparefn a sorted) (a :: sorted).
Proof.
  induction sorted as [|b rest IH]; simpl; [reflexivity|].
  destruct (goesAfter comparefn a b); [|reflexivity].
  rewrite IH. apply perm_swap.
Qed.

Lemma sort_permutation array : Permutation (sort comparefn array) array.
Proof.
  induction array as [|a rest IH]; simpl; [reflexivity|].
  rewrite sortInsert_permutation, IH. reflexivity.
Qed.
End Sort.

Lemma sortInsert_descending a sorted :
  isNaN a = false -> Forall (fun v => isNaN v = false) sorted ->
  descending sorted -> descending (sortInsert byDescending a sorted).
Proof.
  intros Ha Hnum Hsorted. unfold descending in *.
  induction Hsorted as [|b rest Hrest IH Hb]; simpl.
  - repeat constructor.
  - apply Forall_cons_1 in Hnum as [Hbnum Hnum].
    rewrite goesAfter_descending.
    destruct (PrimFloat.ltb a b) eqn:Hab.
    + constructor; [apply IH; assumption|].
      rewrite (sortInsert_permutation byDescending a rest).
      constructor; [apply ltb_leb; exact Hab|exact Hb].
    + assert (Hba : PrimFloat.leb b a = true) by (apply not_ltb_leb; assumption).
      constructor; [constructor; assumption|].
      constructor; [exact Hba|].
      eapply Forall_impl; [exact Hb|]. simpl. intros r Hr.
      eapply leb_trans; eassumption.
Qed.

Lemma sort_descending array :
  Forall (fun v => isNaN v = false) array -> descending (sort byDescending array).
Proof.
  induction array as [|a rest IH]; intros Hnum; simpl; [constructor|].
  apply Forall_cons_1 in Hnum as [Ha Hnum].
  apply sortInsert_descending; [assumption| |apply IH; assumption].
  rewrite (sort_permutation byDescending rest). exact Hnum.
Qed.

(** C3.  Descending-percentile pooling returns 0 for the empty list and
    the sole element of a one-element list; for a longer list it returns
    the element at index floor(length * 0.25) of a rearrangement of the
    list which, when no score is NaN, is the list sorted in descending
    order.  Pooling [0.1, ..., 0.8] returns 0.6. *)
Theorem calculate75thPercentile_pools (values : list float) :
  match values with
  | [] => calculate75thPercentile values = 0%float
  | [value] => calculate75thPercentile values = value
  | _ =>
      exists sorted,
        Permutation sorted values /\
        (Forall (fun v => isNaN v = false) values -> descending sorted) /\
        sorted !! (length values / 4)%nat = Some (calculate75thPercentile values)
  end /\
  calculate75thPercentile [0.1; 0.2; 0.3; 0.4; 0.5; 0.6; 0.7; 0.8]%float = 0.6%float.
Proof.
  split; [|vm_compute; reflexivity].
  destruct values as [|v0 [|v1 rest]]; [reflexivity|reflexivity|].
  set (values := v0 :: v1 :: rest) in *.
  exists (sort byDescending values).
  pose proof (sort_permutation byDescending values) as Hperm.
  split; [exact Hperm|]. split; [apply sort_descending|].
  assert (Hlen : length (sort byDescending values) = length values)
    by (apply Permutation_length; exact Hperm).
  change (calculate75thPercentile values)
    with (nth (length (sort byDescending values) / 4) (sort byDescending values) nan).
  rewrite Hlen.
  assert (Hidx : (length values / 4 < length (sort byDescending values))%nat).
  { rewrite Hlen. apply Nat.div_lt; [subst values; simpl; lia|lia]. }
  apply lookup_lt_is_Some_2 in Hidx. destruct Hidx as [v Hv].
  rewrite Hv. f_equal. symmetry. apply nth_lookup_Some with (d := nan) in Hv. exact Hv.
Qed.

Lemma calculate75thPercentile_pools_witness :
  exists sorted,
    Permutation sorted [0.1; 0.2; 0.3; 0.4; 0.5; 0.6; 0.7; 0.8]%float /\
    descending sorted /\
    sorted !! 2%nat = Some 0.6%float.
Proof.
  destruct (proj1 (calculate75thPercentile_pools
                     [0.1; 0.2; 0.3; 0.4; 0.5; 0.6; 0.7; 0.8]%float))
    as (sorted & Hperm & Hdesc & Hidx).
  exists sorted. split; [exact Hperm|]. split; [|exact Hidx].
  apply Hdesc. repeat constructor.
Defined.

(* ================================================================== *)
(** ** Properties of the embedding provider and of the similarity *)
(* ================================================================== *)

(** C7 (as amended).  [cosineSimilarity(a, b)] fails with the
    dimension-mismatch error when the lengths differ.  Otherwise it
    returns a number: 0 when the denominator is zero, which is the case
    when one norm is zero and the other is finite; and, when the raw
    cosine dot(a,b) / (|a| |b|) is not NaN, a value in [0, 1] that is 0
    for a negative raw cosine, 1 for a raw cosine above 1, and the raw
    cosine itself in between. *)
Theorem cosineSimilarity_clamped (a b : list float) :
  if (length a =? length b)%nat then
    let '(dotProduct, normA, normB) := cosineSums a b 0 0 0 in
    let denominator := (PrimFloat.sqrt normA * PrimFloat.sqrt normB)%float in
    let raw := (dotProduct / denominator)%float in
    exists r,
      cosineSimilarity a b = Returned r /\
      (PrimFloat.eqb denominator 0 = true -> r = 0%float) /\
      ((PrimFloat.eqb (PrimFloat.sqrt normA) 0 = true /\
        PrimFloat.is_finite (PrimFloat.sqrt normB) = true) \/
       (PrimFloat.is_finite (PrimFloat.sqrt normA) = true /\
        PrimFloat.eqb (PrimFloat.sqrt normB) 0 = true) -> r = 0%float) /\
      (PrimFloat.eqb denominator 0 = false -> isNaN raw = false ->
         PrimFloat.leb 0 r = true /\ PrimFloat.leb r 1 = true /\
         (PrimFloat.ltb raw 0 = true -> r = 0%float) /\
         (PrimFloat.ltb 1 raw = true -> r = 1%float) /\
         (PrimFloat.leb 0 raw = true -> PrimFloat.leb raw 1 = true ->
            PrimFloat.eqb r raw = true))
  else
    cosineSimilarity a b = Thrown (JsError "Embeddings must have the same dimension").
Proof.
  unfold cosineSimilarity.
  destruct (length a =? length b)%nat; [|reflexivity]. cbn [negb].
  destruct (cosineSums a b 0 0 0) as [[dotProduct normA] normB].
  set (denominator := (PrimFloat.sqrt normA * PrimFloat.sqrt normB)%float).
  set (raw := (dotProduct / denominator)%float).
  cbv zeta.
  destruct (PrimFloat.eqb denominator 0) eqn:Hden.
  - exists 0%float. repeat split; try discriminate; reflexivity.
  - exists (clamp raw). split; [reflexivity|]. split; [discriminate|]. split.
    + intros [[Ha Hb]|[Ha Hb]].
      * pose proof (mul_zero_l _ _ Ha Hb) as H. fold denominator in H. congruence.
      * pose proof (mul_zero_r _ _ Ha Hb) as H. fold denominator in H. congruence.
    + intros _ Hraw.
      destruct (clamp_cases raw Hraw) as [[Hlt ->]|[[Hgt ->]|(Hlo & Hhi & Heq)]].
      * repeat split; try reflexivity.
        -- intros Hgt. apply ltb_rank in Hlt, Hgt.
           destruct Hlt as (_ & _ & Hlt), Hgt as (_ & _ & Hgt).
           change (rankOf 0) with (0, 0, 0)%Z in *.
           change (rankOf 1) with (1, -52, 4503599627370496)%Z in *.
           unfold rank_lt in *. simpl in *. lia.
        -- intros Hlo _. apply ltb_rank in Hlt. apply leb_rank in Hlo.
           destruct Hlt as (_ & _ & Hlt), Hlo as (_ & _ & Hlo).
           destruct Hlo as [Hlo|Hlo]; [|rewrite <- Hlo in Hlt];
             unfold rank_lt in *; lia.
      * repeat split; try reflexivity.
        -- intros Hlt. apply ltb_rank in Hlt, Hgt.
           destruct Hlt as (_ & _ & Hlt), Hgt as (_ & _ & Hgt).
           change (rankOf 0) with (0, 0, 0)%Z in *.
           change (rankOf 1) with (1, -52, 4503599627370496)%Z in *.
           unfold rank_lt in *. simpl in *. lia.
        -- intros _ Hhi. apply ltb_rank in Hgt. apply leb_rank in Hhi.
           destruct Hgt as (_ & _ & Hgt), Hhi as (_ & _ & Hhi).
           destruct Hhi as [Hhi|Hhi]; [|rewrite Hhi in Hgt];
             unfold rank_lt in *; lia.
      * pose proof Heq as Heq'. apply eqb_rank in Heq'. destruct Heq' as (Hnum & _ & Hrank).
        repeat split.
        -- apply leb_rank in Hlo. apply leb_rank. rewrite Hrank. tauto.
        -- apply leb_rank in Hhi. apply leb_rank. rewrite Hrank. tauto.
        -- intros Hlt. exfalso. apply ltb_rank in Hlt. apply leb_rank in Hlo.
           destruct Hlt as (_ & _ & Hlt), Hlo as (_ & _ & Hlo).
           destruct Hlo as [Hlo|Hlo]; [|rewrite <- Hlo in Hlt];
             unfold rank_lt in *; lia.
        -- intros Hgt. exfalso. apply ltb_rank in Hgt. apply leb_rank in Hhi.
           destruct Hgt as (_ & _ & Hgt), Hhi as (_ & _ & Hhi).
           destruct Hhi as [Hhi|Hhi]; [|rewrite Hhi in Hgt];
             unfold rank_lt in *; lia.
        -- intros _ _. exact Heq.
Qed.

(** C7, the claim as stated fails: an entry that is NaN, or a zero
    vector against one with an infinite entry, makes the raw cosine NaN,
    and the value returned is NaN, which is not in [0, 1]. *)
Lemma cosineSimilarity_nan_entry :
  cosineSimilarity [nan] [1%float] = Returned nan /\
  cosineSimilarity [0%float] [infinity] = Returned nan /\
  PrimFloat.leb 0 nan = false /\ PrimFloat.leb nan 1 = false.
Proof. repeat split; vm_compute; reflexivity. Qed.


(** The cases of the test suite: identical and orthogonal unit vectors;
    and a negative cosine, which is clamped to 0. *)
Example cosineSimilarity_identical :
  cosineSimilarity [1; 0; 0; 0]%float [1; 0; 0; 0]%float = Returned 1%float.
Proof. vm_compute. reflexivity. Qed.

Example cosineSimilarity_orthogonal :
  cosineSimilarity [1; 0; 0; 0]%float [0; 1; 0; 0]%float = Returned 0%float.
Proof. vm_compute. reflexivity. Qed.

Example cosineSimilarity_opposite :
  cosineSimilarity [1; 0]%float [-1; 0]%float = Returned 0%float.
Proof. vm_compute. reflexivity. Qed.

Example cosineSimilarity_zero_vector :
  cosineSimilarity [0; 0]%float [1; 0]%float = Returned 0%float.
Proof. vm_compute. reflexivity. Qed.

Example cosineSimilarity_mismatch :
  cosineSimilarity [1; 0]%float [1]%float =
  Thrown (JsError "Embeddings must have the same dimension").
Proof. vm_compute. reflexivity. Qed.

(* ================================================================== *)
(** ** Properties of the aggregator and of the keyword cache *)
(* ================================================================== *)

Lemma bind_settles {A B} (r : run A) (k : A -> run B) :
  settles r -> (forall a, settles (k a)) -> settles (bind r k).
Proof. destruct r; simpl; auto. Qed.

Lemma computeEmbedding_settles provider text : settles (computeEmbedding provider text).
Proof.
  unfold computeEmbedding.
  destruct (model provider) as [loaded|]; [|exact I].
  destruct (isBlank text); [exact I|].
  destruct (loaded text); exact I.
Qed.

Lemma cosineSimilarity_settles a b : settles (cosineSimilarity a b).
Proof.
  unfold cosineSimilarity.
  destruct (negb _); [exact I|].
  destruct (cosineSums a b 0 0 0) as [[dotProduct normA] normB].
  destruct (PrimFloat.eqb _ _); exact I.
Qed.

Lemma similarityTo_settles page found : settles (similarityTo page found).
Proof. destruct found; simpl; [apply cosineSimilarity_settles..|exact I]. Qed.

Lemma maxSimilarity_settles cache page keywords maxSim :
  settles (maxSimilarity cache page keywords maxSim).
Proof.
  revert maxSim. induction keywords as [|keyword rest IH]; intros maxSim; simpl; [exact I|].
  destruct (getProperty cache keyword); [|apply IH].
  apply bind_settles; [apply similarityTo_settles|intros; apply IH].
Qed.

Lemma windowScores_settles provider cache bk ak window :
  settles (windowScores provider cache bk ak window).
Proof.
  unfold windowScores.
  apply bind_settles; [apply computeEmbedding_settles|intros page].
  apply bind_settles; [apply maxSimilarity_settles|intros b].
  apply bind_settles; [apply maxSimilarity_settles|intros a]. exact I.
Qed.

Lemma processWindows_settles provider cache bk ak total windows bs als embedded :
  settles (fst (processWindows provider cache bk ak total windows bs als embedded)).
Proof.
  revert bs als embedded.
  induction windows as [|window rest IH]; intros bs als embedded; simpl; [exact I|].
  pose proof (windowScores_settles provider cache bk ak window) as Hs.
  destruct (windowScores provider cache bk ak window) as [[b a]|e|]; simpl; [|exact I|exact Hs].
  destruct (earlyExit _ _ _); [exact I|apply IH].
Qed.

Lemma aggregate_settles provider cache text bk ak :
  settles (aggregate provider cache text bk ak).
Proof.
  unfold aggregate.
  destruct (createSlidingWindows_returns (S (length (tokenize text))) text 512 128
              ltac:(lia) ltac:(lia) ltac:(lia)) as (windows & -> & _).
  simpl.
  apply bind_settles; [apply processWindows_settles|].
  intros [bs als]. exact I.
Qed.

Lemma getProperty_absent (cache : gmap string (list float)) key :
  getProperty cache key = None <->
  cache !! key = None /\ inheritedName key = false.
Proof.
  unfold getProperty, inheritedName.
  destruct (cache !! key), (inheritedProperty key);
    split; try discriminate; try tauto; intros [? ?]; discriminate.
Qed.

Lemma cacheKeyword_caught provider cache keyword :
  try_catch (cacheKeyword provider cache keyword) (fun _ => Returned cache) =
  Returned (match cache !! keyword with
            | Some _ => cache
            | None =>
                if inheritedName keyword then cache
                else match embeddingOf provider keyword with
                     | Some embedding => <[keyword := embedding]> cache
                     | None => cache
                     end
            end).
Proof.
  unfold cacheKeyword, embeddingOf, getProperty, inheritedName.
  destruct (cache !! keyword); [reflexivity|].
  destruct (inheritedProperty keyword); [reflexivity|].
  pose proof (computeEmbedding_settles provider keyword) as Hs.
  destruct (computeEmbedding provider keyword); simpl; [reflexivity|reflexivity|destruct Hs].
Qed.

Lemma precomputeLoop_returns provider keywords cache :
  exists cache',
    precomputeLoop provider keywords cache = Returned cache' /\
    forall k : string,
      cache' !! k =
      match cache !! k with
      | Some v => Some v
      | None =>
          if bool_decide (k ∈ keywords) && negb (inheritedName k)
          then embeddingOf provider k
          else None
      end.
Proof.
  revert cache. induction keywords as [|keyword rest IH]; intros cache.
  - exists cache. split; [reflexivity|]. intros k. destruct (cache !! k); reflexivity.
  - simpl. rewrite cacheKeyword_caught. simpl.
    match goal with |- context [precomputeLoop provider rest ?c] =>
      destruct (IH c) as (cache' & Heq & Hlook) end.
    exists cache'. split; [exact Heq|].
    intros k. rewrite Hlook. clear Hlook Heq.
    destruct (decide (k = keyword)) as [->|Hne].
    + rewrite (bool_decide_eq_true_2 (keyword ∈ keyword :: rest)) by left.
      destruct (cache !! keyword) as [v|] eqn:Hc; [rewrite Hc; reflexivity|].
      destruct (inheritedName keyword) eqn:Hinherited.
      * rewrite Hc, andb_false_r. reflexivity.
      * destruct (embeddingOf provider keyword) as [embedding|] eqn:He.
        -- rewrite lookup_insert_eq. reflexivity.
        -- rewrite Hc. destruct (bool_decide _); reflexivity.
    + assert (Hmem : bool_decide (k ∈ keyword :: rest) = bool_decide (k ∈ rest)).
      { apply bool_decide_ext. rewrite elem_of_cons. tauto. }
      rewrite Hmem.
      destruct (cache !! keyword) as [v|] eqn:Hc; [reflexivity|].
      destruct (inheritedName keyword); [reflexivity|].
      destruct (embeddingOf provider keyword) as [embedding|]; [|reflexivity].
      rewrite lookup_insert_ne by congruence. reflexivity.
Qed.

Lemma precomputeKeywordEmbeddings_returns keywords s :
  fst (precomputeKeywordEmbeddings keywords s) = Returned tt /\
  mlModelStatus (snd (precomputeKeywordEmbeddings keywords s)) = mlModelStatus s /\
  mlModelError (snd (precomputeKeywordEmbeddings keywords s)) = mlModelError s /\
  embeddingModel (snd (precomputeKeywordEmbeddings keywords s)) = embeddingModel s /\
  forall k : string,
    keywordEmbeddingCache (snd (precomputeKeywordEmbeddings keywords s)) !! k =
    match keywordEmbeddingCache s !! k with
    | Some v => Some v
    | None =>
        if isReady (mlModelStatus s) && bool_decide (k ∈ keywords)
           && negb (inheritedName k)
        then embeddingOf (embeddingModel s) k
        else None
    end.
Proof.
  unfold precomputeKeywordEmbeddings.
  destruct (isReady (mlModelStatus s)) eqn:Hready; simpl.
  - destruct (precomputeLoop_returns (embeddingModel s) keywords (keywordEmbeddingCache s))
      as (cache' & -> & Hlook).
    simpl. repeat split; try reflexivity. exact Hlook.
  - repeat split; try reflexivity.
    intros k. destruct (keywordEmbeddingCache s !! k); reflexivity.
Qed.

Lemma State_eq (t u : State) :
  keywordEmbeddingCache t = keywordEmbeddingCache u ->
  mlModelStatus t = mlModelStatus u ->
  mlModelError t = mlModelError u ->
  embeddingModel t = embeddingModel u ->
  t = u.
Proof. destruct t, u; simpl; intros; subst; reflexivity. Qed.

(** C9.  [precomputeKeywordEmbeddings] never fails its caller and is
    write-once per key: every entry of the cache is still there, with the
    same vector, after the call, so a second call with any keyword set
    leaves it unchanged, and a second call with the same keywords changes
    nothing at all.  The entries added are exactly the keywords that were
    absent, that the read of the cache does not find on the prototype of
    the object (for a keyword such as [constructor] the test of the code
    answers that it is there, and nothing is computed or stored), and
    whose embedding the provider could compute; a keyword whose embedding
    fails is skipped and the rest of the batch is processed as if it had
    not been listed.  When the status is not ['ready'], or the provider
    has no model, the state is unchanged. *)
Theorem precomputeKeywordEmbeddings_write_once (keywords : list string) (s : State) :
  let s' := snd (precomputeKeywordEmbeddings keywords s) in
  fst (precomputeKeywordEmbeddings keywords s) = Returned tt /\
  keywordEmbeddingCache s ⊆ keywordEmbeddingCache s' /\
  (forall k : string,
     keywordEmbeddingCache s' !! k =
     match keywordEmbeddingCache s !! k with
     | Some v => Some v
     | None =>
         if isReady (mlModelStatus s) && bool_decide (k ∈ keywords)
            && negb (inheritedName k)
         then embeddingOf (embeddingModel s) k
         else None
     end) /\
  (forall again : list string,
     keywordEmbeddingCache s' ⊆
     keywordEmbeddingCache (snd (precomputeKeywordEmbeddings again s'))) /\
  precomputeKeywordEmbeddings keywords s' = (Returned tt, s') /\
  (forall before failing after,
     keywords = before ++ failing :: after ->
     embeddingOf (embeddingModel s) failing = None ->
     s' = snd (precomputeKeywordEmbeddings (before ++ after) s)) /\
  (isReady (mlModelStatus s) = false \/ model (embeddingModel s) = None -> s' = s).
Proof.
  intros s'.
  assert (Hsub : forall kws t,
            keywordEmbeddingCache t ⊆
            keywordEmbeddingCache (snd (precomputeKeywordEmbeddings kws t))).
  { intros kws t. apply map_subseteq_spec. intros k v Hk.
    destruct (precomputeKeywordEmbeddings_returns kws t) as (_ & _ & _ & _ & Hlook).
    rewrite Hlook, Hk. reflexivity. }
  destruct (precomputeKeywordEmbeddings_returns keywords s)
    as (Hret & Hstatus & Herror & Hprovider & Hlook).
  fold s' in Hstatus, Herror, Hprovider, Hlook.
  split; [exact Hret|]. split; [apply Hsub|]. split; [exact Hlook|].
  split; [intros again; apply Hsub|]. split; [|split].
  - destruct (precomputeKeywordEmbeddings_returns keywords s')
      as (Hret' & Hstatus' & Herror' & Hprovider' & Hlook').
    rewrite (surjective_pairing (precomputeKeywordEmbeddings keywords s')).
    f_equal; [exact Hret'|].
    apply State_eq; try assumption.
    apply map_eq. intros k. rewrite Hlook'.
    destruct (keywordEmbeddingCache s' !! k) as [v|] eqn:Hk; [reflexivity|].
    rewrite Hstatus, Hprovider.
    rewrite Hlook in Hk.
    destruct (keywordEmbeddingCache s !! k); [discriminate|].
    destruct (isReady (mlModelStatus s) && bool_decide (k ∈ keywords)
              && negb (inheritedName k)); [exact Hk|reflexivity].
  - intros before failing after -> Hfail.
    destruct (precomputeKeywordEmbeddings_returns (before ++ after) s)
      as (_ & Hstatus' & Herror' & Hprovider' & Hlook').
    apply State_eq; try congruence.
    apply map_eq. intros k. rewrite Hlook, Hlook'.
    destruct (keywordEmbeddingCache s !! k) as [v|]; [reflexivity|].
    destruct (decide (k = failing)) as [->|Hne].
    + rewrite Hfail. destruct (_ && _ && _), (_ && _ && _); reflexivity.
    + assert (Hmem : bool_decide (k ∈ before ++ failing :: after) =
                     bool_decide (k ∈ before ++ after)).
      { apply bool_decide_ext. rewrite !elem_of_app, elem_of_cons. tauto. }
      rewrite Hmem. reflexivity.
  - intros Hnot. apply State_eq; try assumption.
    apply map_eq. intros k. rewrite Hlook.
    destruct (keywordEmbeddingCache s !! k) as [v|]; [reflexivity|].
    destruct Hnot as [->|Hmodel]; [reflexivity|].
    unfold embeddingOf, computeEmbedding. rewrite Hmodel.
    destruct (_ && _ && _); reflexivity.
Qed.

(** A batch with a blank keyword: it is skipped, the keyword after it
    is cached all the same, and the call returns. *)
Example precomputeKeywordEmbeddings_skips_blank :
  let s := {| keywordEmbeddingCache := ∅;
              mlModelStatus := StatusReady;
              mlModelError := None;
              embeddingModel := demoProvider |} in
  let after := precomputeKeywordEmbeddings ["game"; " "; "work"] s in
  fst after = Returned tt /\
  keywordEmbeddingCache (snd after) !! "game" = Some [1; 0]%float /\
  keywordEmbeddingCache (snd after) !! " " = None /\
  keywordEmbeddingCache (snd after) !! "work" = Some [0; 1]%float.
Proof. repeat split; vm_compute; reflexivity. Qed.

Lemma initializeMLModel_never_throws env s : neverThrows (fst (initializeMLModel env s)).
Proof.
  unfold initializeMLModel.
  destruct (initialize _ _ _) as [[|e|] provider]; try exact I.
  destruct (storageFailure env); exact I.
Qed.

Lemma waitForModel_never_throws polls s : neverThrows (fst (waitForModel polls s)).
Proof.
  revert s. induction polls as [|seen later IH]; intros s; simpl;
    destruct (mlModelStatus s); try exact I. apply IH.
Qed.

Lemma ensureModel_never_throws env s : neverThrows (fst (ensureModel env s)).
Proof.
  unfold ensureModel. destruct (mlModelStatus s);
    auto using initializeMLModel_never_throws, waitForModel_never_throws.
  exact I.
Qed.

(** C1.  [computePageSimilarity] never throws.  Unless a polling loop is
    still waiting, it returns a result, and this result is the neutral
    one (0, 0, false) when the model is not ready after the
    initialisation attempt and when any step of windowing, embedding or
    similarity computation throws; otherwise it is what the aggregation
    computed.  In particular the call that finds no model and whose
    model load fails returns the neutral result and leaves the status
    ['error']; and for the empty text, whose only window the provider
    refuses to embed, a ready model returns the neutral result. *)
Theorem computePageSimilarity_fails_open (env : Environment) (text : string)
    (blockedKeywords allowedKeywords : list string) (s : State) :
  let call := computePageSimilarity env text blockedKeywords allowedKeywords s in
  let s' := snd (ensureModel env s) in
  let attempt :=
    aggregate (embeddingModel s') (keywordEmbeddingCache s') text
      blockedKeywords allowedKeywords in
  ((call = (Pending, s') /\ fst (ensureModel env s) = Pending) \/
   (exists result,
      call = (Returned result, s') /\
      fst (ensureModel env s) = Returned tt /\
      (isReady (mlModelStatus s') = false -> result = neutral) /\
      (forall e, attempt = Thrown e -> result = neutral) /\
      (isReady (mlModelStatus s') = true ->
       forall computed, attempt = Returned computed -> result = computed))) /\
  (forall e cache previous,
     computePageSimilarity
       {| pipelineLoad := Rejected e;
          providerPolls := providerPolls env;
          statusPolls := statusPolls env;
          storageFailure := storageFailure env |}
       text blockedKeywords allowedKeywords
       {| keywordEmbeddingCache := cache;
          mlModelStatus := StatusNull;
          mlModelError := previous;
          embeddingModel := newInstance |} =
     (Returned neutral,
      {| keywordEmbeddingCache := cache;
         mlModelStatus := StatusError;
         mlModelError := Some (messageOf e);
         embeddingModel :=
           {| model := None; isLoading := false;
              loadError := Some (messageOf e) |} |})) /\
  (forall cache previous provider,
     let ready :=
       {| keywordEmbeddingCache := cache;
          mlModelStatus := StatusReady;
          mlModelError := previous;
          embeddingModel := provider |} in
     computePageSimilarity env "" blockedKeywords allowedKeywords ready =
     (Returned neutral, ready)).
Proof.
  intros call s' attempt. split; [|split; [reflexivity|]].
  2: { intros cache previous provider ready.
       unfold computePageSimilarity, ensureModel, aggregate. simpl.
       unfold windowScores, computeEmbedding. simpl.
       destruct (model provider); reflexivity. }
  subst call. unfold computePageSimilarity.
  pose proof (ensureModel_never_throws env s) as Hnt.
  subst attempt s'.
  destruct (ensureModel env s) as [[[]|e|] s']; simpl in *.
  - right.
    destruct (isReady (mlModelStatus s')) eqn:Hready; simpl.
    + pose proof (aggregate_settles (embeddingModel s') (keywordEmbeddingCache s')
                    text blockedKeywords allowedKeywords) as Hs.
      destruct (aggregate _ _ _ _ _) as [computed|e|]; simpl; [| |destruct Hs].
      * exists computed. repeat split; try congruence.
      * exists neutral. repeat split; try congruence.
    + exists neutral. repeat split; congruence.
  - destruct Hnt.
  - left. split; reflexivity.
Qed.

(** A page the demo provider embeds like the blocked keyword is blocked;
    a page it embeds otherwise is not. *)
Example computePageSimilarity_demo :
  let env := {| pipelineLoad := Rejected NonError; providerPolls := [];
                statusPolls := []; storageFailure := None |} in
  let ready := {| keywordEmbeddingCache := demoCache;
                  mlModelStatus := StatusReady;
                  mlModelError := None;
                  embeddingModel := demoProvider |} in
  fst (computePageSimilarity env "game" ["gaming"] [] ready) =
    Returned {| blockedSimilarity := 1; allowedSimilarity := 0; shouldBlock := true |} /\
  fst (computePageSimilarity env "quarterly report" ["gaming"] [] ready) =
    Returned {| blockedSimilarity := 0; allowedSimilarity := 0; shouldBlock := false |}.
Proof. split; vm_compute; reflexivity. Qed.

(** C2.  The decision is [true] exactly when the blocked score is above
    0.30 and the allowed score is below 0.55, both comparisons being
    strict; the three rows of the decision table; and every result
    [computePageSimilarity] returns, the neutral one included, carries
    the decision of its two scores. *)
Theorem decision_thresholds :
  (forall blocked allowed : float,
     decideShouldBlock blocked allowed = true <->
     PrimFloat.ltb 0.30 blocked = true /\ PrimFloat.ltb allowed 0.55 = true) /\
  decideShouldBlock 0.5 0.2 = true /\
  decideShouldBlock 0.5 0.6 = false /\
  decideShouldBlock 0.2 0.2 = false /\
  decideShouldBlock 0.30 0.2 = false /\
  decideShouldBlock 0.5 0.55 = false /\
  (forall env text blockedKeywords allowedKeywords s,
     match fst (computePageSimilarity env text blockedKeywords allowedKeywords s) with
     | Returned result =>
         shouldBlock result =
         decideShouldBlock (blockedSimilarity result) (allowedSimilarity result)
     | _ => True
     end).
Proof.
  split.
  { intros blocked allowed. unfold decideShouldBlock, BLOCK_THRESHOLD, ALLOW_THRESHOLD.
    apply andb_true_iff. }
  repeat (split; [vm_compute; reflexivity|]).
  - intros env text bk ak s. unfold computePageSimilarity.
    destruct (ensureModel env s) as [[[]|e|] s']; simpl; try exact I.
    destruct (isReady (mlModelStatus s')); simpl; [|vm_compute; reflexivity].
    unfold aggregate.
    destruct (createSlidingWindows _ _ _ _) as [windows|e|]; simpl;
      try exact I; try (vm_compute; reflexivity).
    destruct (fst (processWindows _ _ _ _ _ _ _ _ _)) as [[bs als]|e|]; simpl;
      try exact I; try (vm_compute; reflexivity).
Qed.

(** C10.  A provider on which [initialize] was never called reports
    ['loading'], the very status of a provider whose load is in
    progress; it has no error recorded. *)
Theorem getStatus_before_initialize :
  getStatus newInstance = loading /\
  getStatus {| model := None; isLoading := true; loadError := None |} = loading /\
  getError newInstance = None.
Proof. repeat split. Qed.

Section EarlyExit.
Variables (provider : EmbeddingModelSingleton) (cache : gmap string (list float)).
Variables (blockedKeywords allowedKeywords : list string) (total : nat).

Let score := windowScores provider cache blockedKeywords allowedKeywords.
Let loop := processWindows provider cache blockedKeywords allowedKeywords total.

(** Windows that are scored without meeting the exit test are passed
    over one by one. *)
Lemma processWindows_passes_over before scores rest bs als embedded :
  Forall2 (fun w sc => score w = Returned sc) before scores ->
  (forall (j : nat) sc, scores !! j = Some sc ->
     earlyExit sc.1 (length bs + S j) total = false) ->
  loop (before ++ rest) bs als embedded =
  loop rest (bs ++ scores.*1) (als ++ scores.*2) (embedded ++ (text <$> before)).
Proof.
  intros Hscored. revert bs als embedded.
  induction Hscored as [|w [b a] before scores Hw Hrest IH]; intros bs als embedded Hstay.
  - simpl. rewrite !app_nil_r. reflexivity.
  - subst score loop. simpl in *. rewrite Hw.
    rewrite length_app. simpl.
    pose proof (Hstay 0%nat (b, a) eq_refl) as H0. simpl in H0.
    rewrite H0.
    rewrite IH.
    + rewrite <- !app_assoc. reflexivity.
    + intros j sc Hj. rewrite length_app. simpl.
      replace (length bs + 1 + S j)%nat with (length bs + S (S j))%nat by lia.
      apply (Hstay (S j)). exact Hj.
Qed.

(** Whatever happens before it, a window that meets the exit test is
    the last one the loop can reach. *)
Lemma processWindows_stops_at before window rest b a bs als embedded :
  score window = Returned (b, a) ->
  earlyExit b (length bs + S (length before)) total = true ->
  exists m : nat,
    (m <= S (length before))%nat /\
    snd (loop (before ++ window :: rest) bs als embedded) =
    embedded ++ (text <$> take m (before ++ window :: rest)).
Proof.
  intros Hw Hexit. revert bs als embedded Hexit.
  induction before as [|w0 before IH]; intros bs als embedded Hexit.
  - subst score loop. simpl in *. rewrite Hw. rewrite length_app. simpl.
    replace (length bs + 1)%nat with (length bs + 1)%nat in * by lia.
    rewrite Hexit. exists 1%nat. split; [lia|reflexivity].
  - subst score loop. simpl in *.
    destruct (windowScores provider cache blockedKeywords allowedKeywords w0)
      as [[b0 a0]|e|] eqn:H0; simpl.
    + destruct (earlyExit b0 _ total).
      * exists 1%nat. split; [lia|reflexivity].
      * destruct (IH (bs ++ [b0]) (als ++ [a0]) (embedded ++ [text w0])) as (m & Hm & Heq).
        { rewrite length_app. simpl.
          replace (length bs + 1 + S (length before))%nat
            with (length bs + S (S (length before)))%nat by lia.
          exact Hexit. }
        exists (S m). split; [lia|]. rewrite Heq. simpl.
        rewrite <- app_assoc. reflexivity.
    + exists 1%nat. split; [lia|reflexivity].
    + exists 1%nat. split; [lia|reflexivity].
Qed.
End EarlyExit.

(** C6.  Let window number k (counted from 1) have a blocked score above
    0.85, with k >= ceil(total * 0.5).  Then no window after it is
    processed: [computeEmbedding] is called for a prefix of the first k
    windows only.  And when the loop reaches window k, that is, when the
    windows before it are scored without leaving the loop, the loop ends
    there: the embedding was computed for exactly the first k windows,
    the two score lists hold exactly the first k scores, and these are
    the lists that are pooled. *)
Theorem early_exit_stops_processing
    (provider : EmbeddingModelSingleton) (cache : gmap string (list float))
    (blockedKeywords allowedKeywords : list string)
    (before : list SlidingWindow) (window : SlidingWindow) (after : list SlidingWindow)
    (blocked allowed : float) :
  let windows := before ++ window :: after in
  let k := S (length before) in
  let score := windowScores provider cache blockedKeywords allowedKeywords in
  let loop :=
    processWindows provider cache blockedKeywords allowedKeywords
      (length windows) windows [] [] [] in
  score window = Returned (blocked, allowed) ->
  PrimFloat.ltb 0.85 blocked = true ->
  ((length windows + 1) / 2 <= k)%nat ->
  (exists m : nat, (m <= k)%nat /\ snd loop = text <$> take m windows) /\
  (forall scores : list (float * float),
     Forall2 (fun w sc => score w = Returned sc) before scores ->
     (forall (j : nat) sc, scores !! j = Some sc ->
        earlyExit sc.1 (S j) (length windows) = false) ->
     loop = (Returned (scores.*1 ++ [blocked], scores.*2 ++ [allowed]),
             text <$> (before ++ [window])) /\
     length (scores.*1 ++ [blocked]) = k /\
     length (scores.*2 ++ [allowed]) = k /\
     (forall page : string,
        createSlidingWindows (S (length (tokenize page))) page 512 128 =
          Returned windows ->
        aggregate provider cache page blockedKeywords allowedKeywords =
        Returned
          {| blockedSimilarity := calculate75thPercentile (scores.*1 ++ [blocked]);
             allowedSimilarity := calculate75thPercentile (scores.*2 ++ [allowed]);
             shouldBlock :=
               decideShouldBlock (calculate75thPercentile (scores.*1 ++ [blocked]))
                                 (calculate75thPercentile (scores.*2 ++ [allowed])) |})).
Proof.
  intros windows k score loop Hw Hhigh Hhalf.
  assert (Hexit : earlyExit blocked k (length windows) = true).
  { unfold earlyExit. rewrite Hhigh. apply Nat.leb_le. exact Hhalf. }
  split.
  - destruct (processWindows_stops_at provider cache blockedKeywords allowedKeywords
                (length windows) before window after blocked allowed [] [] [] Hw Hexit)
      as (m & Hm & Heq).
    exists m. split; [exact Hm|exact Heq].
  - intros scores Hscored Hstay.
    assert (Hlen : length scores = length before)
      by (symmetry; eapply Forall2_length; eassumption).
    assert (Hloop :
      loop = (Returned (scores.*1 ++ [blocked], scores.*2 ++ [allowed]),
              text <$> (before ++ [window]))).
    { subst loop windows.
      rewrite (processWindows_passes_over provider cache blockedKeywords allowedKeywords
                 _ before scores (window :: after) [] [] [] Hscored Hstay).
      simpl. subst score. rewrite Hw.
      rewrite length_app, length_fmap.
      replace (length scores + length [blocked])%nat with k by (subst k; simpl; lia).
      rewrite Hexit, fmap_app. reflexivity. }
    split; [exact Hloop|]. split; [|split].
    + rewrite length_app, length_fmap. simpl. subst k. lia.
    + rewrite length_app, length_fmap. simpl. subst k. lia.
    + intros page Hpage. unfold aggregate. rewrite Hpage. simpl.
      fold windows. fold loop. rewrite Hloop. reflexivity.
Qed.

Lemma early_exit_stops_processing_witness :
  processWindows demoProvider demoCache ["gaming"] [] 3
    [mkWindow "work" 0 1; mkWindow "game" 1 2; mkWindow "rest" 2 3] [] [] [] =
    (Returned ([0; 1]%float, [0; 0]%float), ["work"; "game"]).
Proof.
  refine (proj1 (proj2 (early_exit_stops_processing demoProvider demoCache ["gaming"] []
            [mkWindow "work" 0 1] (mkWindow "game" 1 2) [mkWindow "rest" 2 3]
            1%float 0%float _ _ _) [(0, 0)%float] _ _)).
  - vm_compute. reflexivity.
  - vm_compute. reflexivity.
  - vm_compute. lia.
  - repeat constructor.
  - intros [|j] sc Hj; [|destruct j; discriminate].
    injection Hj as <-. vm_compute. reflexivity.
Defined.

(* ================================================================== *)
(** ** Further properties of the tokenizer *)
(* ================================================================== *)
Lemma toLowerCaseChar_idempotent c :
  toLowerCaseChar (toLowerCaseChar c) = toLowerCaseChar c.
Proof.
  destruct c as [[] [] [] [] [] [] [] []]; reflexivity.
Qed.

Lemma toLowerCase_chars s :
  Forall (fun c => toLowerCaseChar c = c) (list_ascii_of_string (toLowerCase s)).
Proof.
  induction s as [|c s IH]; simpl; constructor; auto using toLowerCaseChar_idempotent.
Qed.

Lemma append_cons c (s t : string) :
  (String c s ++ t)%string = String c (s ++ t)%string.
Proof. reflexivity. Qed.

Lemma append_empty_l (t : string) : (EmptyString ++ t)%string = t.
Proof. reflexivity. Qed.

Lemma append_empty_r (s : string) : (s ++ EmptyString)%string = s.
Proof.
  induction s as [|c s IH]; [reflexivity | now rewrite append_cons, IH].
Qed.

Lemma append_assoc (s t u : string) :
  ((s ++ t) ++ u)%string = (s ++ (t ++ u))%string.
Proof.
  induction s as [|c s IH]; [reflexivity | now rewrite !append_cons, IH].
Qed.

Lemma list_ascii_of_string_app (s t : string) :
  list_ascii_of_string (s ++ t)%string
  = list_ascii_of_string s ++ list_ascii_of_string t.
Proof.
  induction s as [|c s IH]; [reflexivity|].
  rewrite append_cons. simpl. now rewrite IH.
Qed.

(** Every piece of a split is made of the code units read, none of them
    white space. *)
Lemma splitWhiteSpace_pieces s : forall piece inSeparator,
  Forall (fun c => toLowerCaseChar c = c) (list_ascii_of_string s) ->
  Forall tokenChar (list_ascii_of_string piece) ->
  Forall (fun token => Forall tokenChar (list_ascii_of_string token))
         (splitWhiteSpace s piece inSeparator).
Proof.
  induction s as [|c s IH]; intros piece inSeparator Hlow Hpiece; simpl.
  - constructor; [exact Hpiece | constructor].
  - inversion Hlow as [|? ? Hc Hs]; subst.
    destruct (isWhiteSpace c) eqn:Hw.
    + destruct inSeparator.
      * apply IH; [exact Hs | constructor].
      * constructor; [exact Hpiece|]. apply IH; [exact Hs | constructor].
    + apply IH; [exact Hs|].
      rewrite list_ascii_of_string_app. apply Forall_app. split; [exact Hpiece|].
      simpl. constructor; [split; assumption | constructor].
Qed.

Lemma length_zero_empty (s : string) : (0 <? String.length s)%nat = true <-> s <> EmptyString.
Proof.
  destruct s; split; intro H; try reflexivity; try congruence.
  vm_compute in H. discriminate.
Qed.

Lemma tokens_of_tokenize text : Forall isToken (tokenize text).
Proof.
  unfold tokenize.
  pose proof (splitWhiteSpace_pieces (toLowerCase text) EmptyString false
                (toLowerCase_chars text) (List.Forall_nil _)) as Hpieces.
  induction Hpieces as [|token pieces Htoken _ IH]; simpl.
  - constructor.
  - destruct (0 <? String.length token)%nat eqn:Hlen.
    + rewrite filter_cons_True by (rewrite Hlen; exact I).
      constructor; [|exact IH]. split; [|exact Htoken]. now apply length_zero_empty.
    + rewrite filter_cons_False by (rewrite Hlen; intros []). exact IH.
Qed.

Lemma toLowerCase_fixed s :
  Forall (fun c => toLowerCaseChar c = c) (list_ascii_of_string s) ->
  toLowerCase s = s.
Proof.
  induction s as [|c s IH]; simpl; intros H; [reflexivity|].
  inversion H; subst. f_equal; auto.
Qed.

Lemma join_cons token tokens :
  join (token :: tokens) =
  match tokens with
  | [] => token
  | _ => (token ++ String " " (join tokens))%string
  end.
Proof. destruct tokens; reflexivity. Qed.

Lemma join_chars tokens :
  Forall isToken tokens ->
  Forall (fun c => toLowerCaseChar c = c) (list_ascii_of_string (join tokens)).
Proof.
  induction 1 as [|token tokens [_ Htoken] Htokens IH]; [constructor|].
  assert (Hlow : Forall (fun c => toLowerCaseChar c = c) (list_ascii_of_string token)).
  { eapply Forall_impl; [exact Htoken|]. intros c [_ Hc]. exact Hc. }
  rewrite join_cons. destruct tokens as [|next tokens]; [exact Hlow|].
  rewrite list_ascii_of_string_app. apply Forall_app. split; [exact Hlow|].
  simpl. constructor; [reflexivity | exact IH].
Qed.

Lemma splitWhiteSpace_step c rest piece inSeparator :
  isWhiteSpace c = false ->
  splitWhiteSpace (String c rest) piece inSeparator =
  splitWhiteSpace rest (piece ++ String c EmptyString) false.
Proof. intros Hc. simpl. rewrite Hc. reflexivity. Qed.

(** Reading a run of code units that are not white space extends the
    piece being read. *)
Lemma splitWhiteSpace_run run : forall c rest piece inSeparator,
  Forall tokenChar (list_ascii_of_string (String c run)) ->
  splitWhiteSpace (String c run ++ rest) piece inSeparator =
  splitWhiteSpace rest (piece ++ String c run) false.
Proof.
  induction run as [|d run IH]; intros c rest piece inSeparator Hrun;
    inversion Hrun as [|? ? [Hc _] Hrest]; subst.
  - rewrite append_cons, append_empty_l.
    apply splitWhiteSpace_step. exact Hc.
  - rewrite append_cons, (splitWhiteSpace_step c _ _ _ Hc).
    rewrite (IH d rest _ false Hrest). f_equal.
    rewrite append_assoc. reflexivity.
Qed.

Lemma splitWhiteSpace_join tokens : forall token inSeparator,
  Forall isToken (token :: tokens) ->
  splitWhiteSpace (join (token :: tokens)) EmptyString inSeparator = token :: tokens.
Proof.
  induction tokens as [|next tokens IH]; intros token inSeparator Htokens;
    inversion Htokens as [|? ? [Hne Hchars] Hrest]; subst;
    destruct token as [|c run]; try congruence.
  - rewrite join_cons.
    rewrite <- (append_empty_r (String c run)) at 1.
    rewrite splitWhiteSpace_run by exact Hchars. reflexivity.
  - rewrite join_cons, splitWhiteSpace_run by exact Hchars.
    rewrite append_empty_l. simpl. f_equal. apply IH. exact Hrest.
Qed.

Lemma filter_tokens tokens :
  Forall isToken tokens ->
  filter (fun token => (0 <? String.length token)%nat) tokens = tokens.
Proof.
  induction 1 as [|token tokens [Hne _] _ IH]; [reflexivity|].
  rewrite filter_cons_True; [now rewrite IH|].
  apply Is_true_true, length_zero_empty. exact Hne.
Qed.

Lemma tokenize_of_join tokens :
  Forall isToken tokens -> tokenize (join tokens) = tokens.
Proof.
  intros Htokens. unfold tokenize.
  rewrite toLowerCase_fixed by (apply join_chars; exact Htokens).
  destruct tokens as [|token tokens]; [reflexivity|].
  rewrite splitWhiteSpace_join by exact Htokens.
  apply filter_tokens. exact Htokens.
Qed.

Section WindowPositions.
Variables (tokens : list string) (windowSize stride : Z).
Let n := Z.of_nat (length tokens).
Hypothesis window_positive : (0 < windowSize)%Z.
Hypothesis stride_positive : (0 < stride)%Z.

(** The windows the loop pushes from index [i] on: the [j]-th starts
    [j] strides after [i] and is cut at the end of the tokens; a window
    that has a successor is full. *)
Lemma windowLoop_positions fuel : forall i windows result,
  (0 <= i)%Z ->
  windowLoop fuel tokens windowSize stride i windows = Returned result ->
  exists more,
    result = windows ++ more /\
    forall (j : nat) w, more !! j = Some w ->
      startIndex w = (i + Z.of_nat j * stride)%Z /\
      endIndex w = Z.min (startIndex w + windowSize) n /\
      (startIndex w < n)%Z /\
      (is_Some (more !! S j) -> endIndex w = (startIndex w + windowSize)%Z).
Proof.
  induction fuel as [|fuel IH]; intros i windows result Hi Hrun; [discriminate|].
  simpl in Hrun. fold n in Hrun.
  destruct (Z.ltb_spec i n) as [Hin|Hin].
  - pose proof (slice_length_forward tokens i windowSize Hi ltac:(lia)) as Hlen.
    fold n in Hlen.
    set (windowTokens := slice tokens i (i + windowSize)) in *.
    destruct (Z.ltb_spec (4 * Z.of_nat (length windowTokens)) windowSize)
      as [Hsmall|Hbig].
    + injection Hrun as <-. exists []. rewrite app_nil_r. split; [reflexivity|].
      intros j w Hw. destruct j; discriminate.
    + set (w0 := {| text := join windowTokens; startIndex := i;
                    endIndex := (i + Z.of_nat (length windowTokens))%Z |}) in *.
      destruct (Z.leb_spec n (i + windowSize)) as [Hend|Hmore].
      * injection Hrun as <-. exists [w0]. split; [reflexivity|].
        intros [|j] w Hw; [|destruct j; discriminate].
        injection Hw as <-. simpl. repeat split; try lia.
        intros [w' Hw']. discriminate.
      * apply IH in Hrun; [|lia]. destruct Hrun as (more & -> & Hmore').
        exists (w0 :: more). rewrite <- app_assoc. split; [reflexivity|].
        intros [|j] w Hw.
        -- injection Hw as <-. simpl. repeat split; lia.
        -- simpl in Hw. destruct (Hmore' j w Hw) as (Hs & He & Hlt & Hfull).
           repeat split; [lia|exact He|exact Hlt|exact Hfull].
  - injection Hrun as <-. exists []. rewrite app_nil_r. split; [reflexivity|].
    intros j w Hw. destruct j; discriminate.
Qed.
End WindowPositions.

Section WindowCover.
Variables (tokens : list string) (windowSize overlap : Z).
Let n := Z.of_nat (length tokens).
Hypothesis overlap_range : (0 <= overlap < windowSize)%Z.
Hypothesis overlap_quarter : (windowSize <= 4 * (overlap + 1))%Z.

(** When a slice of [overlap + 1] tokens is never too small, the
    windows pushed from index [i] on hold every token from [i] on. *)
Lemma windowLoop_covers fuel : forall i windows,
  (0 <= i)%Z -> (i + overlap < n)%Z -> (Z.to_nat (n - i) < fuel)%nat ->
  exists more,
    windowLoop fuel tokens windowSize (windowSize - overlap) i windows
      = Returned (windows ++ more) /\
    forall t, (i <= t < n)%Z ->
      exists w, In w more /\ (startIndex w <= t < endIndex w)%Z.
Proof.
  induction fuel as [|fuel IH]; intros i windows Hi Hrem Hfuel; [lia|].
  simpl. fold n.
  destruct (Z.ltb_spec i n) as [Hin|Hin]; [|lia].
  pose proof (slice_length_forward tokens i windowSize Hi ltac:(lia)) as Hlen.
  fold n in Hlen.
  set (windowTokens := slice tokens i (i + windowSize)) in *.
  destruct (Z.ltb_spec (4 * Z.of_nat (length windowTokens)) windowSize)
    as [Hsmall|Hbig]; [lia|].
  set (w0 := {| text := join windowTokens; startIndex := i;
                endIndex := (i + Z.of_nat (length windowTokens))%Z |}).
  destruct (Z.leb_spec n (i + windowSize)) as [Hend|Hmore].
  - exists [w0]. split; [reflexivity|].
    intros t Ht. exists w0. split; [left; reflexivity|]. simpl. lia.
  - destruct (IH (i + (windowSize - overlap))%Z (windows ++ [w0]))
      as (more & Heq & Hcover); [lia|lia|lia|].
    exists (w0 :: more). rewrite Heq, <- app_assoc. split; [reflexivity|].
    intros t Ht.
    destruct (Z.lt_ge_cases t (i + windowSize)) as [Hfirst|Hlater].
    + exists w0. split; [left; reflexivity|]. simpl. lia.
    + destruct (Hcover t ltac:(lia)) as (w & Hw & Hspan).
      exists w. split; [right; exact Hw|exact Hspan].
Qed.
End WindowCover.

Lemma slice_whole {A} (array : list A) :
  slice array 0 (Z.of_nat (length array)) = array.
Proof.
  unfold slice.
  destruct (Z.ltb_spec 0 0); [lia|].
  destruct (Z.ltb_spec (Z.of_nat (length array)) 0); [lia|].
  replace (Z.to_nat (Z.min 0 (Z.of_nat (length array)))) with 0%nat by lia.
  rewrite Z.min_id.
  replace (Z.to_nat (Z.of_nat (length array) - Z.min 0 (Z.of_nat (length array))))
    with (length array) by lia.
  simpl. apply firstn_all.
Qed.

Lemma slice_tokens tokens i j :
  Forall isToken tokens -> Forall isToken (slice tokens i j).
Proof.
  intros H. unfold slice. apply Forall_take, Forall_drop. exact H.
Qed.

(** X1.  Every token [tokenize] returns is non-empty, holds no white
    space and is in lower case. *)
Theorem tokenize_yields_tokens (text : string) :
  Forall isToken (tokenize text).
Proof. apply tokens_of_tokenize. Qed.

(** X2.  [tokenize] undoes [join(' ')] on tokens: a list of non-empty,
    white-space-free, lower-case strings joined with single spaces is
    tokenized back into the same list. *)
Theorem tokenize_join_round_trip (tokens : list string) :
  Forall isToken tokens -> tokenize (join tokens) = tokens.
Proof. apply tokenize_of_join. Qed.

Lemma tokenize_join_round_trip_witness :
  Forall isToken ["deep"; "focus"] /\
  tokenize (join ["deep"; "focus"]) = ["deep"; "focus"].
Proof.
  assert (H : Forall isToken ["deep"; "focus"]).
  { repeat constructor; discriminate. }
  split; [exact H | exact (tokenize_join_round_trip ["deep"; "focus"] H)].
Defined.

(** X3.  For 0 < windowSize and overlap < windowSize the windows are
    laid out by the stride: window [j] starts at token
    [j * (windowSize - overlap)] and ends [windowSize] tokens later or at
    the last token, whichever comes first; every window that has a
    successor holds exactly [windowSize] tokens. *)
Theorem createSlidingWindows_window_positions (text : string)
    (windowSize overlap : Z) :
  (0 < windowSize)%Z -> (overlap < windowSize)%Z ->
  exists windows,
    (forall fuel, (length (tokenize text) < fuel)%nat ->
       createSlidingWindows fuel text windowSize overlap = Returned windows) /\
    forall (j : nat) w, windows !! j = Some w ->
      startIndex w = (Z.of_nat j * (windowSize - overlap))%Z /\
      endIndex w = Z.min (startIndex w + windowSize)
                         (Z.of_nat (length (tokenize text))) /\
      (is_Some (windows !! S j) -> (endIndex w - startIndex w)%Z = windowSize).
Proof.
  intros HW HO.
  destruct (createSlidingWindows_returns (S (length (tokenize text))) text
              windowSize overlap HW HO ltac:(lia)) as (windows & Heq & _).
  exists windows. split.
  { intros fuel Hfuel.
    apply (createSlidingWindows_fuel_mono _ _ _ _ _ _ Heq). lia. }
  unfold createSlidingWindows in Heq.
  destruct (Z.leb_spec (Z.of_nat (length (tokenize text))) windowSize) as [Hshort|Hlong].
  - injection Heq as <-. intros [|j] w Hw; [|destruct j; discriminate].
    injection Hw as <-. simpl. repeat split; try lia.
    intros [w' Hw']. discriminate.
  - apply windowLoop_positions in Heq; [|lia|lia|lia].
    destruct Heq as (more & -> & Hmore). simpl.
    intros j w Hw. destruct (Hmore j w Hw) as (Hs & He & _ & Hfull).
    repeat split; [lia|exact He|]. intros Hnext. apply Hfull in Hnext. lia.
Qed.

Lemma createSlidingWindows_window_positions_witness :
  exists windows,
    (forall fuel, (length (tokenize "a b c d e f g") < fuel)%nat ->
       createSlidingWindows fuel "a b c d e f g" 4 2 = Returned windows) /\
    forall (j : nat) w, windows !! j = Some w ->
      startIndex w = (Z.of_nat j * (4 - 2))%Z /\
      endIndex w = Z.min (startIndex w + 4)
                         (Z.of_nat (length (tokenize "a b c d e f g"))) /\
      (is_Some (windows !! S j) -> (endIndex w - startIndex w)%Z = 4%Z).
Proof.
  apply (createSlidingWindows_window_positions "a b c d e f g" 4 2); lia.
Defined.

(** X4.  For 0 < windowSize and overlap < windowSize the text of every
    window is its tokens joined by single spaces: tokenizing it again
    gives back the tokens from startIndex to endIndex, so the window
    holds endIndex - startIndex tokens. *)
Theorem createSlidingWindows_text_round_trip (text : string)
    (windowSize overlap : Z) :
  (0 < windowSize)%Z -> (overlap < windowSize)%Z ->
  exists windows,
    (forall fuel, (length (tokenize text) < fuel)%nat ->
       createSlidingWindows fuel text windowSize overlap = Returned windows) /\
    Forall (fun w =>
              tokenize (Tokenizer.text w)
                = slice (tokenize text) (startIndex w) (endIndex w) /\
              Z.of_nat (length (tokenize (Tokenizer.text w)))
                = (endIndex w - startIndex w)%Z)
           windows.
Proof.
  intros HW HO.
  destruct (createSlidingWindows_returns (S (length (tokenize text))) text
              windowSize overlap HW HO ltac:(lia))
    as (windows & Heq & _ & Hspans & Hvalid).
  exists windows. split.
  { intros fuel Hfuel.
    apply (createSlidingWindows_fuel_mono _ _ _ _ _ _ Heq). lia. }
  assert (Hordered : Forall (fun w => (startIndex w <= endIndex w)%Z) windows).
  { destruct (tokenize text) as [|token tokens] eqn:Htokens.
    - unfold createSlidingWindows in Heq. rewrite Htokens in Heq.
      change (Z.of_nat (length (@nil string))) with 0%Z in Heq.
      destruct (Z.leb_spec 0 windowSize); [|lia].
      injection Heq as <-. repeat constructor. simpl. lia.
    - eapply Forall_impl; [apply Hvalid; discriminate|].
      unfold validWindow. simpl. lia. }
  rewrite Forall_forall in *. intros w Hw.
  destruct (Hspans w Hw) as (Hs & He & Htext). specialize (Hordered w Hw).
  assert (Hround : tokenize (Tokenizer.text w)
                   = slice (tokenize text) (startIndex w) (endIndex w)).
  { rewrite Htext. apply tokenize_of_join, slice_tokens, tokens_of_tokenize. }
  split; [exact Hround|]. rewrite Hround.
  replace (endIndex w) with (startIndex w + (endIndex w - startIndex w))%Z at 1 by lia.
  rewrite slice_length_forward by lia. lia.
Qed.

Lemma createSlidingWindows_text_round_trip_witness :
  exists windows,
    (forall fuel, (length (tokenize "Deep  Focus Now") < fuel)%nat ->
       createSlidingWindows fuel "Deep  Focus Now" 2 1 = Returned windows) /\
    Forall (fun w =>
              tokenize (Tokenizer.text w)
                = slice (tokenize "Deep  Focus Now") (startIndex w) (endIndex w) /\
              Z.of_nat (length (tokenize (Tokenizer.text w)))
                = (endIndex w - startIndex w)%Z)
           windows.
Proof.
  apply (createSlidingWindows_text_round_trip "Deep  Focus Now" 2 1); lia.
Defined.

(** X5.  With 0 <= overlap < windowSize and
    windowSize <= 4 * (overlap + 1), as in the 512/128 configuration, no
    token is lost: every token index of the text lies inside a window
    that is returned. *)
Theorem createSlidingWindows_covers_every_token (text : string)
    (windowSize overlap : Z) :
  (0 <= overlap < windowSize)%Z ->
  (windowSize <= 4 * (overlap + 1))%Z ->
  exists windows,
    (forall fuel, (length (tokenize text) < fuel)%nat ->
       createSlidingWindows fuel text windowSize overlap = Returned windows) /\
    forall t, (0 <= t < Z.of_nat (length (tokenize text)))%Z ->
      exists w, In w windows /\ (startIndex w <= t < endIndex w)%Z.
Proof.
  intros HO Hquarter.
  set (tokens := tokenize text).
  destruct (Z.leb_spec (Z.of_nat (length tokens)) windowSize) as [Hshort|Hlong].
  - eexists. split.
    + intros fuel _. unfold createSlidingWindows. fold tokens.
      destruct (Z.leb_spec (Z.of_nat (length tokens)) windowSize); [reflexivity|lia].
    + intros t Ht. eexists. split; [left; reflexivity|]. simpl. lia.
  - destruct (windowLoop_covers tokens windowSize overlap HO Hquarter
                (S (length tokens)) 0 []) as (windows & Heq & Hcover); [lia|lia|lia|].
    exists windows. split; [|exact Hcover].
    intros fuel Hfuel. unfold createSlidingWindows. fold tokens.
    destruct (Z.leb_spec (Z.of_nat (length tokens)) windowSize); [lia|].
    apply (windowLoop_fuel_mono _ _ _ _ _ _ _ _ Heq). lia.
Qed.

Lemma createSlidingWindows_covers_every_token_witness :
  exists windows,
    (forall fuel, (length (tokenize "a b c d e f g") < fuel)%nat ->
       createSlidingWindows fuel "a b c d e f g" 4 2 = Returned windows) /\
    forall t, (0 <= t < Z.of_nat (length (tokenize "a b c d e f g")))%Z ->
      exists w, In w windows /\ (startIndex w <= t < endIndex w)%Z.
Proof.
  apply (createSlidingWindows_covers_every_token "a b c d e f g" 4 2); lia.
Defined.

Lemma string_of_list_ascii_app (a b : list ascii) :
  string_of_list_ascii (a ++ b)
  = (string_of_list_ascii a ++ string_of_list_ascii b)%string.
Proof.
  induction a as [|c a IH]; [reflexivity|].
  simpl. rewrite IH, append_cons. reflexivity.
Qed.

Lemma length_string_of_list_ascii (a : list ascii) :
  String.length (string_of_list_ascii a) = length a.
Proof. induction a as [|c a IH]; simpl; [reflexivity | now rewrite IH]. Qed.

Lemma length_list_ascii_of_string (s : string) :
  length (list_ascii_of_string s) = String.length s.
Proof. induction s as [|c s IH]; simpl; [reflexivity | now rewrite IH]. Qed.

(** [s.slice(0, stop)] is a prefix of [s]. *)
Lemma sliceString_prefix s stop :
  exists rest,
    s = (sliceString s 0 stop ++ rest)%string /\
    ((0 <= stop)%Z ->
     Z.of_nat (String.length (sliceString s 0 stop))
     = Z.min stop (Z.of_nat (String.length s))).
Proof.
  unfold sliceString, slice.
  rewrite length_list_ascii_of_string.
  set (len := Z.of_nat (String.length s)).
  destruct (Z.ltb_spec 0 0); [lia|].
  replace (Z.to_nat (Z.min 0 len)) with 0%nat by lia.
  change (skipn 0 (list_ascii_of_string s)) with (list_ascii_of_string s).
  set (k := Z.to_nat ((if (stop <? 0)%Z then Z.max (len + stop) 0 else Z.min stop len)
                      - Z.min 0 len)).
  exists (string_of_list_ascii (skipn k (list_ascii_of_string s))). split.
  - rewrite <- string_of_list_ascii_app, firstn_skipn.
    symmetry. apply string_of_list_ascii_of_string.
  - intros Hstop. rewrite length_string_of_list_ascii, length_firstn.
    rewrite length_list_ascii_of_string. subst k. fold len.
    destruct (Z.ltb_spec stop 0); lia.
Qed.

(** X6.  [extractVisibleText] returns the empty string where there is
    no document or no body; otherwise it returns a prefix of the text of
    the body, of min(maxLength, length of the text) code units when
    maxLength is not negative. *)
Theorem extractVisibleText_prefix (document : option Document) (maxLength : Z) :
  match document with
  | None => extractVisibleText document maxLength = ""
  | Some page =>
      match bodyInnerText page with
      | None => extractVisibleText document maxLength = ""
      | Some innerText =>
          exists rest,
            innerText = (extractVisibleText document maxLength ++ rest)%string /\
            ((0 <= maxLength)%Z ->
             Z.of_nat (String.length (extractVisibleText document maxLength))
             = Z.min maxLength (Z.of_nat (String.length innerText)))
      end
  end.
Proof.
  destruct document as [[[innerText|]]|]; simpl.
  - apply sliceString_prefix.
  - unfold sliceString, slice. simpl.
    destruct (maxLength <? 0)%Z; simpl; rewrite firstn_nil; reflexivity.
  - reflexivity.
Qed.

(** The element [calculate75thPercentile] picks, for a list that is not
    empty. *)
Lemma calculate75thPercentile_nth values :
  values <> [] ->
  calculate75thPercentile values
  = nth (length values / 4) (sort byDescending values) nan /\
  (length values / 4 < length (sort byDescending values))%nat.
Proof.
  intros Hne.
  assert (Hlen : length (sort byDescending values) = length values)
    by (apply Permutation_length, sort_permutation).
  split.
  - destruct values as [|v0 [|v1 rest]]; [congruence|reflexivity|].
    unfold calculate75thPercentile. cbv zeta. fold byDescending.
    rewrite Hlen. reflexivity.
  - rewrite Hlen. apply Nat.div_lt; [|lia].
    destruct values; [congruence|simpl; lia].
Qed.

Lemma calculate75thPercentile_in values :
  (values = [] /\ calculate75thPercentile values = 0%float) \/
  In (calculate75thPercentile values) values.
Proof.
  destruct values as [|v0 rest] eqn:Hvalues; [left; split; reflexivity|right].
  rewrite <- Hvalues.
  destruct (calculate75thPercentile_nth values) as [-> Hidx]; [subst; discriminate|].
  eapply Permutation_in; [apply (sort_permutation byDescending)|].
  apply nth_In. exact Hidx.
Qed.

(** X7.  The pooled score of a list that is not empty is one of its
    elements (so any bound that holds for every score holds for the
    pooled score); the pooled score of the empty list is 0. *)
Theorem calculate75thPercentile_member (values : list float) :
  (values = [] /\ calculate75thPercentile values = 0%float) \/
  In (calculate75thPercentile values) values.
Proof. apply calculate75thPercentile_in. Qed.

Lemma ltb_irrefl_leb x y :
  PrimFloat.leb y x = true -> PrimFloat.ltb x y = false.
Proof.
  intros Hle. destruct (PrimFloat.ltb x y) eqn:Hlt; [|reflexivity].
  apply ltb_rank in Hlt. apply leb_rank in Hle.
  destruct Hlt as (_ & _ & Hlt), Hle as (_ & _ & [Hle|Hle]).
  - unfold rank_lt in *. lia.
  - rewrite Hle in Hlt. unfold rank_lt in *. lia.
Qed.

Lemma leb_refl x : isNaN x = false -> PrimFloat.leb x x = true.
Proof.
  intros Hx. apply isNaN_false in Hx. apply leb_rank. tauto.
Qed.

(** In a list sorted from the largest to the smallest, at most [k]
    elements exceed the element at index [k], and more than [k] reach it. *)
Lemma descending_rank sorted :
  descending sorted -> Forall (fun v => isNaN v = false) sorted ->
  forall (k : nat) p, sorted !! k = Some p ->
    (length (filter (fun v => PrimFloat.ltb p v = true) sorted) <= k)%nat /\
    (k < length (filter (fun v => PrimFloat.leb p v = true) sorted))%nat.
Proof.
  unfold descending.
  induction 1 as [|x rest Hrest IH Hx]; intros Hnum k p Hk; [destruct k; discriminate|].
  apply Forall_cons_1 in Hnum as [Hxnum Hnum].
  destruct k as [|k]; simpl in Hk.
  - injection Hk as <-. split.
    + rewrite filter_cons_False
        by (rewrite ltb_irrefl_leb by (apply leb_refl; exact Hxnum); discriminate).
      assert (Hnone : filter (fun v => PrimFloat.ltb x v = true) rest = []).
      { clear IH Hrest Hnum. induction Hx as [|y rest Hy _ IH]; [reflexivity|].
        rewrite filter_cons_False by (rewrite (ltb_irrefl_leb _ _ Hy); discriminate).
        exact IH. }
      rewrite Hnone. simpl. lia.
    + rewrite filter_cons_True by (apply leb_refl; exact Hxnum). simpl. lia.
  - destruct (IH Hnum k p Hk) as [Hgt Hge]. split.
    + destruct (PrimFloat.ltb p x) eqn:Hpx.
      * rewrite filter_cons_True by exact Hpx. simpl. lia.
      * rewrite filter_cons_False by (rewrite Hpx; discriminate). lia.
    + assert (Hp : PrimFloat.leb p x = true).
      { rewrite Forall_forall in Hx. apply Hx.
        eapply list_elem_of_lookup_2. exact Hk. }
      rewrite filter_cons_True by exact Hp. simpl. lia.
Qed.

(** X8.  Among scores that are numbers, at most a quarter (rounded
    down) exceed the pooled score, and more than a quarter reach it: the
    pooled score is the upper quartile that one strong window cannot
    move. *)
Theorem calculate75thPercentile_upper_quartile (values : list float) :
  Forall (fun v => isNaN v = false) values ->
  values <> [] ->
  let pooled := calculate75thPercentile values in
  (length (filter (fun v => PrimFloat.ltb pooled v = true) values)
     <= length values / 4)%nat /\
  (length values / 4
     < length (filter (fun v => PrimFloat.leb pooled v = true) values))%nat.
Proof.
  intros Hnum Hne pooled.
  destruct (calculate75thPercentile_nth values Hne) as [Hpooled Hidx].
  pose proof (sort_permutation byDescending values) as Hperm.
  assert (Hlookup : sort byDescending values !! (length values / 4)%nat = Some pooled).
  { apply lookup_lt_is_Some_2 in Hidx. destruct Hidx as [v Hv].
    rewrite Hv. f_equal. subst pooled. rewrite Hpooled.
    apply nth_lookup_Some with (d := nan) in Hv. symmetry. exact Hv. }
  destruct (descending_rank (sort byDescending values)
              (sort_descending values Hnum)
              ltac:(rewrite Hperm; exact Hnum) _ _ Hlookup) as [Hgt Hge].
  rewrite Hperm in Hgt, Hge. split; assumption.
Qed.

Lemma calculate75thPercentile_upper_quartile_witness :
  let values := [0.9; 0.1; 0.4; 0.2; 0.3]%float in
  let pooled := calculate75thPercentile values in
  (length (filter (fun v => PrimFloat.ltb pooled v = true) values)
     <= length values / 4)%nat /\
  (length values / 4
     < length (filter (fun v => PrimFloat.leb pooled v = true) values))%nat.
Proof.
  apply (calculate75thPercentile_upper_quartile [0.9; 0.1; 0.4; 0.2; 0.3]%float).
  - repeat constructor.
  - discriminate.
Defined.

(* ================================================================== *)
(** ** Further properties of the embedding provider *)
(* ================================================================== *)

(** Binary64 multiplication is commutative (NaN included: there is one
    NaN). *)
Lemma mul_comm (x y : float) : (x * y = y * x)%float.
Proof.
  apply Prim2SF_inj. rewrite !mul_spec. unfold SF64mul, SFmul.
  destruct (Prim2SF x) as [sx|sx| |sx mx ex], (Prim2SF y) as [sy|sy| |sy my ey];
    try reflexivity; rewrite (xorb_comm sx sy); try reflexivity.
  rewrite (Pos.mul_comm mx my), (Z.add_comm ex ey). reflexivity.
Qed.

Lemma cosineSums_swap a : forall b dotProduct normA normB,
  cosineSums b a dotProduct normB normA =
  let '(dot, sumA, sumB) := cosineSums a b dotProduct normA normB in
  (dot, sumB, sumA).
Proof.
  induction a as [|ai a IH]; intros [|bi b] dotProduct normA normB; try reflexivity.
  simpl. rewrite IH, (mul_comm bi ai). reflexivity.
Qed.

(** X9.  [cosineSimilarity] is symmetric: swapping the two embeddings
    changes neither the value returned nor the dimension error. *)
Theorem cosineSimilarity_symmetric (a b : list float) :
  cosineSimilarity a b = cosineSimilarity b a.
Proof.
  unfold cosineSimilarity.
  rewrite (Nat.eqb_sym (length b) (length a)).
  destruct (length a =? length b)%nat; [|reflexivity]. cbn [negb].
  rewrite (cosineSums_swap a b).
  destruct (cosineSums a b 0 0 0) as [[dotProduct normA] normB].
  rewrite (mul_comm (PrimFloat.sqrt normB) (PrimFloat.sqrt normA)). reflexivity.
Qed.

(** X10.  From an instance without a model and with no load in flight,
    [initialize] settles and leaves no load in flight.  When it returns
    the model is installed, the status is 'ready' and there is no error;
    when it throws, [getError] is the message of the error ('Unknown
    error' for a value that is not an Error), and the status is 'error'
    unless that message is empty. *)
Theorem initialize_outcome (load : settled Pipeline)
    (polls : list EmbeddingModelSingleton) (this : EmbeddingModelSingleton) :
  model this = None -> isLoading this = false ->
  let '(outcome, after) := initialize load polls this in
  isLoading after = false /\
  match outcome with
  | Returned _ =>
      is_Some (model after) /\ getStatus after = ready /\ getError after = None
  | Thrown e =>
      getError after = Some (messageOf e) /\
      (getStatus after = error <-> messageOf e <> EmptyString)
  | Pending => False
  end.
Proof.
  intros Hmodel Hidle. unfold initialize. rewrite Hmodel, Hidle.
  assert (Hstatus : forall (installed : option Pipeline) e,
            getStatus {| model := installed; isLoading := false;
                         loadError := Some (messageOf e) |} = error
            <-> messageOf e <> EmptyString).
  { intros installed e. unfold getStatus. simpl.
    destruct (messageOf e) as [|c rest]; simpl.
    - destruct installed; split; congruence.
    - split; [discriminate|reflexivity]. }
  destruct load as [loaded|e].
  - destruct (loaded "warmup text") as [output|e].
    + split; [reflexivity|]. repeat split. eexists; reflexivity.
    + split; [reflexivity|]. split; [reflexivity|apply Hstatus].
  - split; [reflexivity|]. split; [reflexivity|apply Hstatus].
Qed.

Lemma initialize_outcome_witness :
  let '(outcome, after) :=
    initialize (Rejected (JsError "offline")) [] newInstance in
  isLoading after = false /\
  match outcome with
  | Returned _ =>
      is_Some (model after) /\ getStatus after = ready /\ getError after = None
  | Thrown e =>
      getError after = Some (messageOf e) /\
      (getStatus after = error <-> messageOf e <> EmptyString)
  | Pending => False
  end.
Proof.
  apply (initialize_outcome (Rejected (JsError "offline")) [] newInstance);
    reflexivity.
Defined.

(** X11.  A warm-up inference that fails leaves the model installed:
    every later [initialize] returns at once without loading again and
    without touching the instance, so [getStatus] keeps answering
    'error' (for an error with a message), while [computeEmbedding] runs
    the model on any text that is not blank. *)
Theorem initialize_warmup_failure_sticks (loaded : Pipeline) (e : thrown)
    (polls : list EmbeddingModelSingleton) (this : EmbeddingModelSingleton) :
  model this = None -> isLoading this = false ->
  loaded "warmup text" = Rejected e ->
  messageOf e <> EmptyString ->
  let after := snd (initialize (Fulfilled loaded) polls this) in
  fst (initialize (Fulfilled loaded) polls this) = Thrown e /\
  (forall load' polls', initialize load' polls' after = (Returned tt, after)) /\
  getStatus after = error /\
  (forall text, isBlank text = false ->
     computeEmbedding after text = await (loaded text)).
Proof.
  intros Hmodel Hidle Hwarm Hmessage. unfold initialize.
  rewrite Hmodel, Hidle, Hwarm. simpl.
  split; [reflexivity|]. split; [reflexivity|]. split.
  - unfold getStatus. simpl. destruct (messageOf e); [congruence|reflexivity].
  - intros text Hblank. unfold computeEmbedding. simpl. rewrite Hblank.
    destruct (loaded text); reflexivity.
Qed.

Lemma initialize_warmup_failure_sticks_witness :
  let loaded : Pipeline :=
    fun text => if String.eqb text "warmup text"
                then Rejected (JsError "out of memory")
                else Fulfilled [1%float] in
  let after := snd (initialize (Fulfilled loaded) [] newInstance) in
  fst (initialize (Fulfilled loaded) [] newInstance)
    = Thrown (JsError "out of memory") /\
  (forall load' polls', initialize load' polls' after = (Returned tt, after)) /\
  getStatus after = error /\
  (forall text, isBlank text = false ->
     computeEmbedding after text = await (loaded text)).
Proof.
  apply (initialize_warmup_failure_sticks
           (fun text => if String.eqb text "warmup text"
                        then Rejected (JsError "out of memory")
                        else Fulfilled [1%float])
           (JsError "out of memory") [] newInstance);
    try reflexivity.
  discriminate.
Defined.

(** X12.  A load that fails leaves no model behind, so the next
    [initialize] loads again, and its outcome bears no trace of the
    failure: it is the outcome of a first attempt. *)
Theorem initialize_retries_after_failed_load (e : thrown)
    (polls : list EmbeddingModelSingleton) (this : EmbeddingModelSingleton) :
  model this = None -> isLoading this = false ->
  let failed := snd (initialize (Rejected e) polls this) in
  model failed = None /\ isLoading failed = false /\
  getError failed = Some (messageOf e) /\
  forall load' polls',
    initialize load' polls' failed = initialize load' polls' this.
Proof.
  intros Hmodel Hidle. unfold initialize.
  rewrite Hmodel, Hidle. simpl. repeat split.
Qed.

Lemma initialize_retries_after_failed_load_witness :
  let failed := snd (initialize (Rejected NonError) [] newInstance) in
  model failed = None /\ isLoading failed = false /\
  getError failed = Some (messageOf NonError) /\
  forall load' polls',
    initialize load' polls' failed = initialize load' polls' newInstance.
Proof.
  apply (initialize_retries_after_failed_load NonError [] newInstance);
    reflexivity.
Defined.

(* ================================================================== *)
(** ** Further properties of the page similarity *)
(* ================================================================== *)

Lemma unitScore_zero : unitScore 0.
Proof. right. split; reflexivity. Qed.

Lemma clamp_unit q : unitScore (clamp q).
Proof.
  destruct (isNaN q) eqn:Hq.
  - left. rewrite (clamp_nan q Hq). reflexivity.
  - right.
    destruct (clamp_cases q Hq) as [[_ ->]|[[_ ->]|(Hlo & Hhi & Heq)]];
      [split; reflexivity|split; reflexivity|].
    apply eqb_rank in Heq. destruct Heq as (Hc & _ & Hrank).
    apply leb_rank in Hlo, Hhi. split; apply leb_rank; rewrite Hrank; tauto.
Qed.

Lemma cosineSimilarity_unit a b r :
  cosineSimilarity a b = Returned r -> unitScore r.
Proof.
  unfold cosineSimilarity.
  destruct (negb _); [discriminate|].
  destruct (cosineSums a b 0 0 0) as [[dotProduct normA] normB].
  destruct (PrimFloat.eqb _ _); intros H; injection H as <-.
  - apply unitScore_zero.
  - apply clamp_unit.
Qed.

Lemma Math_max_cases x y :
  Math_max x y = nan \/ Math_max x y = x \/ Math_max x y = y.
Proof.
  unfold Math_max.
  destruct (isNaN x || isNaN y); [tauto|].
  destruct (PrimFloat.ltb x y); [tauto|].
  destruct (PrimFloat.ltb y x); [tauto|].
  destruct (classify x); tauto.
Qed.

Lemma Math_max_unit x y : unitScore x -> unitScore y -> unitScore (Math_max x y).
Proof.
  intros Hx Hy.
  destruct (Math_max_cases x y) as [->|[->| ->]]; [left; reflexivity| |]; assumption.
Qed.

Lemma maxSimilarity_unit cache page keywords : forall maxSim r,
  unitScore maxSim ->
  maxSimilarity cache page keywords maxSim = Returned r -> unitScore r.
Proof.
  induction keywords as [|keyword rest IH]; intros maxSim r Hmax; simpl.
  - intros H; injection H as <-. exact Hmax.
  - destruct (getProperty cache keyword) as [found|]; [|apply IH; exact Hmax].
    destruct (similarityTo page found) as [similarity|e|] eqn:Hsim;
      simpl; try discriminate.
    apply IH, Math_max_unit; [exact Hmax|].
    destruct found; simpl in Hsim; try discriminate;
      eapply cosineSimilarity_unit; exact Hsim.
Qed.

(** Keywords under which the read of the cache finds nothing leave the
    running maximum alone. *)
Lemma maxSimilarity_uncached cache page keywords maxSim :
  Forall (fun keyword => getProperty cache keyword = None) keywords ->
  maxSimilarity cache page keywords maxSim = Returned maxSim.
Proof.
  induction 1 as [|keyword rest Hk _ IH]; simpl; [reflexivity|].
  rewrite Hk. exact IH.
Qed.

(** NaN in binary64 arithmetic. *)
Lemma nan_unique x : isNaN x = true -> x = nan.
Proof.
  intros Hx. apply isNaN_spec in Hx. apply Prim2SF_inj. rewrite Hx. reflexivity.
Qed.

Lemma add_nan_l x y : isNaN x = true -> isNaN (x + y) = true.
Proof.
  rewrite !isNaN_spec, add_spec. intros ->. reflexivity.
Qed.

Lemma mul_nan_r x y : isNaN y = true -> isNaN (x * y) = true.
Proof.
  rewrite !isNaN_spec, mul_spec. intros ->.
  destruct (Prim2SF x) as [s|s| |s m e]; reflexivity.
Qed.

Lemma div_nan_r x y : isNaN y = true -> isNaN (x / y) = true.
Proof.
  rewrite !isNaN_spec, div_spec. intros ->.
  destruct (Prim2SF x) as [s|s| |s m e]; reflexivity.
Qed.

Lemma sqrt_nan x : isNaN x = true -> isNaN (PrimFloat.sqrt x) = true.
Proof.
  rewrite !isNaN_spec, sqrt_spec. intros ->. reflexivity.
Qed.

Lemma eqb_nan_l x y : isNaN x = true -> PrimFloat.eqb x y = false.
Proof.
  intros Hx. destruct (PrimFloat.eqb x y) eqn:Heq; [|reflexivity].
  apply eqb_rank in Heq. destruct Heq as (Hnum & _).
  apply isNaN_false in Hnum. congruence.
Qed.

(** Once the running [normB] is NaN it stays NaN, and an entry of [b]
    that is NaN makes it so. *)
Lemma cosineSums_normB_nan a : forall b dotProduct normA normB,
  isNaN normB = true ->
  isNaN (cosineSums a b dotProduct normA normB).2 = true.
Proof.
  induction a as [|ai a IH]; intros [|bi b] dotProduct normA normB Hnan;
    simpl; try exact Hnan.
  apply IH, add_nan_l. exact Hnan.
Qed.

(** The similarity to an array of NaNs: the dimension error, 0 for the
    empty array, NaN otherwise. *)
Lemma cosineSimilarity_nans a arity r :
  cosineSimilarity a (List.repeat nan arity) = Returned r ->
  r = 0%float \/ isNaN r = true.
Proof.
  unfold cosineSimilarity.
  destruct (negb _); [discriminate|].
  destruct arity as [|arity].
  - destruct a; simpl; intros [= <-]; left; reflexivity.
  - destruct a as [|a0 a]; [simpl; intros [= <-]; left; reflexivity|].
    cbn [List.repeat cosineSums].
    pose proof (cosineSums_normB_nan a (List.repeat nan arity)
                  (0 + a0 * nan) (0 + a0 * a0) (0 + nan * nan) eq_refl) as Hnan.
    destruct (cosineSums a (List.repeat nan arity) _ _ _) as [[dotProduct normA] normB].
    simpl in Hnan.
    assert (Hden : isNaN (PrimFloat.sqrt normA * PrimFloat.sqrt normB) = true)
      by (apply mul_nan_r, sqrt_nan; exact Hnan).
    rewrite (eqb_nan_l _ _ Hden).
    intros [= <-]. right.
    change (Math_max 0 (Math_min 1 ?q)) with (clamp q).
    rewrite clamp_nan by (apply div_nan_r; exact Hden). reflexivity.
Qed.

(** A score that carries no information: zero, or NaN. *)
Lemma Math_max_zero_or_nan x y :
  x = 0%float \/ isNaN x = true -> y = 0%float \/ isNaN y = true ->
  Math_max x y = 0%float \/ isNaN (Math_max x y) = true.
Proof.
  intros [->|Hx] [->|Hy].
  - left. reflexivity.
  - right. unfold Math_max. rewrite Hy, orb_true_r. reflexivity.
  - right. unfold Math_max. rewrite Hx. reflexivity.
  - right. unfold Math_max. rewrite Hx. reflexivity.
Qed.

Lemma inheritedProperty_not_own {A} key (value : A) :
  inheritedProperty key = Some (OwnValue value) -> False.
Proof.
  unfold inheritedProperty.
  destruct (String.eqb key "__proto__"); [discriminate|].
  destruct (List.find _ _); discriminate.
Qed.

(** When no keyword of the list is stored in the cache, the running
    maximum moves only through the properties the read finds on the
    prototype, which give the dimension error, 0 or NaN. *)
Lemma maxSimilarity_not_stored cache page keywords : forall maxSim r,
  Forall (fun keyword => cache !! keyword = None) keywords ->
  maxSim = 0%float \/ isNaN maxSim = true ->
  maxSimilarity cache page keywords maxSim = Returned r ->
  r = 0%float \/ isNaN r = true.
Proof.
  induction keywords as [|keyword rest IH]; intros maxSim r Hnone Hmax; simpl.
  - intros [= <-]. exact Hmax.
  - apply Forall_cons_1 in Hnone as [Hkeyword Hnone].
    unfold getProperty. rewrite Hkeyword.
    destruct (inheritedProperty keyword) as [[embedding|arity|]|] eqn:Hinherited;
      [| | |apply IH; assumption].
    + destruct (inheritedProperty_not_own _ _ Hinherited).
    + simpl.
      destruct (cosineSimilarity page (List.repeat nan arity)) as [similarity|e|] eqn:Hsim;
        simpl; try discriminate.
      apply IH; [exact Hnone|].
      apply Math_max_zero_or_nan; [exact Hmax|].
      eapply cosineSimilarity_nans. exact Hsim.
    + simpl. discriminate.
Qed.

Section Scores.
Variables (provider : EmbeddingModelSingleton) (cache : gmap string (list float)).
Variables (blockedKeywords allowedKeywords : list string).
Variables (P Q : float -> Prop).
Hypothesis window_scores : forall window b a,
  windowScores provider cache blockedKeywords allowedKeywords window
    = Returned (b, a) -> P b /\ Q a.

(** What holds of the two scores of every window holds of every entry
    of the two score arrays. *)
Lemma processWindows_scores total windows : forall bs als embedded bs' als',
  Forall P bs -> Forall Q als ->
  fst (processWindows provider cache blockedKeywords allowedKeywords total
         windows bs als embedded) = Returned (bs', als') ->
  Forall P bs' /\ Forall Q als'.
Proof.
  induction windows as [|window rest IH]; intros bs als embedded bs' als' Hbs Hals; simpl.
  - intros H; injection H as <- <-. split; assumption.
  - destruct (windowScores provider cache blockedKeywords allowedKeywords window)
      as [[b a]|e|] eqn:Hscores; simpl; try discriminate.
    destruct (window_scores _ _ _ Hscores) as [Hb Ha].
    assert (Hbs1 : Forall P (bs ++ [b])) by (apply Forall_app; auto).
    assert (Hals1 : Forall Q (als ++ [a])) by (apply Forall_app; auto).
    destruct (earlyExit _ _ _); simpl.
    + intros H; injection H as <- <-. split; assumption.
    + apply IH; assumption.
Qed.
End Scores.

Lemma calculate75thPercentile_keeps (P : float -> Prop) values :
  P 0%float -> Forall P values -> P (calculate75thPercentile values).
Proof.
  intros Hzero Hall.
  destruct (calculate75thPercentile_in values) as [[_ ->]|Hin]; [exact Hzero|].
  rewrite Forall_forall in Hall. apply Hall, list_elem_of_In. exact Hin.
Qed.

Lemma aggregate_scores provider cache text blockedKeywords allowedKeywords
    (P Q : float -> Prop) result :
  P 0%float -> Q 0%float ->
  (forall window b a,
     windowScores provider cache blockedKeywords allowedKeywords window
       = Returned (b, a) -> P b /\ Q a) ->
  aggregate provider cache text blockedKeywords allowedKeywords = Returned result ->
  P (blockedSimilarity result) /\ Q (allowedSimilarity result).
Proof.
  intros HP HQ Hwindow. unfold aggregate.
  destruct (createSlidingWindows _ _ _ _) as [windows|e|]; simpl; try discriminate.
  destruct (fst (processWindows _ _ _ _ _ _ _ _ _)) as [[bs als]|e|] eqn:Hrun;
    simpl; try discriminate.
  intros H; injection H as <-. simpl.
  destruct (processWindows_scores provider cache blockedKeywords allowedKeywords
              P Q Hwindow _ _ _ _ _ _ _ (Forall_nil_2 _) (Forall_nil_2 _) Hrun)
    as [Hbs Hals].
  split; apply calculate75thPercentile_keeps; assumption.
Qed.

(** What a call of [computePageSimilarity] that settles returns: the
    neutral result, or what the aggregation computed on the cache and
    the provider of the state it leaves. *)
Lemma computePageSimilarity_cases env text blockedKeywords allowedKeywords s :
  let call := computePageSimilarity env text blockedKeywords allowedKeywords s in
  match fst call with
  | Returned result =>
      result = neutral \/
      aggregate (embeddingModel (snd call)) (keywordEmbeddingCache (snd call))
        text blockedKeywords allowedKeywords = Returned result
  | Thrown _ => False
  | Pending => True
  end.
Proof.
  unfold computePageSimilarity.
  pose proof (ensureModel_never_throws env s) as Hnt.
  destruct (ensureModel env s) as [[[]|e|] s']; simpl in *; [|destruct Hnt|exact I].
  destruct (isReady (mlModelStatus s')); simpl; [|left; reflexivity].
  pose proof (aggregate_settles (embeddingModel s') (keywordEmbeddingCache s')
                text blockedKeywords allowedKeywords) as Hs.
  destruct (aggregate _ _ _ _ _) as [computed|e|]; simpl; [| |destruct Hs].
  - right. reflexivity.
  - left. reflexivity.
Qed.

(** X13.  [computePageSimilarity] never throws, and the two scores of a
    result it returns are each NaN or a number in [0, 1]. *)
Theorem computePageSimilarity_scores_in_range (env : Environment) (text : string)
    (blockedKeywords allowedKeywords : list string) (s : State) :
  match fst (computePageSimilarity env text blockedKeywords allowedKeywords s) with
  | Returned result =>
      unitScore (blockedSimilarity result) /\ unitScore (allowedSimilarity result)
  | Thrown _ => False
  | Pending => True
  end.
Proof.
  pose proof (computePageSimilarity_cases env text blockedKeywords allowedKeywords s)
    as Hcases. cbv zeta in Hcases.
  destruct (fst (computePageSimilarity env text blockedKeywords allowedKeywords s))
    as [result|e|]; [|exact Hcases|exact I].
  destruct Hcases as [->|Hrun]; [split; apply unitScore_zero|].
  eapply aggregate_scores; [apply unitScore_zero|apply unitScore_zero| |exact Hrun].
  intros window b a. unfold windowScores.
  destruct (computeEmbedding _ _) as [page|e|]; simpl; try discriminate.
  destruct (maxSimilarity _ page blockedKeywords 0) as [b'|e|] eqn:Hb;
    simpl; try discriminate.
  destruct (maxSimilarity _ page allowedKeywords 0) as [a'|e|] eqn:Ha;
    simpl; try discriminate.
  intros H; injection H as <- <-.
  split; eapply maxSimilarity_unit; try eassumption; apply unitScore_zero.
Qed.

(** X14.  A page is never blocked on keywords of which no embedding is
    stored: when the cache the call leaves stores none of the blocked
    keywords, shouldBlock is false and the blocked score is 0 or NaN.
    The score is 0 when, moreover, no blocked keyword names a property
    that every object inherits; under such a name the read of the cache
    finds a function, and the similarity to it is the dimension error, 0
    or NaN. *)
Theorem computePageSimilarity_needs_cached_keywords (env : Environment)
    (text : string) (blockedKeywords allowedKeywords : list string) (s : State) :
  let call := computePageSimilarity env text blockedKeywords allowedKeywords s in
  Forall (fun keyword => keywordEmbeddingCache (snd call) !! keyword = None)
         blockedKeywords ->
  match fst call with
  | Returned result =>
      shouldBlock result = false /\
      (blockedSimilarity result = 0%float \/
       isNaN (blockedSimilarity result) = true) /\
      (Forall (fun keyword => inheritedName keyword = false) blockedKeywords ->
       blockedSimilarity result = 0%float)
  | Thrown _ => False
  | Pending => True
  end.
Proof.
  intros call Hnone.
  pose proof (computePageSimilarity_cases env text blockedKeywords allowedKeywords s)
    as Hcases. cbv zeta in Hcases. fold call in Hcases.
  destruct (fst call) as [result|e|]; [|exact Hcases|exact I].
  destruct Hcases as [->|Hrun].
  { split; [reflexivity|]. split; [left; reflexivity|reflexivity]. }
  assert (Hblocked : blockedSimilarity result = 0%float \/
                     isNaN (blockedSimilarity result) = true).
  { eapply (aggregate_scores _ _ _ _ _
              (fun b => b = 0%float \/ isNaN b = true) (fun _ => True));
      [left; reflexivity|exact I| |exact Hrun].
    intros window b a. unfold windowScores.
    destruct (computeEmbedding _ _) as [page|e|]; simpl; try discriminate.
    destruct (maxSimilarity _ page blockedKeywords 0) as [b'|e|] eqn:Hb;
      simpl; try discriminate.
    destruct (maxSimilarity _ page allowedKeywords 0) as [a'|e|]; simpl;
      try discriminate.
    intros H; injection H as <- <-. split; [|exact I].
    eapply maxSimilarity_not_stored; [exact Hnone|left; reflexivity|exact Hb]. }
  split; [|split; [exact Hblocked|]].
  - unfold aggregate in Hrun.
    destruct (createSlidingWindows _ _ _ _) as [windows|e|]; simpl in Hrun;
      try discriminate.
    destruct (fst (processWindows _ _ _ _ _ _ _ _ _)) as [[bs als]|e|];
      simpl in Hrun; try discriminate.
    injection Hrun as <-. simpl in *.
    destruct Hblocked as [->|Hnan]; [reflexivity|].
    rewrite (nan_unique _ Hnan). reflexivity.
  - intros Hplain.
    eapply (aggregate_scores _ _ _ _ _ (fun b => b = 0%float) (fun _ => True));
      [reflexivity|exact I| |exact Hrun].
    intros window b a. unfold windowScores.
    destruct (computeEmbedding _ _) as [page|e|]; simpl; try discriminate.
    rewrite (maxSimilarity_uncached _ page blockedKeywords 0); simpl.
    + destruct (maxSimilarity _ page allowedKeywords 0) as [a'|e|]; simpl;
        try discriminate.
      intros H; injection H as <- <-. split; [reflexivity|exact I].
    + rewrite Forall_forall in *. intros keyword Hin.
      apply getProperty_absent. split; [apply Hnone|apply Hplain]; exact Hin.
Qed.

Lemma computePageSimilarity_needs_cached_keywords_witness :
  let env := {| pipelineLoad := Rejected NonError; providerPolls := [];
                statusPolls := []; storageFailure := None |} in
  let ready := {| keywordEmbeddingCache := demoCache;
                  mlModelStatus := StatusReady;
                  mlModelError := None;
                  embeddingModel := demoProvider |} in
  match fst (computePageSimilarity env "game" ["sports"] ["gaming"] ready) with
  | Returned result =>
      shouldBlock result = false /\
      (blockedSimilarity result = 0%float \/
       isNaN (blockedSimilarity result) = true) /\
      (Forall (fun keyword => inheritedName keyword = false) ["sports"] ->
       blockedSimilarity result = 0%float)
  | Thrown _ => False
  | Pending => True
  end.
Proof.
  apply (computePageSimilarity_needs_cached_keywords
           {| pipelineLoad := Rejected NonError; providerPolls := [];
              statusPolls := []; storageFailure := None |}
           "game" ["sports"] ["gaming"]
           {| keywordEmbeddingCache := demoCache;
              mlModelStatus := StatusReady;
              mlModelError := None;
              embeddingModel := demoProvider |}).
  repeat constructor.
Defined.

(** Keywords that name inherited properties, on the two-dimensional demo
    provider: the read of the cache finds the function
    [__defineGetter__], whose [length] is 2, and the blocked score is
    NaN; it finds [constructor], whose [length] is 1, and the dimension
    error makes the result the neutral one.  Neither keyword is ever
    stored by [precomputeKeywordEmbeddings]. *)
Example computePageSimilarity_inherited_keywords :
  let env := {| pipelineLoad := Rejected NonError; providerPolls := [];
                statusPolls := []; storageFailure := None |} in
  let ready := {| keywordEmbeddingCache := demoCache;
                  mlModelStatus := StatusReady;
                  mlModelError := None;
                  embeddingModel := demoProvider |} in
  fst (computePageSimilarity env "game" ["__defineGetter__"] [] ready) =
    Returned {| blockedSimilarity := nan; allowedSimilarity := 0;
                shouldBlock := false |} /\
  fst (computePageSimilarity env "game" ["gaming"] ["constructor"] ready) =
    Returned neutral /\
  keywordEmbeddingCache
    (snd (precomputeKeywordEmbeddings ["constructor"; "__defineGetter__"] ready))
  = demoCache.
Proof. repeat split; vm_compute; reflexivity. Qed.

Lemma computePageSimilarity_no_tokens env text blockedKeywords allowedKeywords s :
  tokenize text = [] ->
  match fst (computePageSimilarity env text blockedKeywords allowedKeywords s) with
  | Returned result => result = neutral
  | Thrown _ => False
  | Pending => True
  end.
Proof.
  intros Hempty.
  pose proof (computePageSimilarity_cases env text blockedKeywords allowedKeywords s)
    as Hcases. cbv zeta in Hcases.
  destruct (fst (computePageSimilarity env text blockedKeywords allowedKeywords s))
    as [result|e|]; [|exact Hcases|exact I].
  destruct Hcases as [->|Hrun]; [reflexivity|]. exfalso.
  unfold aggregate, createSlidingWindows in Hrun. rewrite Hempty in Hrun.
  simpl in Hrun. unfold windowScores, computeEmbedding in Hrun. simpl in Hrun.
  destruct (model _); discriminate.
Qed.

(** X15.  A page without a token (empty, or white space only) is never
    blocked: whatever the state and the keywords, a call that settles
    returns the neutral result. *)
Theorem computePageSimilarity_page_without_tokens (env : Environment)
    (text : string) (blockedKeywords allowedKeywords : list string) (s : State) :
  tokenize text = [] ->
  match fst (computePageSimilarity env text blockedKeywords allowedKeywords s) with
  | Returned result => result = neutral
  | Thrown _ => False
  | Pending => True
  end.
Proof. apply computePageSimilarity_no_tokens. Qed.

Lemma computePageSimilarity_page_without_tokens_witness :
  match fst (computePageSimilarity
               {| pipelineLoad := Rejected NonError; providerPolls := [];
                  statusPolls := []; storageFailure := None |}
               "   " ["gaming"] []
               {| keywordEmbeddingCache := demoCache;
                  mlModelStatus := StatusReady;
                  mlModelError := None;
                  embeddingModel := demoProvider |}) with
  | Returned result => result = neutral
  | Thrown _ => False
  | Pending => True
  end.
Proof.
  apply (computePageSimilarity_page_without_tokens
           {| pipelineLoad := Rejected NonError; providerPolls := [];
              statusPolls := []; storageFailure := None |}
           "   " ["gaming"] []
           {| keywordEmbeddingCache := demoCache;
              mlModelStatus := StatusReady;
              mlModelError := None;
              embeddingModel := demoProvider |}).
  vm_compute. reflexivity.
Defined.

Section WindowOrder.
Variables (provider : EmbeddingModelSingleton) (cache : gmap string (list float)).
Variables (blockedKeywords allowedKeywords : list string) (total : nat).

(** The loop embeds the windows in order, one score pair per window
    embedded, and stops before the last window only through the early
    exit. *)
Lemma processWindows_in_order windows : forall bs als embedded,
  let '(outcome, embedded') :=
    processWindows provider cache blockedKeywords allowedKeywords total
      windows bs als embedded in
  exists k : nat,
    (k <= length windows)%nat /\
    embedded' = embedded ++ (Tokenizer.text <$> take k windows) /\
    match outcome with
    | Returned (bs', als') =>
        length bs' = (length bs + k)%nat /\
        length als' = (length als + k)%nat /\
        (k = length windows \/
         ((total + 1) / 2 <= length bs + k)%nat /\
         exists b, last bs' = Some b /\ PrimFloat.ltb 0.85 b = true)
    | Thrown _ => (0 < k)%nat
    | Pending => False
    end.
Proof.
  induction windows as [|window rest IH]; intros bs als embedded.
  - simpl. exists 0%nat. rewrite app_nil_r. repeat split; auto; lia.
  - cbn [processWindows].
    pose proof (windowScores_settles provider cache blockedKeywords allowedKeywords
                  window) as Hsettles.
    destruct (windowScores provider cache blockedKeywords allowedKeywords window)
      as [[b a]|e|]; [| |destruct Hsettles].
    + destruct (earlyExit b (length (bs ++ [b])) total) eqn:Hexit.
      * exists 1%nat. simpl. rewrite !length_app. simpl.
        repeat split; try lia. right.
        unfold earlyExit in Hexit. apply andb_true_iff in Hexit.
        destruct Hexit as [Hhigh Hhalf]. apply Nat.leb_le in Hhalf.
        rewrite length_app in Hhalf. simpl in Hhalf.
        split; [exact Hhalf|]. exists b. split; [apply last_snoc|exact Hhigh].
      * specialize (IH (bs ++ [b]) (als ++ [a]) (embedded ++ [Tokenizer.text window])).
        destruct (processWindows _ _ _ _ _ rest _ _ _) as [outcome embedded'].
        destruct IH as (k & Hk & Hembedded & Houtcome).
        exists (S k). simpl. split; [lia|]. split.
        { rewrite Hembedded, <- app_assoc. reflexivity. }
        destruct outcome as [[bs' als']|e|]; [|lia|exact Houtcome].
        rewrite !length_app in Houtcome. simpl in Houtcome.
        destruct Houtcome as (Hbs & Hals & Hstop).
        repeat split; try lia.
        destruct Hstop as [->|[Hhalf Hlast]]; [left; reflexivity|right].
        split; [lia|exact Hlast].
    + exists 1%nat. simpl. repeat split; lia.
Qed.
End WindowOrder.

(** X26.  The window loop of [computePageSimilarity] embeds the windows
    in their order, each at most once and none skipped; when it returns,
    the two score arrays hold one score per embedded window, and it has
    stopped before the last window only through the early exit: at
    least half of the windows (rounded up) are scored and the last
    blocked score exceeds 0.85.  It throws only at a window it has
    called the provider on, and it is never left waiting. *)
Theorem processWindows_embeds_in_order (provider : EmbeddingModelSingleton)
    (cache : gmap string (list float))
    (blockedKeywords allowedKeywords : list string)
    (windows : list SlidingWindow) :
  let '(outcome, embedded) :=
    processWindows provider cache blockedKeywords allowedKeywords
      (length windows) windows [] [] [] in
  exists k : nat,
    (k <= length windows)%nat /\
    embedded = Tokenizer.text <$> take k windows /\
    match outcome with
    | Returned (blockedSimilarities, allowedSimilarities) =>
        length blockedSimilarities = k /\
        length allowedSimilarities = k /\
        (k = length windows \/
         ((length windows + 1) / 2 <= k)%nat /\
         exists b, last blockedSimilarities = Some b /\
                   PrimFloat.ltb 0.85 b = true)
    | Thrown _ => (0 < k)%nat
    | Pending => False
    end.
Proof.
  pose proof (processWindows_in_order provider cache blockedKeywords allowedKeywords
                (length windows) windows [] [] []) as H.
  destruct (processWindows _ _ _ _ _ _ _ _ _) as [outcome embedded].
  destruct H as (k & Hk & Hembedded & Houtcome).
  exists k. split; [exact Hk|]. split; [exact Hembedded|].
  destruct outcome as [[bs als]|e|]; exact Houtcome.
Qed.

Lemma Math_max_number x y :
  isNaN (Math_max x y) = false ->
  isNaN x = false /\ isNaN y = false /\
  PrimFloat.leb x (Math_max x y) = true /\
  PrimFloat.leb y (Math_max x y) = true.
Proof.
  unfold Math_max.
  destruct (isNaN x) eqn:Hx; [discriminate|].
  destruct (isNaN y) eqn:Hy; [discriminate|]. cbn [orb].
  intros _. split; [reflexivity|]. split; [reflexivity|].
  destruct (PrimFloat.ltb x y) eqn:Hxy.
  { split; [apply ltb_leb; exact Hxy|apply leb_refl; exact Hy]. }
  destruct (PrimFloat.ltb y x) eqn:Hyx.
  { split; [apply leb_refl; exact Hx|apply ltb_leb; exact Hyx]. }
  pose proof (not_ltb_leb _ _ Hx Hy Hxy) as Hle1.
  pose proof (not_ltb_leb _ _ Hy Hx Hyx) as Hle2.
  destruct (classify x); split;
    try (apply leb_refl; assumption); assumption.
Qed.

(** [Math.max] returns one of its arguments (there is one NaN). *)
Lemma Math_max_picks x y : Math_max x y = x \/ Math_max x y = y.
Proof.
  unfold Math_max.
  destruct (isNaN x) eqn:Hx; [left; symmetry; apply nan_unique; exact Hx|].
  destruct (isNaN y) eqn:Hy; [right; symmetry; apply nan_unique; exact Hy|].
  cbn [orb].
  destruct (PrimFloat.ltb x y); [tauto|].
  destruct (PrimFloat.ltb y x); [tauto|].
  destruct (classify x); tauto.
Qed.

Lemma maxSimilarity_nan cache page keywords : forall maxSim r,
  isNaN maxSim = true ->
  maxSimilarity cache page keywords maxSim = Returned r -> isNaN r = true.
Proof.
  induction keywords as [|keyword rest IH]; intros maxSim r Hnan; simpl.
  - intros [= <-]. exact Hnan.
  - destruct (getProperty cache keyword) as [found|]; [|apply IH; exact Hnan].
    destruct (similarityTo page found) as [similarity|e|];
      simpl; try discriminate.
    apply IH. unfold Math_max. rewrite Hnan. reflexivity.
Qed.

(** Every keyword under which the read of the cache finds something is
    scored, and its similarity bounds the result from below, or makes
    it NaN. *)
Lemma maxSimilarity_scored cache page keywords : forall maxSim r,
  maxSimilarity cache page keywords maxSim = Returned r ->
  (isNaN r = false -> PrimFloat.leb maxSim r = true) /\
  forall keyword found,
    In keyword keywords -> getProperty cache keyword = Some found ->
    exists similarity,
      similarityTo page found = Returned similarity /\
      (isNaN similarity = true -> isNaN r = true) /\
      (isNaN r = false -> PrimFloat.leb similarity r = true).
Proof.
  induction keywords as [|keyword rest IH]; intros maxSim r; simpl.
  - intros [= <-]. split; [apply leb_refl|]. intros ? ? [].
  - destruct (getProperty cache keyword) as [found0|] eqn:Hfound.
    + destruct (similarityTo page found0) as [similarity0|e|] eqn:Hsim;
        simpl; try discriminate.
      intros Hrun. destruct (IH _ _ Hrun) as [Hacc Hrest].
      assert (Hmax : isNaN r = false ->
                     isNaN (Math_max maxSim similarity0) = false).
      { intros Hr.
        destruct (isNaN (Math_max maxSim similarity0)) eqn:Hnan; [|reflexivity].
        rewrite (maxSimilarity_nan _ _ _ _ _ Hnan Hrun) in Hr. discriminate. }
      split.
      * intros Hr. destruct (Math_max_number _ _ (Hmax Hr)) as (_ & _ & Hle & _).
        eapply leb_trans; [exact Hle|apply Hacc; exact Hr].
      * intros k found [<-|Hin] Hk; [|apply (Hrest k found Hin Hk)].
        rewrite Hfound in Hk. injection Hk as <-.
        exists similarity0. split; [exact Hsim|]. split.
        -- intros Hnan.
           apply (maxSimilarity_nan cache page rest (Math_max maxSim similarity0));
             [|exact Hrun].
           unfold Math_max. rewrite Hnan, orb_true_r. reflexivity.
        -- intros Hr. destruct (Math_max_number _ _ (Hmax Hr)) as (_ & _ & _ & Hle).
           eapply leb_trans; [exact Hle|apply Hacc; exact Hr].
    + intros Hrun. destruct (IH _ _ Hrun) as [Hacc Hrest].
      split; [exact Hacc|]. intros k found [<-|Hin] Hk; [congruence|].
      apply (Hrest k found Hin Hk).
Qed.

(** The result is the starting value or one of the similarities. *)
Lemma maxSimilarity_attained cache page keywords : forall maxSim r,
  maxSimilarity cache page keywords maxSim = Returned r ->
  r = maxSim \/
  exists keyword found,
    In keyword keywords /\ getProperty cache keyword = Some found /\
    similarityTo page found = Returned r.
Proof.
  induction keywords as [|keyword rest IH]; intros maxSim r; simpl.
  - intros [= <-]. left. reflexivity.
  - destruct (getProperty cache keyword) as [found0|] eqn:Hfound.
    + destruct (similarityTo page found0) as [similarity0|e|] eqn:Hsim;
        simpl; try discriminate.
      intros Hrun. destruct (IH _ _ Hrun) as [->|(k & found & Hin & Hk & Hr)].
      * destruct (Math_max_picks maxSim similarity0) as [-> | ->];
          [left; reflexivity|right].
        exists keyword, found0. split; [left; reflexivity|]. split; assumption.
      * right. exists k, found. split; [right; exact Hin|]. split; assumption.
    + intros Hrun. destruct (IH _ _ Hrun) as [->|(k & found & Hin & Hk & Hr)];
        [left; reflexivity|right].
      exists k, found. split; [right; exact Hin|]. split; assumption.
Qed.

(** Keywords under which the read of the cache finds nothing can be
    struck from the list. *)
Lemma maxSimilarity_found_only cache page keywords : forall maxSim,
  maxSimilarity cache page
    (filter (fun keyword => is_Some (getProperty cache keyword)) keywords) maxSim
  = maxSimilarity cache page keywords maxSim.
Proof.
  induction keywords as [|keyword rest IH]; intros maxSim; [reflexivity|].
  destruct (getProperty cache keyword) as [found|] eqn:Hfound.
  - rewrite filter_cons_True by (rewrite Hfound; eauto).
    simpl. rewrite Hfound.
    destruct (similarityTo page found); simpl; [apply IH|reflexivity|reflexivity].
  - rewrite filter_cons_False by (rewrite Hfound; apply is_Some_None).
    simpl. rewrite Hfound. apply IH.
Qed.

(** X27.  The score of a window against a keyword list is the maximum
    of 0 and of the similarities of the page embedding to what the read
    of the cache finds under the keywords.  When the two inner loops of
    [computePageSimilarity] return a score, every such similarity was
    computed without error; the score is 0 or one of them; when it is a
    number it is at least 0 and at least each of them; it is NaN as soon
    as one of them is; and the keywords under which the read finds
    nothing take no part: struck from the list, they leave the same
    score. *)
Theorem maxSimilarity_is_maximum (cache : gmap string (list float))
    (pageEmbedding : list float) (keywords : list string) (score : float) :
  maxSimilarity cache pageEmbedding keywords 0 = Returned score ->
  (score = 0%float \/
   exists keyword found,
     In keyword keywords /\ getProperty cache keyword = Some found /\
     similarityTo pageEmbedding found = Returned score) /\
  (forall keyword found,
     In keyword keywords -> getProperty cache keyword = Some found ->
     exists similarity,
       similarityTo pageEmbedding found = Returned similarity /\
       (isNaN similarity = true -> isNaN score = true) /\
       (isNaN score = false -> PrimFloat.leb similarity score = true)) /\
  (isNaN score = false -> PrimFloat.leb 0 score = true) /\
  maxSimilarity cache pageEmbedding
    (filter (fun keyword => is_Some (getProperty cache keyword)) keywords) 0
  = Returned score.
Proof.
  intros Hrun.
  destruct (maxSimilarity_scored _ _ _ _ _ Hrun) as [Hzero Hscored].
  split; [apply maxSimilarity_attained; exact Hrun|].
  split; [exact Hscored|]. split; [exact Hzero|].
  rewrite maxSimilarity_found_only. exact Hrun.
Qed.

Lemma maxSimilarity_is_maximum_witness :
  maxSimilarity demoCache [1; 0]%float ["gaming"; "sports"] 0 = Returned 1%float /\
  (1%float = 0%float \/
   exists keyword found,
     In keyword ["gaming"; "sports"] /\ getProperty demoCache keyword = Some found /\
     similarityTo [1; 0]%float found = Returned 1%float).
Proof.
  assert (Hrun : maxSimilarity demoCache [1; 0]%float ["gaming"; "sports"] 0
                 = Returned 1%float) by (vm_compute; reflexivity).
  split; [exact Hrun|].
  apply (proj1 (maxSimilarity_is_maximum demoCache [1; 0]%float
                  ["gaming"; "sports"] 1 Hrun)).
Defined.

(* ================================================================== *)
(** ** Properties of the site lists and of the messages *)
(* ================================================================== *)

Lemma startsWith_spec searchString : forall s,
  startsWith s searchString = true <->
  exists after, s = (searchString ++ after)%string.
Proof.
  induction searchString as [|c searchRest IH]; intros s.
  - split; [intros _; exists s; reflexivity|]. destruct s; reflexivity.
  - destruct s as [|d rest]; simpl.
    + split; [discriminate|]. intros [after H]. rewrite append_cons in H. discriminate.
    + destruct (Ascii.eqb_spec c d) as [->|Hne].
      * rewrite IH. split; intros [after H]; exists after.
        -- rewrite append_cons, H. reflexivity.
        -- rewrite append_cons in H. congruence.
      * split; [discriminate|]. intros [after H].
        rewrite append_cons in H. congruence.
Qed.

Lemma includes_spec s searchString :
  includes s searchString = true <-> occursIn searchString s.
Proof.
  unfold occursIn. induction s as [|d rest IH].
  - cbn [includes]. destruct (startsWith "" searchString) eqn:Hstart.
    + split; [intros _|reflexivity].
      apply startsWith_spec in Hstart. destruct Hstart as [after H].
      exists EmptyString, after. exact H.
    + split; [discriminate|]. intros (before & after & H).
      destruct before; [|rewrite append_cons in H; discriminate].
      rewrite append_empty_l in H.
      assert (Hs : startsWith "" searchString = true)
        by (apply startsWith_spec; exists after; exact H).
      congruence.
  - cbn [includes]. destruct (startsWith (String d rest) searchString) eqn:Hstart.
    + split; [intros _|reflexivity].
      apply startsWith_spec in Hstart. destruct Hstart as [after H].
      exists EmptyString, after. exact H.
    + rewrite IH. split.
      * intros (before & after & H). exists (String d before), after.
        rewrite append_cons, H. reflexivity.
      * intros (before & after & H). destruct before as [|c before].
        -- rewrite append_empty_l in H.
           assert (Hs : startsWith (String d rest) searchString = true)
             by (apply startsWith_spec; exists after; exact H).
           congruence.
        -- rewrite append_cons in H. injection H as _ H.
           exists before, after. exact H.
Qed.

Lemma matchesSite_spec hostname site :
  matchesSite hostname site = true <-> related hostname site.
Proof.
  unfold matchesSite, related. rewrite orb_true_iff, !includes_spec. reflexivity.
Qed.

Lemma existsb_matchesSite hostname sites :
  existsb (matchesSite hostname) sites = true <->
  exists site, In site sites /\ related hostname site.
Proof.
  rewrite existsb_exists. split; intros (site & Hin & H); exists site;
    (split; [exact Hin|]); apply matchesSite_spec; exact H.
Qed.

(** X16.  [shouldBlockSite] answers true exactly during an active focus
    session that is not in a break, for a URL whose host name either
    contains an entry of the list in force or is contained in one
    (blacklist mode), or does neither for every entry (whitelist mode);
    it throws exactly when such a session meets a string that is not a
    URL; outside a focus session it answers false without reading the
    URL.  The switch [isBlocked] plays no part. *)
Theorem shouldBlockSite_decision (hostnameOf : string -> run string)
    (timer : TimerState) (blocking : BlockingState) (url : string) :
  (shouldBlockSite hostnameOf timer blocking url = Returned true <->
   isActive timer = true /\ breakMode timer = false /\
   exists hostname,
     hostnameOf url = Returned hostname /\
     match blockMode blocking with
     | blacklist =>
         exists site, In site (blockedSites blocking) /\ related hostname site
     | whitelist =>
         forall site, In site (whitelistSites blocking) -> ~ related hostname site
     end) /\
  (forall e,
     shouldBlockSite hostnameOf timer blocking url = Thrown e <->
     isActive timer = true /\ breakMode timer = false /\
     hostnameOf url = Thrown e) /\
  (isActive timer = false \/ breakMode timer = true ->
   shouldBlockSite hostnameOf timer blocking url = Returned false) /\
  (forall switch,
     shouldBlockSite hostnameOf timer
       {| isBlocked := switch;
          blockedSites := blockedSites blocking;
          blockMode := blockMode blocking;
          whitelistSites := whitelistSites blocking |} url
     = shouldBlockSite hostnameOf timer blocking url).
Proof.
  split; [|split; [|split]].
  - unfold shouldBlockSite.
    destruct (isActive timer), (breakMode timer); simpl.
    1, 3, 4: split; [discriminate|intros (Ha & Hb & _); discriminate].
    split.
    + intros Hrun. split; [reflexivity|]. split; [reflexivity|].
      destruct (hostnameOf url) as [hostname|e|]; simpl in Hrun; try discriminate.
      exists hostname. split; [reflexivity|].
      destruct (blockMode blocking); injection Hrun as Hrun.
      * intros site Hin Hrel. apply negb_true_iff in Hrun.
        assert (Hex : existsb (matchesSite hostname) (whitelistSites blocking) = true)
          by (apply existsb_matchesSite; eauto).
        congruence.
      * apply existsb_matchesSite. exact Hrun.
    + intros (_ & _ & hostname & -> & Hlist). simpl.
      destruct (blockMode blocking); f_equal.
      * apply negb_true_iff.
        destruct (existsb _ _) eqn:Hex; [|reflexivity].
        apply existsb_matchesSite in Hex. destruct Hex as (site & Hin & Hrel).
        destruct (Hlist site Hin Hrel).
      * apply existsb_matchesSite. exact Hlist.
  - intros e. unfold shouldBlockSite.
    destruct (isActive timer), (breakMode timer); simpl.
    1, 3, 4: split; [discriminate|intros (Ha & Hb & _); discriminate].
    split.
    + intros Hrun. split; [reflexivity|]. split; [reflexivity|].
      destruct (hostnameOf url) as [hostname|e'|]; simpl in Hrun; try discriminate.
      * destruct (blockMode blocking); discriminate.
      * congruence.
    + intros (_ & _ & ->). reflexivity.
  - unfold shouldBlockSite. intros [-> | ->]; [reflexivity|].
    rewrite orb_true_r. reflexivity.
  - reflexivity.
Qed.

Lemma filter_other_sites name sites :
  ~ In name sites ->
  filter (fun s => negb (String.eqb s name)) sites = sites.
Proof.
  induction sites as [|site sites IH]; intros Hnot; [reflexivity|].
  rewrite filter_cons_True.
  - rewrite IH; [reflexivity|]. intros Hin. apply Hnot. right. exact Hin.
  - apply Is_true_true, negb_true_iff, String.eqb_neq.
    intros ->. apply Hnot. left. reflexivity.
Qed.

Lemma arrayIncludes_spec sites name :
  arrayIncludes sites name = true <-> In name sites.
Proof.
  unfold arrayIncludes. rewrite existsb_exists. split.
  - intros (site & Hin & Heq). apply String.eqb_eq in Heq. subst. exact Hin.
  - intros Hin. exists name. split; [exact Hin|apply String.eqb_refl].
Qed.

Lemma truthySite_spec name : truthySite (Some name) = true <-> name <> EmptyString.
Proof. apply length_zero_empty. Qed.

(** What the guarded [push] does to a list. *)
Lemma addSite_cases site sites :
  (addSite site sites = sites /\
   (site = None \/ site = Some EmptyString \/
    exists name, site = Some name /\ In name sites)) \/
  (exists name, site = Some name /\ name <> EmptyString /\ ~ In name sites /\
                addSite site sites = sites ++ [name]).
Proof.
  destruct site as [name|]; [|left; split; [reflexivity|tauto]].
  unfold addSite.
  destruct (truthySite (Some name)) eqn:Htruthy.
  - apply truthySite_spec in Htruthy.
    destruct (arrayIncludes sites name) eqn:Hlisted; simpl.
    + apply arrayIncludes_spec in Hlisted. left. split; [reflexivity|].
      right; right. eauto.
    + right. exists name. repeat split; auto.
      rewrite <- arrayIncludes_spec. congruence.
  - left. split; [reflexivity|]. right; left.
    destruct name; [reflexivity|discriminate].
Qed.

Lemma removeSite_add site sites :
  (forall name, site = Some name -> ~ In name sites) ->
  removeSite site (addSite site sites) = sites.
Proof.
  intros Hnew.
  destruct (addSite_cases site sites)
    as [[-> [-> |[-> |(name & -> & Hin)]]]|(name & -> & Hne & Hnot & ->)].
  - reflexivity.
  - reflexivity.
  - destruct (Hnew name eq_refl Hin).
  - unfold removeSite. apply truthySite_spec in Hne. rewrite Hne.
    rewrite filter_app, filter_other_sites by exact Hnot.
    rewrite filter_cons_False, filter_nil, app_nil_r; [reflexivity|].
    rewrite String.eqb_refl. simpl. tauto.
Qed.

Lemma addSite_tidy site sites :
  NoDup sites -> ~ In EmptyString sites ->
  NoDup (addSite site sites) /\ ~ In EmptyString (addSite site sites).
Proof.
  intros Hnodup Hempty.
  destruct (addSite_cases site sites)
    as [[-> _]|(name & -> & Hne & Hnot & ->)]; [tauto|].
  split.
  - apply NoDup_app. split; [exact Hnodup|]. split.
    + intros x Hx Hx'. apply list_elem_of_In in Hx.
      apply list_elem_of_singleton in Hx'. subst. contradiction.
    + apply NoDup_singleton.
  - rewrite in_app_iff. simpl. intros [H|[H|[]]]; [contradiction|congruence].
Qed.

Lemma removeSite_tidy site sites :
  NoDup sites -> ~ In EmptyString sites ->
  NoDup (removeSite site sites) /\ ~ In EmptyString (removeSite site sites) /\
  (forall name, site = Some name -> name <> EmptyString ->
                ~ In name (removeSite site sites)).
Proof.
  intros Hnodup Hempty. destruct site as [name|]; [|repeat split; auto; discriminate].
  unfold removeSite. destruct (truthySite (Some name)) eqn:Htruthy.
  - repeat split.
    + apply NoDup_filter. exact Hnodup.
    + intros Hin. apply list_elem_of_In, list_elem_of_filter in Hin.
      destruct Hin as [_ Hin]. apply list_elem_of_In in Hin. contradiction.
    + intros name' [= <-] _ Hin.
      apply list_elem_of_In, list_elem_of_filter in Hin. destruct Hin as [Hin _].
      rewrite String.eqb_refl in Hin. exact Hin.
  - repeat split; auto. intros name' [= <-] Hne.
    apply truthySite_spec in Hne. congruence.
Qed.

Lemma addSite_listed name sites :
  name <> EmptyString -> In name (addSite (Some name) sites).
Proof.
  intros Hne. unfold addSite.
  apply truthySite_spec in Hne. rewrite Hne.
  destruct (arrayIncludes sites name) eqn:Hlisted; simpl.
  - apply arrayIncludes_spec. exact Hlisted.
  - apply in_app_iff. right. left. reflexivity.
Qed.

(** X17.  A site that is added is in force at once: during a focus
    session, after [ADD_BLOCKED_SITE] every URL whose host name contains
    the site is reported blocked in blacklist mode, and after
    [ADD_WHITELIST_SITE] every such URL is reported not blocked in
    whitelist mode. *)
Theorem onMessage_added_site_in_force (env : Environment)
    (hostnameOf : string -> run string) (now later : Z)
    (name url hostname : string) (x : Extension) :
  name <> EmptyString ->
  isActive (currentState x) = true -> breakMode (currentState x) = false ->
  hostnameOf url = Returned hostname ->
  occursIn name hostname ->
  (blockMode (blockingState x) = blacklist ->
   fst (onMessage env hostnameOf later (CHECK_SITE_BLOCKED url)
          (snd (onMessage env hostnameOf now (ADD_BLOCKED_SITE (Some name)) x)))
   = Returned (ShouldBlock true)) /\
  (blockMode (blockingState x) = whitelist ->
   fst (onMessage env hostnameOf later (CHECK_SITE_BLOCKED url)
          (snd (onMessage env hostnameOf now (ADD_WHITELIST_SITE (Some name)) x)))
   = Returned (ShouldBlock false)).
Proof.
  intros Hne Hactive Hbreak Hurl Hocc.
  assert (Hmatch : forall sites,
            existsb (matchesSite hostname) (addSite (Some name) sites) = true).
  { intros sites. apply existsb_matchesSite. exists name.
    split; [apply addSite_listed; exact Hne|left; exact Hocc]. }
  split; intros Hmode; unfold onMessage, shouldBlockSite;
    cbn [fst snd currentState blockingState blockedSites whitelistSites blockMode];
    rewrite Hactive, Hbreak, Hurl, Hmode; cbn [negb orb bind];
    rewrite Hmatch; reflexivity.
Qed.

Lemma onMessage_added_site_in_force_witness :
  let env := {| pipelineLoad := Rejected NonError; providerPolls := [];
                statusPolls := []; storageFailure := None |} in
  let hostnameOf := fun url : string => Returned "www.youtube.com" in
  let x := {| ml := {| keywordEmbeddingCache := demoCache;
                       mlModelStatus := StatusReady;
                       mlModelError := None;
                       embeddingModel := demoProvider |};
              currentState := {| isActive := true; timeLeft := 60;
                                 initialTime := 60; breakMode := false;
                                 breakTimeLeft := 5; breakInitialTime := 5;
                                 lastUpdateTime := 0 |};
              blockingState := {| isBlocked := true; blockedSites := [];
                                  blockMode := blacklist;
                                  whitelistSites := [] |} |} in
  fst (onMessage env hostnameOf 2 (CHECK_SITE_BLOCKED "https://www.youtube.com/")
         (snd (onMessage env hostnameOf 1 (ADD_BLOCKED_SITE (Some "youtube.com")) x)))
  = Returned (ShouldBlock true).
Proof.
  intros env hostnameOf x.
  apply (onMessage_added_site_in_force env hostnameOf 1 2
           "youtube.com" "https://www.youtube.com/" "www.youtube.com" x).
  - discriminate.
  - reflexivity.
  - reflexivity.
  - reflexivity.
  - exists "www."%string, ""%string. reflexivity.
  - reflexivity.
Defined.

(** X18.  Removing undoes adding: when a site is not listed, the
    message [ADD_BLOCKED_SITE] followed by [REMOVE_BLOCKED_SITE] for the
    same site leaves the state of the extension as it was, and so do
    [ADD_WHITELIST_SITE] and [REMOVE_WHITELIST_SITE]. *)
Theorem onMessage_add_then_remove_site (env : Environment)
    (hostnameOf : string -> run string) (now later : Z)
    (site : option string) (x : Extension) :
  (forall name, site = Some name ->
     ~ In name (blockedSites (blockingState x)) /\
     ~ In name (whitelistSites (blockingState x))) ->
  snd (onMessage env hostnameOf later (REMOVE_BLOCKED_SITE site)
         (snd (onMessage env hostnameOf now (ADD_BLOCKED_SITE site) x))) = x /\
  snd (onMessage env hostnameOf later (REMOVE_WHITELIST_SITE site)
         (snd (onMessage env hostnameOf now (ADD_WHITELIST_SITE site) x))) = x.
Proof.
  intros Hnew. destruct x as [state timer [switch blocked mode allowed]].
  simpl in *. split; rewrite removeSite_add; try reflexivity;
    intros name Hname; apply (Hnew name Hname).
Qed.

Lemma onMessage_add_then_remove_site_witness :
  let env := {| pipelineLoad := Rejected NonError; providerPolls := [];
                statusPolls := []; storageFailure := None |} in
  let hostnameOf := fun url : string => Returned url in
  let x := {| ml := {| keywordEmbeddingCache := demoCache;
                       mlModelStatus := StatusReady;
                       mlModelError := None;
                       embeddingModel := demoProvider |};
              currentState := {| isActive := true; timeLeft := 60;
                                 initialTime := 60; breakMode := false;
                                 breakTimeLeft := 5; breakInitialTime := 5;
                                 lastUpdateTime := 0 |};
              blockingState := {| isBlocked := true;
                                  blockedSites := ["facebook.com"];
                                  blockMode := blacklist;
                                  whitelistSites := [] |} |} in
  snd (onMessage env hostnameOf 2 (REMOVE_BLOCKED_SITE (Some "reddit.com"))
         (snd (onMessage env hostnameOf 1 (ADD_BLOCKED_SITE (Some "reddit.com")) x)))
  = x.
Proof.
  intros env hostnameOf x.
  apply (onMessage_add_then_remove_site env hostnameOf 1 2 (Some "reddit.com") x).
  intros name [= <-]. simpl. split; [intros [H|[]]; discriminate|tauto].
Defined.

(** X19.  The site lists stay tidy: if neither list holds an entry
    twice or an empty entry, then after any of the messages embedded in
    [Message] neither does; and after [REMOVE_BLOCKED_SITE] or
    [REMOVE_WHITELIST_SITE] for a site with a name, that site is not in
    the list. *)
Theorem onMessage_keeps_lists_tidy (env : Environment)
    (hostnameOf : string -> run string) (now : Z) (message : Message)
    (x : Extension) :
  tidy (blockingState x) ->
  let after := blockingState (snd (onMessage env hostnameOf now message x)) in
  tidy after /\
  (forall name, name <> EmptyString ->
     (message = REMOVE_BLOCKED_SITE (Some name) -> ~ In name (blockedSites after)) /\
     (message = REMOVE_WHITELIST_SITE (Some name) -> ~ In name (whitelistSites after))).
Proof.
  intros (Hb & Hw & Hbe & Hwe).
  destruct message; simpl;
    try (split; [repeat split; assumption|];
         intros name Hname; split; discriminate).
  - destruct (addSite_tidy site _ Hb Hbe) as [Hb' Hbe'].
    split; [repeat split; assumption|]. intros name Hname; split; discriminate.
  - destruct (removeSite_tidy site _ Hb Hbe) as (Hb' & Hbe' & Hgone).
    split; [repeat split; assumption|].
    intros name Hname; split; [|discriminate].
    intros [= ->]. apply (Hgone name eq_refl Hname).
  - destruct (addSite_tidy site _ Hw Hwe) as [Hw' Hwe'].
    split; [repeat split; assumption|]. intros name Hname; split; discriminate.
  - destruct (removeSite_tidy site _ Hw Hwe) as (Hw' & Hwe' & Hgone).
    split; [repeat split; assumption|].
    intros name Hname; split; [discriminate|].
    intros [= ->]. apply (Hgone name eq_refl Hname).
  - destruct (computePageSimilarity _ _ _ _ _) as [outcome s']. simpl.
    split; [repeat split; assumption|]. intros name Hname; split; discriminate.
  - destruct (precomputeKeywordEmbeddings _ _) as [outcome s']. simpl.
    split; [repeat split; assumption|]. intros name Hname; split; discriminate.
Qed.

Lemma onMessage_keeps_lists_tidy_witness :
  let env := {| pipelineLoad := Rejected NonError; providerPolls := [];
                statusPolls := []; storageFailure := None |} in
  let hostnameOf := fun url : string => Returned url in
  let x := {| ml := {| keywordEmbeddingCache := demoCache;
                       mlModelStatus := StatusReady;
                       mlModelError := None;
                       embeddingModel := demoProvider |};
              currentState := {| isActive := true; timeLeft := 60;
                                 initialTime := 60; breakMode := false;
                                 breakTimeLeft := 5; breakInitialTime := 5;
                                 lastUpdateTime := 0 |};
              blockingState := {| isBlocked := true;
                                  blockedSites := [];
                                  blockMode := blacklist;
                                  whitelistSites := [] |} |} in
  let after :=
    blockingState
      (snd (onMessage env hostnameOf 1 (ADD_BLOCKED_SITE (Some "twitter.com")) x)) in
  tidy after /\
  (forall name, name <> EmptyString ->
     (ADD_BLOCKED_SITE (Some "twitter.com") = REMOVE_BLOCKED_SITE (Some name) ->
      ~ In name (blockedSites after)) /\
     (ADD_BLOCKED_SITE (Some "twitter.com") = REMOVE_WHITELIST_SITE (Some name) ->
      ~ In name (whitelistSites after))).
Proof.
  intros env hostnameOf x.
  apply (onMessage_keeps_lists_tidy env hostnameOf 1
           (ADD_BLOCKED_SITE (Some "twitter.com")) x).
  unfold tidy. simpl. repeat split; try constructor; tauto.
Defined.

(* ================================================================== *)
(** ** Properties of the focus timer *)
(* ================================================================== *)

Lemma div_1000_add (a b : Z) : (a / 1000 + b / 1000 <= (a + b) / 1000)%Z.
Proof.
  pose proof (Z.div_mod a 1000 ltac:(lia)).
  pose proof (Z.div_mod b 1000 ltac:(lia)).
  pose proof (Z.div_mod (a + b) 1000 ltac:(lia)).
  pose proof (Z.mod_pos_bound a 1000 ltac:(lia)).
  pose proof (Z.mod_pos_bound b 1000 ltac:(lia)).
  pose proof (Z.mod_pos_bound (a + b) 1000 ltac:(lia)).
  lia.
Qed.

(** One firing of the interval during a focus session. *)
Ltac split_all := repeat match goal with |- _ /\ _ => split end.

Lemma tick_focus now s :
  breakMode s = false ->
  let s' := fst (tick now s) in
  breakMode s' = false /\ isActive s' = isActive s /\
  initialTime s' = initialTime s /\
  (lastUpdateTime s <= lastUpdateTime s')%Z /\
  (timeLeft s - (lastUpdateTime s' - lastUpdateTime s) / 1000 <= timeLeft s')%Z /\
  (timeLeft s' <= timeLeft s)%Z /\
  ((0 <= timeLeft s)%Z -> (0 <= timeLeft s')%Z).
Proof.
  intros Hfocus. unfold tick. rewrite Hfocus.
  set (elapsed := ((now - lastUpdateTime s) / 1000)%Z).
  assert (Hsame : ((lastUpdateTime s - lastUpdateTime s) / 1000 = 0)%Z)
    by (rewrite Z.sub_diag; reflexivity).
  destruct (Z.leb_spec elapsed 0) as [Hearly|Hlate]; simpl.
  { rewrite Hfocus, Hsame. split_all; try reflexivity; lia. }
  assert (Hnow : (lastUpdateTime s <= now)%Z).
  { destruct (Z.le_gt_cases (lastUpdateTime s) now) as [H|H]; [exact H|].
    assert ((now - lastUpdateTime s) / 1000 < 0)%Z
      by (apply Z.div_lt_upper_bound; lia).
    subst elapsed. lia. }
  destruct (Z.ltb_spec 0 (timeLeft s)) as [Hleft|Hdone].
  - match goal with |- context [if ?c then _ else _] => destruct c end; simpl;
      fold elapsed; split_all; try assumption; try reflexivity; lia.
  - match goal with |- context [if ?c then _ else _] => destruct c end; simpl;
      rewrite ?Hfocus, ?Hsame; split_all; try reflexivity; lia.
Qed.

Lemma ticks_focus nows : forall s,
  breakMode s = false ->
  let s' := ticks nows s in
  breakMode s' = false /\ isActive s' = isActive s /\
  initialTime s' = initialTime s /\
  (lastUpdateTime s <= lastUpdateTime s')%Z /\
  (timeLeft s - (lastUpdateTime s' - lastUpdateTime s) / 1000 <= timeLeft s')%Z /\
  (timeLeft s' <= timeLeft s)%Z /\
  ((0 <= timeLeft s)%Z -> (0 <= timeLeft s')%Z).
Proof.
  induction nows as [|now later IH]; intros s Hfocus; simpl.
  - rewrite Z.sub_diag. change (0 / 1000)%Z with 0%Z.
    split_all; try assumption; try reflexivity; lia.
  - destruct (tick_focus now s Hfocus) as (Hb & Ha & Hi & Hl & Hlow & Hup & Hpos).
    destruct (IH _ Hb) as (Hb' & Ha' & Hi' & Hl' & Hlow' & Hup' & Hpos').
    set (s1 := fst (tick now s)) in *. set (s2 := ticks later s1) in *.
    pose proof (div_1000_add (lastUpdateTime s1 - lastUpdateTime s)
                             (lastUpdateTime s2 - lastUpdateTime s1)) as Hadd.
    replace (lastUpdateTime s1 - lastUpdateTime s
             + (lastUpdateTime s2 - lastUpdateTime s1))%Z
      with (lastUpdateTime s2 - lastUpdateTime s)%Z in Hadd by lia.
    split_all; try congruence; lia.
Qed.

(** X20.  During a focus session the timer never runs fast: whenever
    the interval fires, the time left never grows, never falls below
    what the clock allows (the time left at the start minus the whole
    seconds between the first and the last time recorded), and never
    becomes negative; the firings alone neither stop the session nor
    start a break. *)
Theorem ticks_never_run_fast (nows : list Z) (s : TimerState) :
  breakMode s = false ->
  let s' := ticks nows s in
  breakMode s' = false /\ isActive s' = isActive s /\
  (lastUpdateTime s <= lastUpdateTime s')%Z /\
  (timeLeft s - (lastUpdateTime s' - lastUpdateTime s) / 1000 <= timeLeft s')%Z /\
  (timeLeft s' <= timeLeft s)%Z /\
  ((0 <= timeLeft s)%Z -> (0 <= timeLeft s')%Z).
Proof.
  intros Hfocus.
  destruct (ticks_focus nows s Hfocus) as (Hb & Ha & _ & Hl & Hlow & Hup & Hpos).
  repeat split; assumption.
Qed.

Lemma ticks_never_run_fast_witness :
  let s := {| isActive := true; timeLeft := 60; initialTime := 60;
              breakMode := false; breakTimeLeft := 5; breakInitialTime := 5;
              lastUpdateTime := 0 |} in
  let s' := ticks [999; 1999; 2500; 4100]%Z s in
  breakMode s' = false /\ isActive s' = isActive s /\
  (lastUpdateTime s <= lastUpdateTime s')%Z /\
  (timeLeft s - (lastUpdateTime s' - lastUpdateTime s) / 1000 <= timeLeft s')%Z /\
  (timeLeft s' <= timeLeft s)%Z /\
  ((0 <= timeLeft s)%Z -> (0 <= timeLeft s')%Z).
Proof.
  apply (ticks_never_run_fast [999; 1999; 2500; 4100]%Z
           {| isActive := true; timeLeft := 60; initialTime := 60;
              breakMode := false; breakTimeLeft := 5; breakInitialTime := 5;
              lastUpdateTime := 0 |}).
  reflexivity.
Defined.




(** X22.  When a session ends, blocking ends.  A firing that clears
    the interval (the end of a break) leaves the timer inactive, out of
    break mode and with both counters back at their initial values; the
    callback that ends a focus session either starts a break of the full
    break time (when breaks start by themselves and the break time is
    positive) or stops the timer with the focus time reset; and in each
    of these states [shouldBlockSite] answers false for every URL. *)
Theorem session_end_unblocks :
  (forall now s s',
     tick now s = (s', Stopped) ->
     isActive s' = false /\ breakMode s' = false /\
     timeLeft s' = initialTime s /\ breakTimeLeft s' = breakInitialTime s /\
     forall hostnameOf blocking url,
       shouldBlockSite hostnameOf s' blocking url = Returned false) /\
  (forall now s s',
     tick now s = (s', AskSettings) ->
     breakMode s = false /\ (timeLeft s' <= 0)%Z) /\
  (forall stored now s,
     let '(s', cleared) := focusFinished stored now s in
     (if cleared
      then isActive s' = false /\ timeLeft s' = initialTime s
      else breakMode s' = true /\ breakTimeLeft s' = breakInitialTime s /\
           (0 < breakInitialTime s)%Z) /\
     forall hostnameOf blocking url,
       shouldBlockSite hostnameOf s' blocking url = Returned false).
Proof.
  split; [|split].
  - intros now s s'. unfold tick.
    destruct (_ <=? 0)%Z; [discriminate|].
    destruct (breakMode s).
    + destruct (0 <? breakTimeLeft s)%Z; cbn [breakTimeLeft];
        match goal with |- context [if ?c then _ else _] => destruct c end;
        try discriminate; intros [= <-]; repeat split.
    + destruct (0 <? timeLeft s)%Z; cbn [timeLeft];
        match goal with |- context [if ?c then _ else _] => destruct c end;
        discriminate.
  - intros now s s'. unfold tick.
    destruct (_ <=? 0)%Z; [discriminate|].
    destruct (breakMode s).
    + destruct (0 <? breakTimeLeft s)%Z; cbn [breakTimeLeft];
        match goal with |- context [if ?c then _ else _] => destruct c end;
        discriminate.
    + destruct (Z.ltb_spec 0 (timeLeft s)); cbn [timeLeft];
        match goal with |- context [if ?c then _ else _] =>
          destruct c eqn:Hzero end;
        try discriminate; intros [= <-]; cbn [timeLeft];
        (split; [reflexivity|lia]).
  - intros stored now s. unfold focusFinished.
    destruct (autoStartBreaks _); cbn [andb].
    + destruct (Z.ltb_spec 0 (breakInitialTime s)).
      * split; [repeat split; assumption|]. intros hostnameOf blocking url.
        unfold shouldBlockSite. cbn [isActive breakMode].
        rewrite orb_true_r. reflexivity.
      * split; [repeat split|]. reflexivity.
    + split; [repeat split|]. reflexivity.
Qed.

(* ================================================================== *)
(** ** Properties of the content script *)
(* ================================================================== *)

(** Whether the overlay is up after [checkAndApplyBlocking]: the
    overlay that was there before plays no part. *)
Lemma checkAndApplyBlocking_overlay siteResponse similarityResponse page :
  blockingOverlay (checkAndApplyBlocking siteResponse similarityResponse page)
  = isActive (timerState page) && negb (breakMode (timerState page)) &&
    match siteResponse with
    | Some true => true
    | _ =>
        existsb (matchesSite (hostname page)) (filterList page) &&
        match similarityResponse with
        | Some response => shouldBlock response
        | None => false
        end
    end.
Proof.
  unfold checkAndApplyBlocking, createBlockingOverlay, dropOverlay.
  destruct (isActive (timerState page)), (breakMode (timerState page)),
    (blockingOverlay page) eqn:Hoverlay; simpl;
    try (rewrite Hoverlay; reflexivity); try reflexivity;
    destruct siteResponse as [[|]|]; simpl; try (rewrite Hoverlay; reflexivity);
    try reflexivity;
    destruct (existsb _ _); simpl; try (rewrite Hoverlay; reflexivity);
    try reflexivity;
    destruct similarityResponse as [response|]; simpl;
    try (rewrite Hoverlay; reflexivity); try reflexivity;
    destruct (shouldBlock response); simpl; rewrite ?Hoverlay; reflexivity.
Qed.

(** A call that finds no model, and whose load is rejected, answers
    with the neutral result. *)
Lemma computePageSimilarity_load_rejected env e text blockedKeywords allowedKeywords s :
  pipelineLoad env = Rejected e ->
  mlModelStatus s = StatusNull \/ mlModelStatus s = StatusError ->
  model (embeddingModel s) = None -> isLoading (embeddingModel s) = false ->
  fst (computePageSimilarity env text blockedKeywords allowedKeywords s)
  = Returned neutral.
Proof.
  intros Hload Hstatus Hmodel Hidle.
  unfold computePageSimilarity, ensureModel.
  assert (Hinit : initializeMLModel env s =
                  (Returned tt,
                   {| keywordEmbeddingCache := keywordEmbeddingCache s;
                      mlModelStatus := StatusError;
                      mlModelError := Some (messageOf e);
                      embeddingModel :=
                        {| model := None; isLoading := false;
                           loadError := Some (messageOf e) |} |})).
  { unfold initializeMLModel, initialize. rewrite Hload, Hmodel, Hidle. reflexivity. }
  destruct Hstatus as [-> | ->]; rewrite Hinit; reflexivity.
Qed.

(** X23.  The two ends fail open together.  When the model cannot be
    loaded, or when the page has no token, a check of the page puts the
    overlay up exactly when the content script sees an active focus
    session that is not in a break and the background script reports
    the site blocked by its lists; the overlay that was there before
    plays no part. *)
Theorem checkPage_fails_open (env : Environment)
    (hostnameOf : string -> run string) (now : Z) (url bodyText : string)
    (blockedKeywords allowedKeywords : list string) (x : Extension) (page : Page) :
  (exists e,
     pipelineLoad env = Rejected e /\
     (mlModelStatus (ml x) = StatusNull \/ mlModelStatus (ml x) = StatusError) /\
     model (embeddingModel (ml x)) = None /\
     isLoading (embeddingModel (ml x)) = false) \/
  tokenize bodyText = [] ->
  blockingOverlay
    (checkPage env hostnameOf now url bodyText blockedKeywords allowedKeywords x page)
  = true <->
  isActive (timerState page) = true /\ breakMode (timerState page) = false /\
  shouldBlockSite hostnameOf (currentState x) (blockingState x) url = Returned true.
Proof.
  intros Hopen. unfold checkPage. rewrite checkAndApplyBlocking_overlay.
  assert (Hsimilarity :
            match answer (fst (onMessage env hostnameOf now
                                 (COMPUTE_PAGE_SIMILARITY bodyText blockedKeywords
                                    allowedKeywords) x)) readSimilarity with
            | Some response => shouldBlock response
            | None => false
            end = false).
  { cbn [onMessage].
    destruct (computePageSimilarity env bodyText blockedKeywords allowedKeywords (ml x))
      as [outcome s'] eqn:Hcall. cbn [fst].
    assert (Houtcome : outcome = Returned neutral \/ outcome = Pending).
    { destruct Hopen as [(e & Hload & Hstatus & Hmodel & Hidle)|Hempty].
      - left.
        pose proof (computePageSimilarity_load_rejected env e bodyText blockedKeywords
                      allowedKeywords (ml x) Hload Hstatus Hmodel Hidle) as H.
        rewrite Hcall in H. exact H.
      - pose proof (computePageSimilarity_no_tokens env bodyText blockedKeywords
                      allowedKeywords (ml x) Hempty) as H.
        rewrite Hcall in H. simpl in H.
        destruct outcome as [result|e|]; [left; congruence|destruct H|right; reflexivity]. }
    destruct Houtcome as [-> | ->]; reflexivity. }
  rewrite Hsimilarity, andb_false_r. cbn [onMessage fst].
  destruct (shouldBlockSite hostnameOf (currentState x) (blockingState x) url)
    as [[|]|e|]; cbn [bind answer readShouldBlock];
    destruct (isActive (timerState page)), (breakMode (timerState page)); simpl;
    split; try discriminate; try tauto;
    intros (Ha & Hb & Hc); discriminate.
Qed.

Lemma checkPage_fails_open_witness :
  let env := {| pipelineLoad := Rejected NonError; providerPolls := [];
                statusPolls := []; storageFailure := None |} in
  let hostnameOf := fun url : string => Returned "www.youtube.com" in
  let timer := {| isActive := true; timeLeft := 60; initialTime := 60;
                  breakMode := false; breakTimeLeft := 5; breakInitialTime := 5;
                  lastUpdateTime := 0 |} in
  let x := {| ml := {| keywordEmbeddingCache := demoCache;
                       mlModelStatus := StatusReady;
                       mlModelError := None;
                       embeddingModel := demoProvider |};
              currentState := timer;
              blockingState := {| isBlocked := true; blockedSites := [];
                                  blockMode := blacklist;
                                  whitelistSites := [] |} |} in
  let page := {| timerState := timer; filterList := ["youtube.com"];
                 hostname := "www.youtube.com"; hidden := false;
                 blockingOverlay := true |} in
  blockingOverlay
    (checkPage env hostnameOf 1 "https://www.youtube.com/" "  " ["gaming"] [] x page)
  = true <->
  isActive (timerState page) = true /\ breakMode (timerState page) = false /\
  shouldBlockSite hostnameOf (currentState x) (blockingState x)
    "https://www.youtube.com/" = Returned true.
Proof.
  intros env hostnameOf timer x page.
  apply (checkPage_fails_open env hostnameOf 1 "https://www.youtube.com/" "  "
           ["gaming"] [] x page).
  right. vm_compute. reflexivity.
Defined.

(** X24.  The periodic check leaves the page alone whenever
    [shouldStopChecking] holds; in particular it never takes an overlay
    down.  A TIMER_UPDATE takes the overlay down when the timer goes
    from active to inactive, and only then: an update that leaves the
    timer active (the start of a break included) keeps the overlay, and
    the periodic checks that follow keep it too. *)
Theorem overlay_outlives_periodic_checks (state : TimerState)
    (siteResponse : option bool) (similarityResponse : option SimilarityResult)
    (page : Page) :
  (shouldStopChecking page = true ->
   checkAndApplyBlocking_helper siteResponse similarityResponse page = page) /\
  (blockingOverlay page = true ->
   blockingOverlay (checkAndApplyBlocking_helper siteResponse similarityResponse page)
   = true) /\
  (blockingOverlay (onTimerUpdate state page)
   = blockingOverlay page
     && negb (isActive (timerState page) && negb (isActive state))) /\
  (blockingOverlay page = true -> isActive state = true ->
   checkAndApplyBlocking_helper siteResponse similarityResponse
     (onTimerUpdate state page) = onTimerUpdate state page /\
   blockingOverlay (onTimerUpdate state page) = true).
Proof.
  split; [|split; [|split]].
  - unfold checkAndApplyBlocking_helper. intros ->. reflexivity.
  - unfold checkAndApplyBlocking_helper, shouldStopChecking. intros Hup.
    rewrite Hup. simpl. exact Hup.
  - unfold onTimerUpdate, dropOverlay.
    destruct (isActive (timerState page)), (isActive state),
      (blockingOverlay page); reflexivity.
  - intros Hup Hactive.
    assert (Hkept : blockingOverlay (onTimerUpdate state page) = true).
    { unfold onTimerUpdate. rewrite Hactive, Hup.
      rewrite andb_false_r. reflexivity. }
    split; [|exact Hkept].
    unfold checkAndApplyBlocking_helper, shouldStopChecking.
    rewrite Hkept. reflexivity.
Qed.

(** X25.  [initializeMLModel], called while no load is in flight,
    always completes and leaves the keyword cache alone; what
    [GET_ML_STATUS] reports afterwards is either 'ready' without an
    error, and then the model is installed, or 'error' with a message:
    never 'loading', and never 'ready' with an error. *)
Theorem initializeMLModel_reports_outcome (env : Environment)
    (hostnameOf : string -> run string) (now : Z) (x : Extension) :
  isLoading (embeddingModel (ml x)) = false ->
  let '(outcome, s') := initializeMLModel env (ml x) in
  let reply :=
    fst (onMessage env hostnameOf now GET_ML_STATUS
           {| ml := s'; currentState := currentState x;
              blockingState := blockingState x |}) in
  outcome = Returned tt /\
  keywordEmbeddingCache s' = keywordEmbeddingCache (ml x) /\
  ((reply = Returned (MLStatus StatusReady None) /\
    is_Some (model (embeddingModel s')) /\ storageFailure env = None) \/
   (exists message, reply = Returned (MLStatus StatusError (Some message)))).
Proof.
  intros Hidle. unfold initializeMLModel, initialize.
  destruct (model (embeddingModel (ml x))) as [loaded|] eqn:Hmodel.
  - destruct (storageFailure env) as [e|]; cbn.
    + split; [reflexivity|]. split; [reflexivity|]. right. eauto.
    + split; [reflexivity|]. split; [reflexivity|]. left.
      rewrite Hmodel. repeat split. eauto.
  - rewrite Hidle.
    destruct (pipelineLoad env) as [loaded|e].
    + destruct (loaded "warmup text") as [output|e].
      * destruct (storageFailure env) as [e|]; cbn.
        -- split; [reflexivity|]. split; [reflexivity|]. right. eauto.
        -- split; [reflexivity|]. split; [reflexivity|]. left.
           repeat split. eauto.
      * cbn. split; [reflexivity|]. split; [reflexivity|]. right. eauto.
    + cbn. split; [reflexivity|]. split; [reflexivity|]. right. eauto.
Qed.

Lemma initializeMLModel_reports_outcome_witness :
  let env := {| pipelineLoad := Rejected (JsError "offline"); providerPolls := [];
                statusPolls := []; storageFailure := None |} in
  let x := {| ml := {| keywordEmbeddingCache := demoCache;
                       mlModelStatus := StatusNull;
                       mlModelError := None;
                       embeddingModel := newInstance |};
              currentState := {| isActive := false; timeLeft := 60;
                                 initialTime := 60; breakMode := false;
                                 breakTimeLeft := 5; breakInitialTime := 5;
                                 lastUpdateTime := 0 |};
              blockingState := {| isBlocked := true; blockedSites := [];
                                  blockMode := blacklist;
                                  whitelistSites := [] |} |} in
  let '(outcome, s') := initializeMLModel env (ml x) in
  let reply :=
    fst (onMessage env (fun url => Returned url) 0 GET_ML_STATUS
           {| ml := s'; currentState := currentState x;
              blockingState := blockingState x |}) in
  outcome = Returned tt /\
  keywordEmbeddingCache s' = keywordEmbeddingCache (ml x) /\
  ((reply = Returned (MLStatus StatusReady None) /\
    is_Some (model (embeddingModel s')) /\ storageFailure env = None) \/
   (exists message, reply = Returned (MLStatus StatusError (Some message)))).
Proof.
  intros env x.
  apply (initializeMLModel_reports_outcome env (fun url => Returned url) 0 x).
  reflexivity.
Defined.
